(** * Financial data parser: amount, date and column-type normalisation

    A shallow embedding of [src/core/format_parser.py] (class
    [FormatParser]) and [src/core/type_detector.py] (class [TypeDetector]),
    with the parts of the Python runtime they rest on: [str] methods, the
    regular expressions of the two files (each one written out as a matcher
    of its own, with the pattern in its comment), [decimal.Decimal] with the
    default arithmetic context, [float], [datetime.timedelta] and the
    proleptic Gregorian calendar of [datetime.date]. *)

From Stdlib Require Import ZArith NArith List String Ascii Bool Lia QArith.
Import ListNotations.

Local Open Scope Z_scope.

(** ** Python exceptions and results *)

(** The exceptions the two modules can let out.  The three [ValueError]s the
    source raises itself are kept apart by their message. *)
Inductive exn : Type :=
| ValueError_NaN            (* ValueError("Cannot parse NaN into ...") *)
| ValueError_InvalidAmount  (* ValueError("Invalid amount: ...") *)
| ValueError_InvalidDate    (* ValueError("Invalid date: ...") *)
| ValueError_Range          (* ValueError raised by datetime(...) itself *)
| TypeError
| KeyError
| AttributeError
| OverflowError
| Decimal_Overflow          (* decimal.Overflow, trapped by the default context *)
| Decimal_InvalidOperation. (* decimal.InvalidOperation raised by arithmetic *)

Inductive result (A : Type) : Type :=
| Ok (a : A)
| Raise (e : exn).
Arguments Ok {A} a.
Arguments Raise {A} e.

Definition bind {A B} (r : result A) (k : A -> result B) : result B :=
  match r with
  | Ok a => k a
  | Raise e => Raise e
  end.

Notation "x <- r ;; k" := (bind r (fun x => k))
  (at level 61, r at next level, right associativity).

Fixpoint mapM {A B} (f : A -> result B) (l : list A) : result (list B) :=
  match l with
  | [] => Ok []
  | a :: l' => b <- f a ;; bs <- mapM f l' ;; Ok (b :: bs)
  end.

(** ** Python [str]: sequences of Unicode code points *)

Module Py.

Definition char := N.
Definition str := list char.

(** Code points of a literal written in UTF-8 in this file. *)
Fixpoint utf8 (bs : list N) : str :=
  match bs with
  | [] => []
  | b :: r =>
      if (b <? 128)%N then b :: utf8 r
      else if (b <? 224)%N then
        match r with
        | c1 :: r1 => ((b - 192) * 64 + (c1 - 128))%N :: utf8 r1
        | [] => [b]
        end
      else if (b <? 240)%N then
        match r with
        | c1 :: c2 :: r2 =>
            ((b - 224) * 4096 + (c1 - 128) * 64 + (c2 - 128))%N :: utf8 r2
        | _ => [b]
        end
      else
        match r with
        | c1 :: c2 :: c3 :: r3 =>
            ((b - 240) * 262144 + (c1 - 128) * 4096
             + (c2 - 128) * 64 + (c3 - 128))%N :: utf8 r3
        | _ => [b]
        end
  end.

Definition lit (s : string) : str :=
  utf8 (map (fun a => N_of_ascii a) (list_ascii_of_string s)).

Definition ch (a : ascii) : char := N_of_ascii a.

Definition eqc (a b : char) : bool := N.eqb a b.

(** [str.isspace] on one character, which is also [\s] of [re] on [str]
    patterns and what [str.strip()] removes. *)
Definition isspace (c : char) : bool :=
  ((9 <=? c) && (c <=? 13) || (28 <=? c) && (c <=? 32)
   || (c =? 133) || (c =? 160) || (c =? 5760)
   || (8192 <=? c) && (c <=? 8202)
   || (c =? 8232) || (c =? 8233) || (c =? 8239) || (c =? 8287)
   || (c =? 12288))%N.

(** First code point of every run of ten decimal digits (category Nd) of the
    Unicode database of the interpreter: what [\d] matches on a [str]
    pattern, and what [int], [float] and [Decimal] read as digits. *)
Definition digit_zeros : list N :=
  [48; 1632; 1776; 1984; 2406; 2534; 2662; 2790; 2918; 3046; 3174; 3302;
   3430; 3558; 3664; 3792; 3872; 4160; 4240; 6112; 6160; 6470; 6608; 6784;
   6800; 6992; 7088; 7232; 7248; 42528; 43216; 43264; 43472; 43504; 43600;
   44016; 65296; 66720; 68912; 69734; 69872; 69942; 70096; 70384; 70736;
   70864; 71248; 71360; 71472; 71904; 72016; 72784; 73040; 73120; 92768;
   92864; 93008; 120782; 120792; 120802; 120812; 120822; 123200; 123632;
   125264; 130032]%N.

Fixpoint digit_in (zs : list N) (c : char) : option N :=
  match zs with
  | [] => None
  | z :: zs' =>
      if ((z <=? c) && (c <? z + 10))%N then Some (c - z)%N
      else digit_in zs' c
  end.

(** Value of a decimal digit character ([unicodedata.decimal]). *)
Definition digit_value (c : char) : option N := digit_in digit_zeros c.

Definition isdigit (c : char) : bool :=
  match digit_value c with Some _ => true | None => false end.

(** ASCII letters only: [c.lower()] restricted to 'A'..'Z'. *)
Definition ascii_lower (c : char) : char :=
  if ((65 <=? c) && (c <=? 90))%N then (c + 32)%N else c.

Definition ascii_upper (c : char) : char :=
  if ((97 <=? c) && (c <=? 122))%N then (c - 32)%N else c.

Fixpoint dropwhile (p : char -> bool) (s : str) : str :=
  match s with
  | [] => []
  | c :: s' => if p c then dropwhile p s' else s
  end.

Fixpoint takewhile (p : char -> bool) (s : str) : str :=
  match s with
  | [] => []
  | c :: s' => if p c then c :: takewhile p s' else []
  end.

Definition lstrip (s : str) : str := dropwhile isspace s.
Definition rstrip (s : str) : str := rev (dropwhile isspace (rev s)).
(** [s.strip()] *)
Definition strip (s : str) : str := rstrip (lstrip s).

(** [s.startswith(c)] and [s.endswith(c)] for a one-character [c]. *)
Definition startswith (c : char) (s : str) : bool :=
  match s with
  | [] => false
  | d :: _ => eqc d c
  end.

Definition endswith (c : char) (s : str) : bool :=
  match rev s with
  | [] => false
  | d :: _ => eqc d c
  end.

(** [c in s] *)
Definition contains (c : char) (s : str) : bool := existsb (eqc c) s.

(** [s.count(c)] *)
Definition count (c : char) (s : str) : nat :=
  List.length (filter (eqc c) s).

(** [s.find(c)]: index of the first occurrence, or -1. *)
Fixpoint find (c : char) (s : str) : Z :=
  match s with
  | [] => -1
  | d :: s' =>
      if eqc d c then 0
      else let i := find c s' in if i <? 0 then -1 else i + 1
  end.

(** [s.rfind(c)]: index of the last occurrence, or -1. *)
Fixpoint rfind (c : char) (s : str) : Z :=
  match s with
  | [] => -1
  | d :: s' =>
      let i := rfind c s' in
      if 0 <=? i then i + 1 else if eqc d c then 0 else -1
  end.

(** [s.replace(c, '')] *)
Definition remove (c : char) (s : str) : str :=
  filter (fun d => negb (eqc d c)) s.

(** [s.replace(c, d)] *)
Definition replace (c d : char) (s : str) : str :=
  map (fun x => if eqc x c then d else x) s.

(** [s.replace(c, d, 1)]: only the first occurrence, counted from the left. *)
Fixpoint replace_first (c d : char) (s : str) : str :=
  match s with
  | [] => []
  | x :: s' => if eqc x c then d :: s' else x :: replace_first c d s'
  end.

(** [s.split(c)]: never empty. *)
Fixpoint split (c : char) (s : str) : list str :=
  match s with
  | [] => [[]]
  | x :: s' =>
      match split c s' with
      | [] => [[]]
      | p :: ps => if eqc x c then [] :: p :: ps else (x :: p) :: ps
      end
  end.

(** [''.join(l)] *)
Definition join (l : list str) : str := List.concat l.

(** [l[0]], [l[1:-1]] and [l[-1]] of a non-empty list. *)
Definition first_part (l : list str) : str := hd [] l.
Definition middle_parts (l : list str) : list str := removelast (tl l).
Definition last_part (l : list str) : str := last l [].

(** [int(s)] of a string of decimal digits. *)
Fixpoint int_digits_acc (acc : N) (s : str) : option N :=
  match s with
  | [] => Some acc
  | c :: s' =>
      match digit_value c with
      | Some d => int_digits_acc (acc * 10 + d)%N s'
      | None => None
      end
  end.

Definition int_of_digits (s : str) : option N :=
  match s with
  | [] => None
  | _ => int_digits_acc 0%N s
  end.

End Py.

Import Py.

(** ** [decimal.Decimal] *)

Module Dec.

(** A [Decimal] is a sign, a coefficient and an exponent, or a special value.
    [Decimal('-0')] and the trailing zeros of [Decimal('1.50')] are kept, as
    Python keeps them. *)
Inductive decimal : Type :=
| Fin (neg : bool) (coef : N) (exp : Z)
| Inf (neg : bool)
| NaN (neg : bool) (signaling : bool) (payload : N).

(** The default context: [Context(prec=28, rounding=ROUND_HALF_EVEN,
    Emin=-999999, Emax=999999, clamp=0,
    traps=[InvalidOperation, DivisionByZero, Overflow])]. *)
Definition prec : Z := 28.
Definition Emax : Z := 999999.
Definition Emin : Z := -999999.
Definition Etiny : Z := Emin - prec + 1.
Definition Etop : Z := Emax - prec + 1.

(** The context of the exact constructor [Decimal(str)] (64-bit build). *)
Definition max_Emax : Z := 999999999999999999.
Definition max_Etiny : Z := - max_Emax - (max_Emax - 1).

Fixpoint ndigits_fuel (fuel : nat) (c : Z) : Z :=
  match fuel with
  | O => 1
  | S f => if c <? 10 then 1 else 1 + ndigits_fuel f (c / 10)
  end.

(** [len(str(c))] *)
Definition ndigits (c : N) : Z := ndigits_fuel (N.size_nat c) (Z.of_N c).

(** Value of a run of digit characters (0 for the empty run). *)
Definition digits_value (s : str) : N :=
  fold_left (fun acc c =>
               match digit_value c with
               | Some d => (acc * 10 + d)%N
               | None => acc
               end) s 0%N.

Definition unsign (s : str) : bool * str :=
  match s with
  | c :: r =>
      if eqc c (ch "-") then (true, r)
      else if eqc c (ch "+") then (false, r)
      else (false, s)
  | [] => (false, [])
  end.

Definition str_eqb (a b : str) : bool :=
  if list_eq_dec N.eq_dec a b then true else false.

(** Exponent part: nothing, or [e], an optional sign and at least one digit. *)
Definition parse_exponent (s : str) : option Z :=
  match s with
  | [] => Some 0
  | c :: r =>
      if eqc (ascii_lower c) (ch "e") then
        let '(neg, ds) := unsign r in
        match int_of_digits ds with
        | Some n => Some (if neg then - Z.of_N n else Z.of_N n)
        | None => None
        end
      else None
  end.

(** The exact constructor refuses what its context cannot hold exactly. *)
Definition representable (coef : N) (exp : Z) : bool :=
  if (coef =? 0)%N then (max_Etiny <=? exp) && (exp <=? max_Emax)
  else (max_Etiny <=? exp) && (exp + ndigits coef - 1 <=? max_Emax).

(** [digits [. digits] | . digits] followed by an optional exponent. *)
Definition parse_finite (neg : bool) (s : str) : option decimal :=
  let ip := takewhile isdigit s in
  let r1 := dropwhile isdigit s in
  let '(fp, r2) :=
    match r1 with
    | c :: r' =>
        if eqc c (ch ".") then (takewhile isdigit r', dropwhile isdigit r')
        else ([], r1)
    | [] => ([], [])
    end in
  match ip ++ fp with
  | [] => None
  | ds =>
      match parse_exponent r2 with
      | Some e =>
          let coef := digits_value ds in
          let exp := e - Z.of_nat (List.length fp) in
          if representable coef exp then Some (Fin neg coef exp) else None
      | None => None
      end
  end.

(** [Inf], [Infinity], [NaN] and [sNaN] with an optional payload, in any
    letter case. *)
Definition parse_special (neg : bool) (s : str) : option decimal :=
  let l := map ascii_lower s in
  if str_eqb l (lit "inf") || str_eqb l (lit "infinity") then Some (Inf neg)
  else
    match l with
    | n1 :: a :: n2 :: r =>
        if str_eqb [n1; a; n2] (lit "nan") && forallb isdigit r
        then Some (NaN neg false (digits_value r))
        else
          match l with
          | s0 :: n1' :: a' :: n2' :: r' =>
              if str_eqb [s0; n1'; a'; n2'] (lit "snan") && forallb isdigit r'
              then Some (NaN neg true (digits_value r'))
              else None
          | _ => None
          end
    | _ => None
    end.

(** [Decimal(s)] for a string: [None] is [decimal.InvalidOperation].
    Surrounding whitespace is stripped and underscores are dropped first. *)
Definition of_str (s : str) : option decimal :=
  let '(neg, body) := unsign (remove (ch "_") (strip s)) in
  match parse_finite neg body with
  | Some d => Some d
  | None => parse_special neg body
  end.


(** Round a non-zero finite value to the default context (the non-zero case
    of [Decimal._fix]; [fix_ctx] below is the whole of it). *)
Definition fix_nonzero (neg : bool) (c : N) (e : Z) : result decimal :=
  let exp_min := ndigits c + e - prec in
  if Etop <? exp_min then Raise Decimal_Overflow
  else
    let exp_min := Z.max exp_min Etiny in
    if e <? exp_min then
      let scale := 10 ^ (exp_min - e) in
      let q := Z.of_N c / scale in
      let r := Z.of_N c mod scale in
      let half := scale / 2 in
      let up := (half <? r) || ((r =? half) && Z.odd q) in
      let q := if up then q + 1 else q in
      let '(q, exp_min) :=
        if prec <? ndigits (Z.to_N q) then (q / 10, exp_min + 1)
        else (q, exp_min) in
      if Etop <? exp_min then Raise Decimal_Overflow
      else Ok (Fin neg (Z.to_N q) exp_min)
    else Ok (Fin neg c e).

Definition fix_ctx (neg : bool) (c : N) (e : Z) : result decimal :=
  if (c =? 0)%N then Ok (Fin neg 0 (Z.min (Z.max e Etiny) Emax))
  else fix_nonzero neg c e.

(** [d * k] and [k * d] for a Python [int] [k], in the default context. *)
Definition mul_int (d : decimal) (k : Z) : result decimal :=
  match d with
  | NaN neg true _ => Raise Decimal_InvalidOperation
  | NaN neg false p => Ok (NaN neg false (p mod 10 ^ 28)%N)
  | Inf neg =>
      if k =? 0 then Raise Decimal_InvalidOperation
      else Ok (Inf (xorb neg (k <? 0)))
  | Fin neg c e => fix_ctx (xorb neg (k <? 0)) (c * Z.abs_N k)%N e
  end.

(** A finite decimal's value as the pair [(m, e)] meaning [m * 10^e]. *)
Definition signed_coef (neg : bool) (c : N) : Z :=
  if neg then - Z.of_N c else Z.of_N c.

(** [a == b] on decimals: by numeric value; a NaN equals nothing. *)
Definition eqb (a b : decimal) : bool :=
  match a, b with
  | Fin n1 c1 e1, Fin n2 c2 e2 =>
      let e := Z.min e1 e2 in
      signed_coef n1 c1 * 10 ^ (e1 - e) =? signed_coef n2 c2 * 10 ^ (e2 - e)
  | Inf n1, Inf n2 => Bool.eqb n1 n2
  | _, _ => false
  end.

(** The numeric value of a finite decimal as a rational. *)
Definition to_Q (neg : bool) (c : N) (e : Z) : Q :=
  if 0 <=? e then inject_Z (signed_coef neg c * 10 ^ e)
  else Qmake (signed_coef neg c) (Z.to_pos (10 ^ (- e))).

Definition is_nan (d : decimal) : bool :=
  match d with NaN _ _ _ => true | _ => false end.

End Dec.

Import Dec.

(** ** [float] and [datetime] *)

Module Float.

(** A non-negative IEEE-754 double: [m * 2^e] with [m < 2^53], infinity, or
    the NaN that the mean of an empty column is. *)
Inductive double : Type :=
| Finite (m e : Z)
| PosInf
| FNaN.

(** [n / d] rounded to the nearest integer, ties to even ([0 < d]). *)
Definition round_half_even (n d : Z) : Z :=
  let q := n / d in
  let r := n mod d in
  if (d <? 2 * r) || ((2 * r =? d) && Z.odd q) then q + 1 else q.

(** The [k] with [2^k <= num / den < 2^(k+1)] ([0 < num], [0 < den]). *)
Definition binary_exponent (num den : Z) : Z :=
  let l := Z.log2 num - Z.log2 den in
  let reaches := if 0 <=? l then den * 2 ^ l <=? num
                 else den <=? num * 2 ^ (- l) in
  if reaches then l else l - 1.

(** The double nearest to [num / den] ([0 <= num], [0 < den]), ties to even:
    what [float(s)] returns for a decimal literal and what a product of two
    doubles rounds to.  The significand has 53 bits, fewer below [2^-1022]. *)
Definition round_ratio (num den : Z) : double :=
  if num =? 0 then Finite 0 0
  else
    let e := Z.max (binary_exponent num den - 52) (-1074) in
    let m := if 0 <=? e then round_half_even num (den * 2 ^ e)
             else round_half_even (num * 2 ^ (- e)) den in
    let '(m, e) := if m =? 2 ^ 53 then (2 ^ 52, e + 1) else (m, e) in
    if 1023 <? e + 52 then PosInf else Finite m e.

(** [math.modf] of a finite double: the integer part, and the fractional
    part as a fraction [fnum / fden]. *)
Definition modf (m e : Z) : Z * Z * Z :=
  if 0 <=? e then (m * 2 ^ e, 0, 1)
  else (m / 2 ^ (- e), m mod 2 ^ (- e), 2 ^ (- e)).

(** [a <= b] on doubles; a NaN compares false with everything. *)
Definition leb (a b : double) : bool :=
  match a, b with
  | Finite m1 e1, Finite m2 e2 =>
      let e := Z.min e1 e2 in m1 * 2 ^ (e1 - e) <=? m2 * 2 ^ (e2 - e)
  | Finite _ _, PosInf => true
  | PosInf, PosInf => true
  | _, _ => false
  end.

(** [max(a, b)] of Python: [b] if [b > a], else [a]. *)
Definition max (a b : double) : double :=
  if leb b a then a else match a, b with
                         | FNaN, _ => a
                         | _, FNaN => a
                         | _, _ => b
                         end.

(** The exact value of a finite double. *)
Definition to_Q (d : double) : option Q :=
  match d with
  | Finite m e =>
      Some (if 0 <=? e then inject_Z (m * 2 ^ e)
            else Qmake m (Z.to_pos (2 ^ (- e))))
  | _ => None
  end.

(** [series.mean()] of a boolean column: the count of [True] over the
    length, one float division; NaN on the empty column. *)
Definition mean (mask : list bool) : double :=
  match mask with
  | [] => FNaN
  | _ => round_ratio (Z.of_nat (List.length (filter (fun b => b) mask)))
                     (Z.of_nat (List.length mask))
  end.

End Float.

Module Calendar.

Record date : Type := mkdate { year : Z; month : Z; day : Z }.

Definition is_leap (y : Z) : bool :=
  (y mod 4 =? 0) && (negb (y mod 100 =? 0) || (y mod 400 =? 0)).

Definition days_in_month (y m : Z) : Z :=
  if m =? 2 then (if is_leap y then 29 else 28)
  else if (m =? 4) || (m =? 6) || (m =? 9) || (m =? 11) then 30
  else 31.

(** Days of the year before the first of month [m] in a common year. *)
Definition days_before_month_common (m : Z) : Z :=
  nth (Z.to_nat m) [0; 0; 31; 59; 90; 120; 151; 181; 212; 243; 273; 304; 334] 0.

Definition days_before_month (y m : Z) : Z :=
  days_before_month_common m + (if (2 <? m) && is_leap y then 1 else 0).

Definition days_before_year (y : Z) : Z :=
  let p := y - 1 in p * 365 + p / 4 - p / 100 + p / 400.

(** [date(y, m, d)] accepts exactly these. *)
Definition valid_date (y m d : Z) : bool :=
  (1 <=? y) && (y <=? 9999) && (1 <=? m) && (m <=? 12)
  && (1 <=? d) && (d <=? days_in_month y m).

(** [date(y, m, d).toordinal()] *)
Definition ymd2ord (y m d : Z) : Z :=
  days_before_year y + days_before_month y m + d.

(** [date.fromordinal(n)] *)
Definition ord2ymd (n : Z) : date :=
  let n := n - 1 in
  let n400 := n / 146097 in
  let n := n mod 146097 in
  let n100 := n / 36524 in
  let n := n mod 36524 in
  let n4 := n / 1461 in
  let n := n mod 1461 in
  let n1 := n / 365 in
  let n := n mod 365 in
  let y := n400 * 400 + 1 + n100 * 100 + n4 * 4 + n1 in
  if (n1 =? 4) || (n100 =? 4) then mkdate (y - 1) 12 31
  else
    let leapyear := (n1 =? 3) && (negb (n4 =? 24) || (n100 =? 3)) in
    let m := Z.shiftr (n + 50) 5 in
    let preceding :=
      days_before_month_common m + (if (2 <? m) && leapyear then 1 else 0) in
    let '(m, preceding) :=
      if n <? preceding then
        (m - 1,
         preceding - ((if m - 1 =? 2 then 28
                       else if (m - 1 =? 4) || (m - 1 =? 6) || (m - 1 =? 9)
                               || (m - 1 =? 11) then 30 else 31)
                      + (if (m - 1 =? 2) && leapyear then 1 else 0)))
      else (m, preceding) in
    mkdate y m (n - preceding + 1).

Definition max_ordinal : Z := 3652059.

(** [datetime(y, m, d).date()]: a [ValueError] outside the calendar. *)
Definition make_date (y m d : Z) : result date :=
  if valid_date y m d then Ok (mkdate y m d) else Raise ValueError_Range.

End Calendar.

(** ** Raw cells *)

(** A cell as read from a sheet.  [None] and a float NaN are the two nulls
    ([pd.isna]); every other cell enters both modules through [str(value)],
    so it is carried as that text. *)
Inductive RawCell : Type :=
| CNone
| CNaN
| CText (s : str).

(** [pd.isna(value)] *)
Definition isna (v : RawCell) : bool :=
  match v with
  | CText _ => false
  | _ => true
  end.

(** [str(value)], which is also what [series.astype(str)] puts in a cell. *)
Definition str_of (v : RawCell) : str :=
  match v with
  | CNone => lit "None"
  | CNaN => lit "nan"
  | CText s => s
  end.

(** ** [FormatParser]: amounts *)

Module FormatParser.

(** Lines 28-37 of [parse_amount]: the sign and the text it leaves. *)
Definition split_sign (s : str) : Z * str :=
  if startswith (ch "(") s && endswith (ch ")") s then
    (-1, strip (removelast (tl s)))
  else if endswith (ch "-") s then (-1, strip (removelast s))
  else if startswith (ch "-") s then (-1, strip (tl s))
  else (1, s).

(** [suffix_map[letter.upper()]]; [None] is a [KeyError]. *)
Definition suffix_map (c : char) : option Z :=
  if eqc c (ch "K") then Some 1000
  else if eqc c (ch "M") then Some 1000000
  else if eqc c (ch "B") then Some 1000000000
  else None.

Definition in_class (cls : string) (c : char) : bool :=
  existsb (eqc c) (lit cls).

(** [[+-]?\d+(?:\.\d+)?] against the whole of [s]. *)
Definition match_number (s : str) : bool :=
  let body :=
    match s with
    | c :: r => if in_class "+-" c then r else s
    | [] => []
    end in
  match takewhile isdigit body, dropwhile isdigit body with
  | [], _ => false
  | _ :: _, [] => true
  | _ :: _, c :: fr =>
      eqc c (ch ".") && negb (Nat.eqb (List.length fr) 0) && forallb isdigit fr
  end.

(** [re.fullmatch(r"([+-]?\d+(?:\.\d+)?)\s*([KkMmBb])", s)]: the two groups. *)
Definition match_suffix (s : str) : option (str * char) :=
  match rev s with
  | [] => None
  | l :: before =>
      if in_class "KkMmBb" l then
        let num := rev (dropwhile isspace before) in
        if match_number num then Some (num, l) else None
      else None
  end.

(** [re.sub(r"[^\d.,-]", "", s)] *)
Definition keep_amount_chars (s : str) : str :=
  filter (fun c => isdigit c || in_class ".,-" c) s.

(** [re.search(r",\d{1,2}$", s)] on a subject without line breaks. *)
Definition ends_comma_digits (s : str) : bool :=
  match rev s with
  | d :: c :: r =>
      isdigit d &&
      (eqc c (ch ",")
       || isdigit c && match r with
                       | c' :: _ => eqc c' (ch ",")
                       | [] => false
                       end)
  | _ => false
  end.

(** Lines 48-64: the regional formats. *)
Definition regional (s : str) : str :=
  if contains (ch ".") s && contains (ch ",") s then
    let last_dot := rfind (ch ".") s in
    let last_comma := rfind (ch ",") s in
    if last_comma <? last_dot then remove (ch ",") s
    else replace (ch ",") (ch ".") (remove (ch ".") s)
  else if contains (ch ",") s then
    let s := if ends_comma_digits s
             then replace_first (ch ",") (ch ".") s else s in
    remove (ch ",") s
  else s.

(** Lines 66-69: more than one dot left. *)
Definition collapse_dots (s : str) : str :=
  if (1 <? count (ch ".") s)%nat then
    let parts := split (ch ".") s in
    first_part parts ++ join (middle_parts parts) ++ [ch "."] ++ last_part parts
  else s.

(** Lines 71-75: [sign * Decimal(s)] under [except InvalidOperation]. *)
Definition to_decimal (sign : Z) (s : str) : result decimal :=
  match of_str s with
  | None => Raise ValueError_InvalidAmount
  | Some d =>
      match mul_int d sign with
      | Raise Decimal_InvalidOperation => Raise ValueError_InvalidAmount
      | r => r
      end
  end.

Definition parse_amount (value : RawCell) : result decimal :=
  if isna value then Raise ValueError_NaN
  else
    let s := strip (str_of value) in
    let '(sign, s) := split_sign s in
    match match_suffix s with
    | Some (num, letter) =>
        match of_str num, suffix_map (ascii_upper letter) with
        | None, _ => Raise Decimal_InvalidOperation
        | Some _, None => Raise KeyError
        | Some d, Some k => mul_int d k
        end
    | None =>
        let s := keep_amount_chars s in
        let s := regional s in
        let s := collapse_dots s in
        to_decimal sign s
    end.

(** *** The vectorized form *)

(** The three conditions of [np.where] in lines 91-96, on a stripped cell. *)
Definition batch_sign (s : str) : Z :=
  if startswith (ch "(") s && endswith (ch ")") s
     || endswith (ch "-") s || startswith (ch "-") s
  then -1 else 1.

(** The class [[€$₹£¥,]]. *)
Definition is_currency_or_comma (c : char) : bool :=
  existsb (eqc c) [8364; 36; 8377; 163; 165; 44]%N.

(** [re.sub(r"\(([^)]+)\)", prefix + r"\1", s)]: [pending] is the text read
    since a '(' that has not met its ')' yet. *)
Fixpoint unparen (prefix : str) (pending : option str) (s : str) : str :=
  match s, pending with
  | [], None => []
  | [], Some buf => ch "(" :: buf
  | c :: r, None =>
      if eqc c (ch "(") then unparen prefix (Some []) r
      else c :: unparen prefix None r
  | c :: r, Some buf =>
      if eqc c (ch ")") then
        match buf with
        | [] => ch "(" :: ch ")" :: unparen prefix None r
        | _ => prefix ++ buf ++ unparen prefix None r
        end
      else unparen prefix (Some (buf ++ [c])) r
  end.

(** [re.sub(r"(\d)-$", r"\1", s)] on a subject without line breaks. *)
Definition drop_trailing_minus (s : str) : str :=
  match rev s with
  | m :: d :: r => if eqc m (ch "-") && isdigit d then rev (d :: r) else s
  | _ => s
  end.

(** [re.sub(r"^-", "", s)] *)
Definition drop_leading_minus (s : str) : str :=
  match s with
  | c :: r => if eqc c (ch "-") then r else s
  | [] => []
  end.

(** Lines 99-103. *)
Definition batch_clean (s : str) : str :=
  let s := filter (fun c => negb (is_currency_or_comma c)) s in
  let s := filter (fun c => negb (isspace c)) s in
  let s := unparen [] None s in
  let s := drop_trailing_minus s in
  drop_leading_minus s.

(** [[KMB]] under [re.IGNORECASE]: the six letters and the Kelvin sign
    U+212A, which case-folds to 'k'. *)
Definition is_KMB_ignorecase (c : char) : bool :=
  in_class "KkMmBb" c || eqc c 8490%N.

(** [cleaned.str.contains(r"[KMB]$", case=False)] *)
Definition suffix_mask (s : str) : bool :=
  match rev s with
  | c :: _ => is_KMB_ignorecase c
  | [] => false
  end.

(** [str.extract(r"([\d.]+)([KMB])", flags=re.I)]: the first run of digits
    and dots that a suffix letter follows; [None] is the all-NaN row. *)
Fixpoint extract_suffix (run : str) (s : str) : option (str * char) :=
  match s with
  | [] => None
  | c :: r =>
      if isdigit c || eqc c (ch ".") then extract_suffix (run ++ [c]) r
      else
        match run with
        | _ :: _ => if is_KMB_ignorecase c then Some (run, c)
                    else extract_suffix [] r
        | [] => extract_suffix [] r
        end
  end.

(** [c.upper()] of a character of [[KMB]] under [re.IGNORECASE]: the Kelvin
    sign is its own upper case. *)
Definition upper_suffix (c : char) : char := ascii_upper c.

(** [process_suffix(row)]: [Ok None] is the [None] it returns on
    [InvalidOperation]; the other exceptions leave the function. *)
Definition process_suffix (row : option (str * char)) : result (option decimal) :=
  match row with
  | None => Raise AttributeError
  | Some (num, letter) =>
      match of_str num with
      | None => Ok None
      | Some d =>
          match suffix_map (upper_suffix letter) with
          | None => Raise KeyError
          | Some k =>
              match mul_int d k with
              | Ok p => Ok (Some p)
              | Raise Decimal_InvalidOperation => Ok None
              | Raise e => Raise e
              end
          end
      end
  end.

(** [process_standard(val)] *)
Definition process_standard (val : str) : option decimal :=
  let val :=
    if (1 <? count (ch ".") val)%nat && contains (ch ",") val then
      let parts := split (ch ".") val in
      first_part parts ++ join (middle_parts parts) ++ [ch "."] ++ last_part parts
    else if contains (ch ",") val && negb (contains (ch ".") val) then
      if ends_comma_digits val then replace_first (ch ",") (ch ".") val
      else val
    else val in
  of_str (remove (ch ",") val).

(** [result * signs] on an object array: a [None] cell is masked out and
    becomes NaN, a [Decimal] cell is multiplied in the default context. *)
Definition apply_sign (x : option decimal) (sign : Z) : result (option decimal) :=
  match x with
  | None => Ok None
  | Some d => p <- mul_int d sign ;; Ok (Some p)
  end.

(** [Decimal(x) if pd.notna(x) else None] *)
Definition keep_notna (x : option decimal) : option decimal :=
  match x with
  | Some d => if is_nan d then None else Some d
  | None => None
  end.

(** Walks the cells once the suffix rows have all been processed: a cell of
    the suffix mask takes the next suffix result, the others go through
    [process_standard]. *)
Fixpoint scatter (cleaned : list str) (suffix_results : list (option decimal))
  : list (option decimal) :=
  match cleaned with
  | [] => []
  | c :: cs =>
      if suffix_mask c then
        match suffix_results with
        | r :: rs => r :: scatter cs rs
        | [] => None :: scatter cs []
        end
      else process_standard c :: scatter cs suffix_results
  end.

Fixpoint apply_signs (xs : list (option decimal)) (signs : list Z)
  : result (list (option decimal)) :=
  match xs, signs with
  | x :: xs', s :: signs' =>
      y <- apply_sign x s ;; ys <- apply_signs xs' signs' ;; Ok (y :: ys)
  | _, _ => Ok []
  end.

Definition parse_amount_vectorized (series : list RawCell)
  : result (list (option decimal)) :=
  match series with
  | [] => Ok []
  | _ =>
      let stripped := map (fun v => strip (str_of v)) series in
      let signs := map batch_sign stripped in
      let cleaned := map batch_clean stripped in
      let suffix_values :=
        map (extract_suffix []) (filter suffix_mask cleaned) in
      suffix_results <- mapM process_suffix suffix_values ;;
      let result := scatter cleaned suffix_results in
      signed_result <- apply_signs result signs ;;
      Ok (map keep_notna signed_result)
  end.


(** *** Dates *)

Import Float Calendar.

(** [re.fullmatch(r"\d+(?:\.\d+)?", s)]: the integer and the fraction digits. *)
Definition match_serial (s : str) : option (str * str) :=
  match takewhile isdigit s, dropwhile isdigit s with
  | [], _ => None
  | ip, [] => Some (ip, [])
  | ip, c :: fr =>
      if eqc c (ch ".") && negb (Nat.eqb (List.length fr) 0) && forallb isdigit fr
      then Some (ip, fr) else None
  end.

(** [float(s)] for a string the serial pattern accepts. *)
Definition float_of_serial (ip fr : str) : double :=
  round_ratio (Z.of_N (digits_value (ip ++ fr))) (10 ^ Z.of_nat (List.length fr)).

Definition us_per_day : Z := 86400000000.

(** [timedelta(days=d)] for a non-negative float, as a number of
    microseconds: the whole days are exact, the fraction of a day goes
    through one float product and is rounded to a microsecond, ties to even. *)
Definition timedelta_days (d : double) : result Z :=
  match d with
  | PosInf => Raise OverflowError
  | FNaN => Raise ValueError_Range
  | Finite m e =>
      let '(ip, fnum, fden) := modf m e in
      let x := ip * us_per_day in
      if fnum =? 0 then Ok x
      else
        match round_ratio (us_per_day * fnum) fden with
        | PosInf => Raise OverflowError
        | FNaN => Raise ValueError_Range
        | Finite m2 e2 =>
            let '(ip2, lnum, lden) := modf m2 e2 in
            let x := x + ip2 in
            let whole_us :=
              if 2 * lnum <? lden then 0
              else if 2 * lnum =? lden then (if Z.odd x then 1 else 0)
              else 1 in
            Ok (x + whole_us)
        end
  end.

(** [datetime(1899, 12, 30)] *)
Definition epoch_ordinal : Z := ymd2ord 1899 12 30.

(** [(epoch + timedelta(days=serial)).date()] *)
Definition serial_date (serial : double) : result date :=
  us <- timedelta_days serial ;;
  let days := us / us_per_day in
  if 999999999 <? days then Raise OverflowError
  else if max_ordinal <? epoch_ordinal + days then Raise OverflowError
  else Ok (ord2ymd (epoch_ordinal + days)).

(** [{1: 1, 2: 4, 3: 7, 4: 10}[q]]; [None] is the [KeyError]. *)
Definition quarter_month (q : N) : option Z :=
  match q with
  | 1%N => Some 1
  | 2%N => Some 4
  | 3%N => Some 7
  | 4%N => Some 10
  | _ => None
  end.

Definition len_between (lo hi : nat) (s : str) : bool :=
  (lo <=? List.length s)%nat && (List.length s <=? hi)%nat.

(** [re.fullmatch(r"Q(\d)[- ]*(\d{2,4})", s, flags=re.I)]: [int] of the two
    groups. *)
Definition match_quarter_short (s : str) : option (N * Z) :=
  match s with
  | q :: d :: r =>
      if eqc (ascii_upper q) (ch "Q") then
        match digit_value d with
        | Some qv =>
            let yr := dropwhile (in_class "- ") r in
            if forallb isdigit yr && len_between 2 4 yr
            then Some (qv, Z.of_N (digits_value yr)) else None
        | None => None
        end
      else None
  | _ => None
  end.

(** A literal word under [re.I], none of whose letters has a case partner
    outside ASCII: [Some rest] when [s] starts with it. *)
Fixpoint match_word (w s : str) : option str :=
  match w, s with
  | [], _ => Some s
  | a :: w', c :: s' =>
      if eqc (ascii_lower a) (ascii_lower c) then match_word w' s' else None
  | _ :: _, [] => None
  end.

(** [re.fullmatch(r"Quarter\s+(\d)\s+(\d{4})", s, flags=re.I)] *)
Definition match_quarter_long (s : str) : option (N * Z) :=
  match match_word (lit "Quarter") s with
  | Some r =>
      match r with
      | w :: _ =>
          if isspace w then
            match dropwhile isspace r with
            | d :: r2 =>
                match digit_value d, r2 with
                | Some qv, w2 :: _ =>
                    let yr := dropwhile isspace r2 in
                    if isspace w2 && forallb isdigit yr && len_between 4 4 yr
                    then Some (qv, Z.of_N (digits_value yr)) else None
                | _, _ => None
                end
            | [] => None
            end
          else None
      | [] => None
      end
  | None => None
  end.

(** **** [datetime.strptime] for the nine formats of the source *)

Inductive directive : Type :=
| Dd | Dm | DY | Dy | Db | DB
| Dlit (c : char)
| Dws.

(** What the groups of the format's regular expression have set so far. *)
Record fields : Type := mkfields { f_year : Z; f_month : Z; f_day : Z }.

Definition set_year (y : Z) (f : fields) := mkfields y (f_month f) (f_day f).
Definition set_month (m : Z) (f : fields) := mkfields (f_year f) m (f_day f).
Definition set_day (d : Z) (f : fields) := mkfields (f_year f) (f_month f) d.

Definition ascii_digit (lo hi : N) (c : char) : option Z :=
  if ((48 + lo <=? c) && (c <=? 48 + hi))%N then Some (Z.of_N (c - 48)) else None.

Definition any_digit (c : char) : option Z := option_map Z.of_N (digit_value c).

(** Two-character alternative [first second] of a numeric directive. *)
Definition two (first second : char -> option Z) (s : str) : list (Z * str) :=
  match s with
  | a :: b :: r =>
      match first a, second b with
      | Some x, Some y => [(10 * x + y, r)]
      | _, _ => []
      end
  | _ => []
  end.

Definition one (first : char -> option Z) (s : str) : list (Z * str) :=
  match s with
  | a :: r => match first a with Some x => [(x, r)] | None => [] end
  | [] => []
  end.

Definition blank (c : char) : option Z := if eqc c 32%N then Some 0 else None.

(** [%d]: [3[0-1]|[1-2]\d|0[1-9]|[1-9]| [1-9]] *)
Definition alt_d (s : str) : list (Z * str) :=
  two (ascii_digit 3 3) (ascii_digit 0 1) s ++ two (ascii_digit 1 2) any_digit s
  ++ two (ascii_digit 0 0) (ascii_digit 1 9) s ++ one (ascii_digit 1 9) s
  ++ two blank (ascii_digit 1 9) s.

(** [%m]: [1[0-2]|0[1-9]|[1-9]] *)
Definition alt_m (s : str) : list (Z * str) :=
  two (ascii_digit 1 1) (ascii_digit 0 2) s
  ++ two (ascii_digit 0 0) (ascii_digit 1 9) s ++ one (ascii_digit 1 9) s.

(** [%y]: [\d\d], with the century of the Open Group rule. *)
Definition alt_y (s : str) : list (Z * str) :=
  map (fun '(v, r) => (if v <=? 68 then v + 2000 else v + 1900, r))
      (two any_digit any_digit s).

(** [%Y]: [\d\d\d\d] *)
Definition alt_Y (s : str) : list (Z * str) :=
  flat_map (fun '(hi, r) => map (fun '(lo, r') => (100 * hi + lo, r'))
                                (two any_digit any_digit r))
           (two any_digit any_digit s).

(** Month names in the order of the directive's alternation, each with its
    number; the letters the pattern would accept beyond ASCII are refused by
    the name lookup that follows the match, so ASCII case folding decides. *)
Definition abbreviated_months : list (string * Z) :=
  [("jan", 1); ("feb", 2); ("mar", 3); ("apr", 4); ("may", 5); ("jun", 6);
   ("jul", 7); ("aug", 8); ("sep", 9); ("oct", 10); ("nov", 11); ("dec", 12)]%string.

Definition full_months : list (string * Z) :=
  [("september", 9); ("february", 2); ("november", 11); ("december", 12);
   ("january", 1); ("october", 10); ("august", 8); ("march", 3);
   ("april", 4); ("june", 6); ("july", 7); ("may", 5)]%string.

Definition alt_name (names : list (string * Z)) (s : str) : list (Z * str) :=
  flat_map (fun '(w, m) => match match_word (lit w) s with
                           | Some r => [(m, r)]
                           | None => []
                           end) names.

(** [\s+]: the remainders, longest run first. *)
Fixpoint alt_ws (s : str) : list str :=
  match s with
  | c :: r => if isspace c then alt_ws r ++ [r] else []
  | [] => []
  end.

Definition alternatives (d : directive) (f : fields) (s : str)
  : list (fields * str) :=
  match d with
  | Dd => map (fun '(v, r) => (set_day v f, r)) (alt_d s)
  | Dm => map (fun '(v, r) => (set_month v f, r)) (alt_m s)
  | DY => map (fun '(v, r) => (set_year v f, r)) (alt_Y s)
  | Dy => map (fun '(v, r) => (set_year v f, r)) (alt_y s)
  | Db => map (fun '(v, r) => (set_month v f, r)) (alt_name abbreviated_months s)
  | DB => map (fun '(v, r) => (set_month v f, r)) (alt_name full_months s)
  | Dlit c => match s with
              | x :: r => if eqc x c then [(f, r)] else []
              | [] => []
              end
  | Dws => map (fun r => (f, r)) (alt_ws s)
  end.

Fixpoint first_some {A B} (k : A -> option B) (l : list A) : option B :=
  match l with
  | [] => None
  | a :: l' => match k a with Some b => Some b | None => first_some k l' end
  end.

(** [format_regex.match(data_string)]: the first match of the backtracking
    search, with what it leaves unread. *)
Fixpoint regex_match (fmt : list directive) (f : fields) (s : str)
  : option (fields * str) :=
  match fmt with
  | [] => Some (f, s)
  | d :: fmt' =>
      first_some (fun '(f', r) => regex_match fmt' f' r) (alternatives d f s)
  end.

(** [datetime.strptime(s, fmt).date()]; [None] is its [ValueError]. *)
Definition strptime (s : str) (fmt : list directive) : option date :=
  match regex_match fmt (mkfields 1900 1 1) s with
  | Some (f, []) =>
      if valid_date (f_year f) (f_month f) (f_day f)
      then Some (mkdate (f_year f) (f_month f) (f_day f)) else None
  | _ => None
  end.

Definition sep (a : ascii) : directive := Dlit (ch a).

(** The list of line 183. *)
Definition literal_formats : list (list directive) :=
  [ [Dd; sep "/"; Dm; sep "/"; DY];
    [Dm; sep "/"; Dd; sep "/"; DY];
    [DY; sep "-"; Dm; sep "-"; Dd];
    [Dd; sep "-"; Db; sep "-"; DY];
    [Dd; sep "-"; DB; sep "-"; DY];
    [Db; Dws; DY];
    [DB; Dws; DY];
    [Dd; sep "-"; Db; sep "-"; Dy];
    [Dd; sep "-"; DB; sep "-"; Dy] ].

Definition is_ValueError (e : exn) : bool :=
  match e with
  | ValueError_NaN | ValueError_InvalidAmount | ValueError_InvalidDate
  | ValueError_Range => true
  | _ => false
  end.

Section ParseDate.

(** [pd.to_datetime(s, errors="raise").date()], the permissive parser of the
    pandas library. *)
Variable pd_to_datetime : str -> result date.

Definition fallback (s : str) : result date :=
  match pd_to_datetime s with
  | Ok d => Ok d
  | Raise e =>
      if is_ValueError e then Raise ValueError_InvalidDate
      else match e with
           | TypeError => Raise ValueError_InvalidDate
           | _ => Raise e
           end
  end.

Definition parse_date (value : RawCell) : result date :=
  if isna value then Raise ValueError_NaN
  else
    let s := strip (str_of value) in
    match match_serial s with
    | Some (ip, fr) => serial_date (float_of_serial ip fr)
    | None =>
        match match_quarter_short s with
        | Some (q, yr) =>
            let yr := if yr <? 100 then yr + 2000 else yr in
            match quarter_month q with
            | None => Raise KeyError
            | Some month => make_date yr month 1
            end
        | None =>
            match match_quarter_long s with
            | Some (q, yr) =>
                match quarter_month q with
                | None => Raise KeyError
                | Some month => make_date yr month 1
                end
            | None =>
                match first_some (strptime s) literal_formats with
                | Some d => Ok d
                | None => fallback s
                end
            end
        end
    end.

End ParseDate.

End FormatParser.

(** ** [TypeDetector] *)

Module TypeDetector.

Import Float FormatParser.

Inductive dtype : Type :=
| Str       (* "str" *)
| Number    (* "number" *)
| Datetime. (* "datetime" *)

(** The literals [0.6], [0.95], [1.0] and [0.0] as doubles. *)
Definition MIN_CONFIDENCE : double := round_ratio 6 10.
Definition date_threshold : double := round_ratio 95 100.
Definition one : double := round_ratio 1 1.
Definition zero : double := round_ratio 0 1.

Definition COMMON_DATE_FORMATS : list string :=
  ["%Y-%m-%d"; "%Y-%m-%d %H:%M:%S"; "%Y-%m-%d %H:%M";
   "%d/%m/%Y"; "%d/%m/%Y %H:%M:%S"; "%d/%m/%Y %H:%M";
   "%d.%m.%Y"; "%d.%m.%Y %H:%M:%S"; "%d %b %Y"; "%d %B %Y";
   "%m/%d/%Y"; "%m/%d/%Y %H:%M:%S"; "%m/%d/%Y %H:%M";
   "%m-%d-%Y"; "%b %d, %Y"; "%B %d, %Y";
   "%Y%m%d"; "%d%m%Y"; "%m%d%Y";
   "Q%q-%y"; "Quarter %q %Y"; "%b-%Y"; "%B %Y";
   "%H:%M:%S"; "%H:%M"]%string.

(** [series.dropna()] *)
Definition dropna (series : list RawCell) : list RawCell :=
  filter (fun v => negb (isna v)) series.

(** [re.sub(r"(\d)-$", r"-\1", s)] on a subject without line breaks. *)
Definition move_trailing_minus (s : str) : str :=
  match rev s with
  | m :: d :: r =>
      if eqc m (ch "-") && isdigit d then rev r ++ [ch "-"; d] else s
  | _ => s
  end.

(** Lines 123-131 of [_try_number]. *)
Definition number_clean (s : str) : str :=
  let s := filter (fun c => negb (is_currency_or_comma c)) s in
  let s := filter (fun c => negb (isspace c)) s in
  let s := unparen [ch "-"] None s in
  move_trailing_minus s.

(** [pattern.match(x)] for the pattern [^(G1)(G2)$] with [G1] the number
    [[+-]?\d+\.?\d*] and [G2] the letter [[KkMmBb]], on a subject without
    line breaks. *)
Definition match_abbreviated (x : str) : bool :=
  let body :=
    match x with
    | c :: r => if in_class "+-" c then r else x
    | [] => []
    end in
  match takewhile isdigit body with
  | [] => false
  | _ :: _ =>
      let r := dropwhile isdigit body in
      let r := match r with
               | c :: r' => if eqc c (ch ".") then r' else r
               | [] => []
               end in
      match dropwhile isdigit r with
      | [l] => in_class "KkMmBb" l
      | _ => false
      end
  end.

(** The local function [parse]. *)
Definition parse (x : str) : bool :=
  if match_abbreviated x then true
  else match of_str x with
       | Some _ => true
       | None => false
       end.

Definition _try_number (s : list RawCell) : bool * double :=
  let cleaned := map (fun v => number_clean (str_of v)) s in
  let success_mask := map parse cleaned in
  let conf := mean success_mask in
  (leb MIN_CONFIDENCE conf, conf).

Section Detect.

(** The pandas calls of [_try_datetime].  Each success rate is
    [converted.notnull().mean()], or [None] when the call raises. *)

(** [is_numeric_dtype(s) and s.min() > 1000 and s.max() < 1000000] *)
Variable numeric_in_serial_window : list RawCell -> bool.
(** [pd.to_datetime(s, unit='D', origin='1899-12-30', errors='coerce')] *)
Variable serial_success_rate : list RawCell -> option double.
(** [pd.to_datetime(s_str, format=fmt, errors='coerce')] *)
Variable format_success_rate : string -> list str -> option double.
(** [pd.to_datetime(s_str, errors='coerce')] *)
Variable generic_success_rate : list str -> option double.

(** The loop of lines 96-104: [inl rate] is the early return. *)
Fixpoint try_formats (fmts : list string) (s_str : list str)
  (max_success : double) : double + double :=
  match fmts with
  | [] => inr max_success
  | fmt :: rest =>
      match format_success_rate fmt s_str with
      | Some success_rate =>
          if leb date_threshold success_rate then inl success_rate
          else try_formats rest s_str (max max_success success_rate)
      | None => try_formats rest s_str max_success
      end
  end.

Definition after_serial (s : list RawCell) : bool * double :=
  let s_str := map str_of s in
  match try_formats COMMON_DATE_FORMATS s_str zero with
  | inl success_rate => (true, success_rate)
  | inr max_success =>
      match generic_success_rate s_str with
      | Some success_rate =>
          if leb date_threshold success_rate then (true, success_rate)
          else (false, max max_success success_rate)
      | None => (false, max_success)
      end
  end.

Definition _try_datetime (s : list RawCell) : bool * double :=
  if numeric_in_serial_window s then
    match serial_success_rate s with
    | Some success_rate =>
        if leb date_threshold success_rate then (true, success_rate)
        else after_serial s
    | None => after_serial s
    end
  else after_serial s.

Definition detect (series : list RawCell) : dtype * double :=
  let s := dropna series in
  match s with
  | [] => (Str, one)
  | _ =>
      let '(dt_succ, dt_conf) := _try_datetime s in
      if dt_succ then (Datetime, dt_conf)
      else
        let '(num_succ, num_conf) := _try_number s in
        if num_succ then (Number, num_conf) else (Str, one)
  end.

End Detect.

End TypeDetector.

(** * The input forms the specification names *)

Module Forms.

Definition is_digit (c : char) : Prop := isdigit c = true.
Definition is_space (c : char) : Prop := isspace c = true.

(** An optional sign in front of a number. *)
Inductive sign_prefix : str -> bool -> Prop :=
| sign_none : sign_prefix [] false
| sign_plus : sign_prefix [ch "+"] false
| sign_minus : sign_prefix [ch "-"] true.

(** [<number>]: digits, with an optional sign in front and optionally a
    decimal point and more digits behind: the text, whether it is negative,
    and the digits before and after the point. *)
Inductive numeral : str -> bool -> str -> str -> Prop :=
| numeral_whole sgn neg ip :
    sign_prefix sgn neg -> ip <> [] -> Forall is_digit ip ->
    numeral (sgn ++ ip) neg ip []
| numeral_point sgn neg ip fp :
    sign_prefix sgn neg -> ip <> [] -> Forall is_digit ip ->
    fp <> [] -> Forall is_digit fp ->
    numeral (sgn ++ ip ++ ch "." :: fp) neg ip fp.


(** [Q<digit>], any number of '-' and ' ', and a year of two to four
    digits: the text, the quarter and the digits of the year. *)
Inductive short_quarter : str -> N -> str -> Prop :=
| short_quarter_intro qch d seps yr q :
    qch = ch "Q" \/ qch = ch "q" ->
    digit_value d = Some q ->
    Forall (fun c => c = ch "-" \/ c = ch " ") seps ->
    Forall is_digit yr ->
    (2 <= List.length yr <= 4)%nat ->
    short_quarter (qch :: d :: seps ++ yr) q yr.

(** [Quarter <digit> <4-digit-year>], in any letter case, the three parts
    set apart by whitespace. *)
Inductive long_quarter : str -> N -> str -> Prop :=
| long_quarter_intro w ws1 d ws2 yr q :
    map ascii_lower w = lit "quarter" ->
    ws1 <> [] -> Forall is_space ws1 ->
    digit_value d = Some q ->
    ws2 <> [] -> Forall is_space ws2 ->
    Forall is_digit yr ->
    List.length yr = 4%nat ->
    long_quarter (w ++ ws1 ++ d :: ws2 ++ yr) q yr.

(** A run of digits, optionally followed by a point and more digits: the
    text, the digits of the whole part and those of the fraction. *)
Inductive serial_text : str -> str -> str -> Prop :=
| serial_whole ip :
    ip <> [] -> Forall is_digit ip -> serial_text ip ip []
| serial_fraction ip fr :
    ip <> [] -> Forall is_digit ip -> fr <> [] -> Forall is_digit fr ->
    serial_text (ip ++ ch "." :: fr) ip fr.

(** Month in which quarter [q] starts. *)
Definition quarter_start_month (q : N) : Z := 3 * (Z.of_N q - 1) + 1.

(** [s] with its dots and commas taken out. *)
Definition no_separators (s : str) : str :=
  filter (fun c => negb (eqc c (ch ".") || eqc c (ch ","))) s.

Definition is_separator (c : char) : Prop := c = ch "." \/ c = ch ",".

(** The three surface forms of a negative amount, in the order in which
    they are looked for, and the default: the text, its sign, and what is
    left of the text once the marks of the sign are taken off and the
    whitespace they leave is trimmed. *)
Inductive sign_form : str -> Z -> str -> Prop :=
| form_parentheses m :
    sign_form (ch "(" :: m ++ [ch ")"]) (-1) (strip m)
| form_trailing_minus m :
    sign_form (m ++ [ch "-"]) (-1) (strip m)
| form_leading_minus m :
    endswith (ch "-") (ch "-" :: m) = false ->
    sign_form (ch "-" :: m) (-1) (strip m)
| form_unsigned s :
    startswith (ch "(") s && endswith (ch ")") s = false ->
    endswith (ch "-") s = false ->
    startswith (ch "-") s = false ->
    sign_form s 1 s.

End Forms.

(** * Views of the code used to state further properties *)

Module Views.

Import FormatParser.

(** What [parse_amount_vectorized] makes of one cell taken on its own: the
    steps of the source in the order in which a single cell meets them. *)
Definition batch_cell (v : RawCell) : result (option decimal) :=
  let stripped := strip (str_of v) in
  let cleaned := batch_clean stripped in
  x <- (if suffix_mask cleaned
        then process_suffix (extract_suffix [] cleaned)
        else Ok (process_standard cleaned)) ;;
  y <- apply_sign x (batch_sign stripped) ;;
  Ok (keep_notna y).

(** A dot, a comma or a minus sign: what [keep_amount_chars] leaves of a
    text besides its digits. *)
Definition is_mark (c : char) : Prop := in_class ".,-" c = true.

(** The decimal with its sign turned, a NaN left as it is: what a product
    by -1 makes of the product by 1. *)
Definition negate (d : decimal) : decimal :=
  match d with
  | Fin neg c e => Fin (negb neg) c e
  | Inf neg => Inf (negb neg)
  | NaN _ _ _ => d
  end.

Definition map_result {A B} (f : A -> B) (r : result A) : result B :=
  match r with
  | Ok a => Ok (f a)
  | Raise e => Raise e
  end.

(** The currency signs that [parse_amount_vectorized] takes out of a cell. *)
Definition currency_sign (c : char) : Prop := In c (lit "€$₹£¥").

(** What may stand in front of a US-format amount: currency signs and
    whitespace. *)
Definition lead (c : char) : Prop := currency_sign c \/ isspace c = true.

(** The characters of a whole part with its groups: digits and commas. *)
Definition grouped (c : char) : Prop := isdigit c = true \/ c = ch ",".

(** The ASCII digit of [k], and a number written with two and with four
    digits, zeros in front. *)
Definition digit_char (k : Z) : char := Z.to_N (48 + k).

Definition two_digits (n : Z) : str :=
  [digit_char (n / 10); digit_char (n mod 10)].

Definition four_digits (n : Z) : str :=
  two_digits (n / 100) ++ two_digits (n mod 100).

(** The texts "aa/bb/yyyy" and "yyyy-mm-dd". *)
Definition slash_date (a b y : Z) : str :=
  two_digits a ++ ch "/" :: two_digits b ++ ch "/" :: four_digits y.

Definition iso_date (y m d : Z) : str :=
  four_digits y ++ ch "-" :: two_digits m ++ ch "-" :: two_digits d.

(** [d.is_finite()] *)
Definition is_finite (d : decimal) : bool :=
  match d with Fin _ _ _ => true | _ => false end.

(** The characters of a number as [Decimal] reads it, exponents apart. *)
Definition numeric (c : char) : Prop :=
  isdigit c = true \/ in_class "+-.," c = true.

(** The names of the months as they are usually written, short and long,
    each with its number. *)
Definition short_names : list (string * Z) :=
  [("Jan", 1); ("Feb", 2); ("Mar", 3); ("Apr", 4); ("May", 5); ("Jun", 6);
   ("Jul", 7); ("Aug", 8); ("Sep", 9); ("Oct", 10); ("Nov", 11);
   ("Dec", 12)]%string.

Definition long_names : list (string * Z) :=
  [("January", 1); ("February", 2); ("March", 3); ("April", 4); ("May", 5);
   ("June", 6); ("July", 7); ("August", 8); ("September", 9);
   ("October", 10); ("November", 11); ("December", 12)]%string.

(** The text "dd-Month-" followed by the digits of a year. *)
Definition day_month_year (d : Z) (w : string) (yr : str) : str :=
  two_digits d ++ ch "-" :: lit w ++ ch "-" :: yr.

(** The century that [%y] gives a year of two digits. *)
Definition pivot_year (yy : Z) : Z := if yy <=? 68 then yy + 2000 else yy + 1900.

(** The text "Month yyyy", the two set apart by the whitespace [sp]. *)
Definition month_year (w : string) (sp : str) (y : Z) : str :=
  lit w ++ sp ++ four_digits y.

End Views.

(** * [ExcelProcessor] *)

Module ExcelProcessor.

(** A Python [dict] with [str] keys: its items in insertion order. *)
Definition dict (V : Type) : Type := list (string * V).

(** [d[k]] where [k in d]; [None] where it is not. *)
Fixpoint dict_get {V} (k : string) (d : dict V) : option V :=
  match d with
  | [] => None
  | (k', v) :: d' => if String.eqb k' k then Some v else dict_get k d'
  end.

(** [d[k] = v]: a key that is there keeps its place. *)
Fixpoint dict_set {V} (k : string) (v : V) (d : dict V) : dict V :=
  match d with
  | [] => [(k, v)]
  | (k', v') :: d' =>
      if String.eqb k' k then (k', v) :: d' else (k', v') :: dict_set k v d'
  end.

Section Processor.

(** The file system and pandas: [os.path.isfile(path)], [pd.ExcelFile(path)],
    [xls.sheet_names] and [xls.parse(sheet_name=sheet)], the last two with
    what they raise.  A frame is a value: [df.copy()] is the frame. *)
Variables ExcelFile DataFrame pandas_exn : Type.
Variable isfile : string -> bool.
Variable open_workbook : string -> pandas_exn + ExcelFile.
Variable sheet_names : ExcelFile -> list string.
Variable parse_sheet : ExcelFile -> string -> pandas_exn + DataFrame.

Inductive error : Type :=
| FileNotFoundError (path : string)
| ValueError_file_not_loaded (path : string)
| ValueError_sheet_not_found (sheet : string)
| Pandas (e : pandas_exn).

(** The two attributes of an [ExcelProcessor]. *)
Record processor : Type := mk {
  _workbooks : dict ExcelFile;
  full_data : dict (dict DataFrame) }.

(** [__init__] *)
Definition init : processor := mk [] [].

(** The loop of lines 19-20.  [sheets] is the dict that
    [self.full_data[path]] holds: each turn changes that object, so the
    processor has the sheets parsed so far when [xls.parse] raises. *)
Fixpoint load_sheets (xls : ExcelFile) (path : string) (names : list string)
  (sheets : dict DataFrame) (self : processor) : processor * option error :=
  match names with
  | [] => (self, None)
  | sheet :: rest =>
      match parse_sheet xls sheet with
      | inl e => (self, Some (Pandas e))
      | inr df =>
          let sheets := dict_set sheet df sheets in
          load_sheets xls path rest sheets
            (mk (_workbooks self) (dict_set path sheets (full_data self)))
      end
  end.

(** One turn of the loop of line 13. *)
Definition load_file (path : string) (self : processor)
  : processor * option error :=
  if negb (isfile path) then (self, Some (FileNotFoundError path))
  else
    match open_workbook path with
    | inl e => (self, Some (Pandas e))
    | inr xls =>
        load_sheets xls path (sheet_names xls) []
          (mk (dict_set path xls (_workbooks self))
              (dict_set path [] (full_data self)))
    end.

(** [load_files]: the processor it leaves, and the exception if it raised. *)
Fixpoint load_files (file_paths : list string) (self : processor)
  : processor * option error :=
  match file_paths with
  | [] => (self, None)
  | path :: rest =>
      match load_file path self with
      | (self, None) => load_files rest self
      | (self, Some e) => (self, Some e)
      end
  end.

Definition get_full_data (self : processor) (file_path sheet_name : string)
  : error + DataFrame :=
  match dict_get file_path (full_data self) with
  | None => inl (ValueError_file_not_loaded file_path)
  | Some sheets =>
      match dict_get sheet_name sheets with
      | None => inl (ValueError_sheet_not_found sheet_name)
      | Some df => inr df
      end
  end.

End Processor.

End ExcelProcessor.

(** * Properties *)

Import Float Calendar FormatParser TypeDetector Forms Views.

(** ** Claims settled by running the code *)

(** C1.  The batch form is not the scalar form applied cell by cell: on the
    one-cell column ["€1.234,56"] the scalar parser reads the comma as the
    decimal point and returns 1234.56, while the batch parser deletes every
    comma before it looks at the separators and returns 1.23456; and on the
    one-cell column ["Bank"] the batch call raises as a whole. *)
Theorem C1_batch_differs_from_scalar :
  parse_amount (CText (lit "€1.234,56")) = Ok (Fin false 123456 (-2))
  /\ parse_amount_vectorized [CText (lit "€1.234,56")]
     = Ok [Some (Fin false 123456 (-5))]
  /\ Dec.eqb (Fin false 123456 (-2)) (Fin false 123456 (-5)) = false
  /\ parse_amount (CText (lit "Bank")) = Raise ValueError_InvalidAmount
  /\ parse_amount_vectorized [CText (lit "Bank")] = Raise AttributeError.
Proof. repeat split; vm_compute; reflexivity. Qed.

(** C3.  With commas only and a last group of one or two digits, the code
    turns the first comma, not the last, into the decimal point: the input
    "1,234,56" parses to 1.23456, not to 1234.56.  With a single comma the
    two coincide ("1234,56" is 1234.56), and without such a last group every
    comma is dropped ("1,234,567" is 1234567). *)
Theorem C3_first_comma_becomes_point :
  parse_amount (CText (lit "1,234,56")) = Ok (Fin false 123456 (-5))
  /\ Dec.eqb (Fin false 123456 (-5)) (Fin false 123456 (-2)) = false
  /\ parse_amount (CText (lit "1234,56")) = Ok (Fin false 123456 (-2))
  /\ parse_amount (CText (lit "1,234,567")) = Ok (Fin false 1234567 0).
Proof. repeat split; vm_compute; reflexivity. Qed.

(** C8.  The trailing-minus rewrite moves the minus sign in front of the
    last digit only: "1234-" is cleaned to "123-4", which is no decimal, so
    the one-cell column ["1234-"] gets confidence 0.0 and is not numeric.
    A parenthesised value and a one-digit trailing minus do come out as
    negatives, and a K suffix counts as numeric. *)
Theorem C8_trailing_minus_misplaced :
  number_clean (lit "1234-") = lit "123-4"
  /\ parse (number_clean (lit "1234-")) = false
  /\ _try_number [CText (lit "1234-")] = (false, zero)
  /\ number_clean (lit "(1234)") = lit "-1234"
  /\ number_clean (lit "7-") = lit "-7"
  /\ _try_number [CText (lit "$1,234.50"); CText (lit "1.2K"); CText (lit "n/a")]
     = (true, round_ratio 2 3).
Proof. repeat split; vm_compute; reflexivity. Qed.

(** ** All-null columns *)

(** C9.  A column made of nulls only, the empty column included, is detected
    as text with confidence 1.0, whatever the date conversions would say. *)
Theorem C9_all_null_is_text :
  forall numeric_in_serial_window serial_success_rate format_success_rate
         generic_success_rate (series : list RawCell),
    Forall (fun v => isna v = true) series ->
    detect numeric_in_serial_window serial_success_rate format_success_rate
           generic_success_rate series = (Str, one)
    /\ exists q, Float.to_Q one = Some q /\ (q == 1)%Q.
Proof.
  intros nw ssr fsr gsr series Hnull.
  split.
  - unfold detect.
    assert (Hdrop : dropna series = []).
    { unfold dropna. induction Hnull as [|v l Hv _ IH]; simpl.
      - reflexivity.
      - rewrite Hv. simpl. exact IH. }
    rewrite Hdrop. reflexivity.
  - eexists. split; [reflexivity|]. vm_compute. reflexivity.
Qed.

Lemma C9_all_null_is_text_witness :
  detect (fun _ => true) (fun _ => Some one) (fun _ _ => Some one)
         (fun _ => Some one) [CNone; CNaN; CNone] = (Str, one)
  /\ exists q, Float.to_Q one = Some q /\ (q == 1)%Q.
Proof.
  apply (C9_all_null_is_text (fun _ => true) (fun _ => Some one)
           (fun _ _ => Some one) (fun _ => Some one) [CNone; CNaN; CNone]).
  repeat constructor.
Defined.

(** ** Characters *)

Lemma eqc_eq (a b : char) : eqc a b = true <-> a = b.
Proof. unfold eqc. apply N.eqb_eq. Qed.

Lemma eqc_refl (a : char) : eqc a a = true.
Proof. apply eqc_eq. reflexivity. Qed.

Lemma eqc_neq (a b : char) : a <> b -> eqc a b = false.
Proof. unfold eqc. apply N.eqb_neq. Qed.

Lemma digit_in_lt10 (zs : list N) (c : char) (d : N) :
  digit_in zs c = Some d -> (d < 10)%N.
Proof.
  induction zs as [|z zs IH]; simpl; [discriminate|].
  destruct ((z <=? c) && (c <? z + 10))%N eqn:E.
  - intros [= <-].
    apply andb_true_iff in E as [E1 E2].
    apply N.leb_le in E1. apply N.ltb_lt in E2. lia.
  - exact IH.
Qed.

Lemma digit_value_lt10 (c : char) (d : N) :
  digit_value c = Some d -> (d < 10)%N.
Proof. apply digit_in_lt10. Qed.

Lemma isdigit_value (c : char) :
  isdigit c = true -> exists d, digit_value c = Some d /\ (d < 10)%N.
Proof.
  unfold isdigit. destruct (digit_value c) as [d|] eqn:E; [|discriminate].
  intros _. exists d. split; [reflexivity|]. eapply digit_value_lt10; eauto.
Qed.

Lemma digit_value_isdigit (c : char) (d : N) :
  digit_value c = Some d -> isdigit c = true.
Proof. unfold isdigit. intros ->. reflexivity. Qed.

(** The whitespace characters, one by one. *)
Lemma isspace_enum (c : char) :
  isspace c = true ->
  In c [9; 10; 11; 12; 13; 28; 29; 30; 31; 32; 133; 160; 5760; 8192; 8193;
        8194; 8195; 8196; 8197; 8198; 8199; 8200; 8201; 8202; 8232; 8233;
        8239; 8287; 12288]%N.
Proof.
  unfold isspace. intros H.
  repeat (apply orb_true_iff in H as [H|H]);
    repeat match goal with
           | H : (_ && _)%bool = true |- _ => apply andb_true_iff in H as [? ?]
           | H : (_ <=? _)%N = true |- _ => apply N.leb_le in H
           | H : (_ =? _)%N = true |- _ => apply N.eqb_eq in H
           end;
    simpl; lia.
Qed.

Lemma isdigit_not_space (c : char) : isdigit c = true -> isspace c = false.
Proof.
  intros Hd. destruct (isspace c) eqn:Hs; [|reflexivity].
  apply isspace_enum in Hs. simpl in Hs.
  repeat (destruct Hs as [<-|Hs]; [vm_compute in Hd; discriminate|]).
  contradiction.
Qed.

(** A digit is none of the ASCII punctuation marks and letters the parsers
    look for. *)
Lemma isdigit_not_in (cls : string) (c : char) :
  forallb (fun x => negb (isdigit x)) (lit cls) = true ->
  isdigit c = true -> in_class cls c = false.
Proof.
  unfold in_class. intros Hcls Hd.
  induction (lit cls) as [|x l IH]; simpl in *; [reflexivity|].
  apply andb_true_iff in Hcls as [Hx Hl].
  rewrite (IH Hl), orb_false_r.
  destruct (eqc c x) eqn:E; [|reflexivity].
  apply eqc_eq in E. subst x. rewrite Hd in Hx. discriminate.
Qed.

Lemma ascii_upper_Q (c : char) :
  eqc (ascii_upper c) (ch "Q") = true <-> c = ch "Q" \/ c = ch "q".
Proof.
  unfold ascii_upper, eqc. change (ch "Q") with 81%N. change (ch "q") with 113%N.
  destruct ((97 <=? c) && (c <=? 122))%N eqn:E.
  - apply andb_true_iff in E as [E1 E2].
    apply N.leb_le in E1. apply N.leb_le in E2.
    rewrite N.eqb_eq. lia.
  - rewrite N.eqb_eq. split; [intros ->; now left|].
    intros [->| ->]; [reflexivity|]. vm_compute in E. discriminate.
Qed.

(** ** Lists of characters *)

Lemma takewhile_app (p : char -> bool) (a b : str) :
  Forall (fun c => p c = true) a ->
  match b with [] => True | c :: _ => p c = false end ->
  takewhile p (a ++ b) = a /\ dropwhile p (a ++ b) = b.
Proof.
  intros Ha Hb. induction Ha as [|x a Hx _ IH]; simpl.
  - destruct b as [|c b]; simpl; [auto|]. rewrite Hb. auto.
  - rewrite Hx. destruct IH as [-> ->]. auto.
Qed.

Lemma takewhile_all (p : char -> bool) (a : str) :
  Forall (fun c => p c = true) a ->
  takewhile p a = a /\ dropwhile p a = [].
Proof.
  intros Ha. pose proof (takewhile_app p a [] Ha I) as H.
  rewrite app_nil_r in H. exact H.
Qed.

Lemma dropwhile_id (p : char -> bool) (s : str) :
  match s with [] => True | c :: _ => p c = false end -> dropwhile p s = s.
Proof. destruct s as [|c s]; simpl; [auto|]. intros ->. reflexivity. Qed.

Lemma Forall_rev_iff {A} (P : A -> Prop) (l : list A) :
  Forall P l -> Forall P (rev l).
Proof. intros H. apply Forall_forall. intros x Hx.
       apply in_rev in Hx. eapply Forall_forall in H; eauto. Qed.

(** A text without whitespace at either end is its own [strip]. *)
Lemma strip_id (s : str) :
  match s with [] => True | c :: _ => isspace c = false end ->
  match rev s with [] => True | c :: _ => isspace c = false end ->
  strip s = s.
Proof.
  intros H1 H2. unfold strip, rstrip, lstrip.
  rewrite (dropwhile_id _ s H1), (dropwhile_id _ (rev s) H2).
  apply rev_involutive.
Qed.

Lemma filter_id {A} (p : A -> bool) (l : list A) :
  Forall (fun x => p x = true) l -> filter p l = l.
Proof.
  induction 1 as [|x l Hx _ IH]; simpl; [reflexivity|].
  rewrite Hx, IH. reflexivity.
Qed.

Lemma endswith_snoc (c d : char) (s : str) : endswith c (s ++ [d]) = eqc d c.
Proof. unfold endswith. rewrite rev_app_distr. reflexivity. Qed.

Lemma contains_In (c : char) (s : str) : contains c s = true <-> In c s.
Proof.
  unfold contains. rewrite existsb_exists. split.
  - intros [x [Hx E]]. apply eqc_eq in E. subst. exact Hx.
  - intros H. exists c. split; [exact H|apply eqc_refl].
Qed.

Lemma contains_false (c : char) (s : str) : contains c s = false <-> ~ In c s.
Proof.
  rewrite <- contains_In. destruct (contains c s); split; intros H;
    try reflexivity; try discriminate; try (intros E; discriminate).
  exfalso. apply H. reflexivity.
Qed.

Lemma remove_notin (c : char) (s : str) : ~ In c s -> remove c s = s.
Proof.
  intros H. unfold remove. apply filter_id. apply Forall_forall.
  intros x Hx. apply negb_true_iff. apply eqc_neq. intros ->. auto.
Qed.

Lemma remove_app (c : char) (a b : str) :
  remove c (a ++ b) = remove c a ++ remove c b.
Proof. unfold remove. apply filter_app. Qed.

Lemma remove_notin_result (c : char) (s : str) : ~ In c (remove c s).
Proof.
  unfold remove. intros H. apply filter_In in H as [_ H].
  rewrite eqc_refl in H. discriminate.
Qed.

(** ** Quarter notation *)

Lemma quarter_month_none (q : N) :
  ~ (1 <= q <= 4)%N -> quarter_month q = None.
Proof.
  intros H. destruct q as [|p]; [reflexivity|].
  do 3 (try destruct p as [p|p|]); try reflexivity; exfalso; apply H; lia.
Qed.

Lemma quarter_month_some (q : N) :
  (1 <= q <= 4)%N -> quarter_month q = Some (quarter_start_month q).
Proof.
  intros H.
  assert (E : q = 1%N \/ q = 2%N \/ q = 3%N \/ q = 4%N) by lia.
  destruct E as [->|[->|[->| ->]]]; reflexivity.
Qed.

Lemma Forall_forallb (p : char -> bool) (s : str) :
  Forall (fun c => p c = true) s -> forallb p s = true.
Proof. intros H. apply forallb_forall. apply Forall_forall. exact H. Qed.

Lemma digits_acc_bound (s : str) : forall acc : N,
  Forall is_digit s ->
  Z.of_N (fold_left (fun a c => match digit_value c with
                                | Some d => (a * 10 + d)%N
                                | None => a
                                end) s acc)
  < (Z.of_N acc + 1) * 10 ^ Z.of_nat (List.length s).
Proof.
  induction s as [|c s IH]; intros acc Hs.
  - simpl. lia.
  - inversion Hs as [|? ? Hc Hs']; subst.
    apply isdigit_value in Hc as [d [Hd Hlt]].
    cbn [fold_left List.length]. rewrite Hd.
    specialize (IH (acc * 10 + d)%N Hs').
    rewrite Nat2Z.inj_succ, Z.pow_succ_r by lia.
    assert (0 < 10 ^ Z.of_nat (List.length s)) by (apply Z.pow_pos_nonneg; lia).
    nia.
Qed.

(** A run of [n] digits reads as a number below [10^n]. *)
Lemma digits_value_bound (s : str) :
  Forall is_digit s ->
  Z.of_N (digits_value s) < 10 ^ Z.of_nat (List.length s).
Proof.
  intros Hs. pose proof (digits_acc_bound s 0%N Hs) as H.
  change (Z.of_N 0 + 1) with 1 in H. rewrite Z.mul_1_l in H. exact H.
Qed.

Lemma serial_rejects_letter (c : char) (r : str) :
  isdigit c = false -> match_serial (c :: r) = None.
Proof. intros H. unfold match_serial. simpl. rewrite H. reflexivity. Qed.

Lemma short_quarter_matches (s : str) (q : N) (yr : str) :
  short_quarter s q yr ->
  match_serial s = None
  /\ match_quarter_short s = Some (q, Z.of_N (digits_value yr)).
Proof.
  intros H. destruct H as [qch d seps yr q Hq Hd Hseps Hyr Hlen].
  split.
  - apply serial_rejects_letter.
    destruct Hq as [-> | ->]; vm_compute; reflexivity.
  - unfold match_quarter_short.
    apply ascii_upper_Q in Hq. rewrite Hq, Hd.
    assert (Hdrop : dropwhile (in_class "- ") (seps ++ yr) = yr).
    { apply takewhile_app.
      - eapply Forall_impl; [|exact Hseps].
        intros c [-> | ->]; vm_compute; reflexivity.
      - destruct yr as [|y yr']; [exact I|].
        inversion Hyr; subst.
        apply isdigit_not_in; [vm_compute; reflexivity|assumption]. }
    rewrite Hdrop, (Forall_forallb _ _ Hyr).
    unfold len_between.
    destruct Hlen as [H2 H4].
    apply Nat.leb_le in H2. apply Nat.leb_le in H4.
    rewrite H2, H4. reflexivity.
Qed.

Lemma ascii_lower_not_digit (c : char) (l : ascii) :
  ascii_lower c = ch l -> isdigit (ch l) = false ->
  isdigit (N.sub (ch l) 32) = false -> isdigit c = false.
Proof.
  unfold ascii_lower. intros E H1 H2.
  destruct ((65 <=? c) && (c <=? 90))%N.
  - assert (c = (ch l - 32)%N) by lia. subst c. exact H2.
  - subst c. exact H1.
Qed.

Lemma match_word_prefix (w p rest : str) :
  map ascii_lower p = map ascii_lower w ->
  match_word w (p ++ rest) = Some rest.
Proof.
  revert p. induction w as [|a w IH]; intros [|c p] E; simpl in *;
    try discriminate; [reflexivity|].
  injection E as E1 E2.
  rewrite <- E1, eqc_refl. apply IH. exact E2.
Qed.

Lemma long_quarter_matches (s : str) (q : N) (yr : str) :
  long_quarter s q yr ->
  match_serial s = None
  /\ match_quarter_short s = None
  /\ match_quarter_long s = Some (q, Z.of_N (digits_value yr)).
Proof.
  intros H. destruct H as [w ws1 d ws2 yr q Hw H1 Hws1 Hd H2 Hws2 Hyr Hlen].
  assert (Hshape : exists c1 c2 w', w = c1 :: c2 :: w'
                     /\ ascii_lower c1 = ch "q" /\ ascii_lower c2 = ch "u").
  { destruct w as [|c1 [|c2 w']]; try discriminate.
    exists c1, c2, w'. injection Hw as E1 E2 _. auto. }
  destruct Hshape as [c1 [c2 [w' [Ew [Ec1 Ec2]]]]].
  repeat split.
  - rewrite Ew. apply serial_rejects_letter.
    eapply ascii_lower_not_digit; [exact Ec1| |]; vm_compute; reflexivity.
  - rewrite Ew. unfold match_quarter_short. cbn [app].
    destruct (eqc (ascii_upper c1) (ch "Q")); [|reflexivity].
    assert (Hc2 : isdigit c2 = false).
    { eapply ascii_lower_not_digit; [exact Ec2| |]; vm_compute; reflexivity. }
    unfold isdigit in Hc2. destruct (digit_value c2); [discriminate|reflexivity].
  - unfold match_quarter_long.
    rewrite (match_word_prefix (lit "Quarter") w); [|rewrite Hw; reflexivity].
    destruct ws1 as [|a ws1']; [contradiction|].
    inversion Hws1 as [|? ? Ha Hws1']; subst.
    cbn [app]. unfold is_space in Ha. rewrite Ha.
    assert (Hdrop1 : dropwhile isspace (a :: ws1' ++ d :: ws2 ++ yr)
                     = d :: ws2 ++ yr).
    { change (a :: ws1' ++ d :: ws2 ++ yr) with ((a :: ws1') ++ d :: ws2 ++ yr).
      apply takewhile_app; [exact Hws1|].
      apply isdigit_not_space. eapply digit_value_isdigit; eauto. }
    rewrite Hdrop1, Hd.
    destruct ws2 as [|b ws2']; [contradiction|].
    inversion Hws2 as [|? ? Hb Hws2']; subst.
    cbn [app]. unfold is_space in Hb. rewrite Hb.
    assert (Hdrop2 : dropwhile isspace (b :: ws2' ++ yr) = yr).
    { change (b :: ws2' ++ yr) with ((b :: ws2') ++ yr).
      apply takewhile_app; [exact Hws2|].
      destruct yr as [|y yr']; [exact I|].
      inversion Hyr; subst. apply isdigit_not_space. assumption. }
    rewrite Hdrop2, (Forall_forallb _ _ Hyr).
    unfold len_between. rewrite Hlen. reflexivity.
Qed.

(** C10.  A quarter notation whose quarter digit is not 1, 2, 3 or 4 makes
    [parse_date] raise [KeyError] from the quarter-to-month lookup, whatever
    the later rules and the permissive parser would have made of the text;
    "Q5-24" and "Quarter 7 2024" are two such inputs. *)
Theorem C10_quarter_digit_out_of_range_is_KeyError :
  forall (pd_to_datetime : str -> result date) (t : str) (q : N) (yr : str),
    short_quarter (strip t) q yr \/ long_quarter (strip t) q yr ->
    ~ (1 <= q <= 4)%N ->
    parse_date pd_to_datetime (CText t) = Raise KeyError
    /\ parse_date pd_to_datetime (CText (lit "Q5-24")) = Raise KeyError
    /\ parse_date pd_to_datetime (CText (lit "Quarter 7 2024")) = Raise KeyError.
Proof.
  intros pd t q yr Hform Hq.
  split; [|split; vm_compute; reflexivity].
  unfold parse_date. cbn [isna str_of].
  apply quarter_month_none in Hq.
  destruct Hform as [Hs | Hl].
  - apply short_quarter_matches in Hs as [-> ->]. rewrite Hq.
    reflexivity.
  - apply long_quarter_matches in Hl as [-> [-> ->]]. rewrite Hq.
    reflexivity.
Qed.

Lemma C10_quarter_digit_out_of_range_witness :
  parse_date (fun _ => Ok (mkdate 2024 1 1)) (CText (lit " q9 -  1999 "))
  = Raise KeyError
  /\ parse_date (fun _ => Ok (mkdate 2024 1 1)) (CText (lit "Q5-24"))
     = Raise KeyError
  /\ parse_date (fun _ => Ok (mkdate 2024 1 1)) (CText (lit "Quarter 7 2024"))
     = Raise KeyError.
Proof.
  apply (C10_quarter_digit_out_of_range_is_KeyError
           (fun _ => Ok (mkdate 2024 1 1)) (lit " q9 -  1999 ") 9%N (lit "1999")).
  - left.
    apply (short_quarter_intro (ch "q") (ch "9") (lit " -  ") (lit "1999") 9%N).
    + right. reflexivity.
    + reflexivity.
    + repeat (constructor; [(left; reflexivity) || (right; reflexivity)|]).
      constructor.
    + repeat (constructor; [reflexivity|]). constructor.
    + simpl. lia.
  - lia.
Defined.

Lemma valid_quarter_start (y : Z) (q : N) :
  1 <= y <= 9999 -> (1 <= q <= 4)%N ->
  valid_date y (quarter_start_month q) 1 = true.
Proof.
  intros Hy Hq.
  assert (E : q = 1%N \/ q = 2%N \/ q = 3%N \/ q = 4%N) by lia.
  unfold valid_date.
  assert (H1 : (1 <=? y) = true) by (apply Z.leb_le; lia).
  assert (H2 : (y <=? 9999) = true) by (apply Z.leb_le; lia).
  rewrite H1, H2.
  destruct E as [->|[->|[->| ->]]]; reflexivity.
Qed.

(** C7, as the code has it.  For a quarter digit from 1 to 4:
    [Q<digit>], any number of '-' and ' ' characters and a year of two to
    four digits gives the first day of the quarter, in year [y + 2000] when
    the year reads as a number [y] below 100 and in year [y] otherwise;
    [Quarter <digit> <4-digit-year>] gives that day in the year as written,
    which must not be 0000 (then [datetime] raises its own [ValueError]).
    "Q1-24" and "Quarter 1 2024" are both January 1, 2024. *)
Theorem C7_quarter_start_date :
  forall (pd_to_datetime : str -> result date) (t : str) (q : N) (yr : str),
    (1 <= q <= 4)%N ->
    let y := Z.of_N (digits_value yr) in
    (short_quarter (strip t) q yr ->
     parse_date pd_to_datetime (CText t)
     = Ok (mkdate (if y <? 100 then y + 2000 else y) (quarter_start_month q) 1))
    /\ (long_quarter (strip t) q yr ->
        parse_date pd_to_datetime (CText t)
        = if y =? 0 then Raise ValueError_Range
          else Ok (mkdate y (quarter_start_month q) 1))
    /\ parse_date pd_to_datetime (CText (lit "Q1-24")) = Ok (mkdate 2024 1 1)
    /\ parse_date pd_to_datetime (CText (lit "Quarter 1 2024"))
       = Ok (mkdate 2024 1 1).
Proof.
  intros pd t q yr Hq y.
  split; [|split; [|split; vm_compute; reflexivity]].
  - intros Hs.
    assert (Hy : 0 <= y < 10 ^ 4).
    { destruct Hs as [qch d seps yr q _ _ _ Hyr [_ Hlen]].
      pose proof (digits_value_bound yr Hyr) as Hb.
      assert (10 ^ Z.of_nat (List.length yr) <= 10 ^ 4)
        by (apply Z.pow_le_mono_r; lia).
      subst y. lia. }
    unfold parse_date. cbn [isna str_of].
    apply short_quarter_matches in Hs as [-> ->]. fold y.
    rewrite (quarter_month_some q Hq). unfold make_date.
    rewrite valid_quarter_start; [reflexivity| |exact Hq].
    change (10 ^ 4) with 10000 in Hy.
    destruct (y <? 100) eqn:E;
      [apply Z.ltb_lt in E | apply Z.ltb_ge in E]; lia.
  - intros Hl.
    assert (Hy : 0 <= y < 10 ^ 4).
    { destruct Hl as [w ws1 d ws2 yr q _ _ _ _ _ _ Hyr Hlen].
      pose proof (digits_value_bound yr Hyr) as Hb.
      rewrite Hlen in Hb. subst y. change (Z.of_nat 4) with 4 in Hb. lia. }
    unfold parse_date. cbn [isna str_of].
    apply long_quarter_matches in Hl as [-> [-> ->]]. fold y.
    rewrite (quarter_month_some q Hq). unfold make_date.
    change (10 ^ 4) with 10000 in Hy.
    destruct (y =? 0) eqn:E; [apply Z.eqb_eq in E | apply Z.eqb_neq in E].
    + rewrite E. assert (Hv : forall m d, valid_date 0 m d = false)
        by reflexivity.
      rewrite Hv. reflexivity.
    + rewrite valid_quarter_start; [reflexivity|lia|exact Hq].
Qed.

Lemma C7_quarter_start_date_witness :
  parse_date (fun _ => Raise ValueError_InvalidDate) (CText (lit "q3 - 99"))
  = Ok (mkdate 2099 7 1)
  /\ parse_date (fun _ => Raise ValueError_InvalidDate) (CText (lit "Q1-24"))
     = Ok (mkdate 2024 1 1)
  /\ parse_date (fun _ => Raise ValueError_InvalidDate)
                (CText (lit "Quarter 1 2024")) = Ok (mkdate 2024 1 1).
Proof.
  destruct (C7_quarter_start_date (fun _ => Raise ValueError_InvalidDate)
              (lit "q3 - 99") 3%N (lit "99")) as [Hshort [_ [H1 H2]]].
  - lia.
  - split; [|split; assumption].
    apply Hshort.
    apply (short_quarter_intro (ch "q") (ch "3") (lit " - ") (lit "99") 3%N).
    + right. reflexivity.
    + reflexivity.
    + repeat (constructor; [(left; reflexivity) || (right; reflexivity)|]).
      constructor.
    + repeat (constructor; [reflexivity|]). constructor.
    + simpl. lia.
Defined.

(** C7 does not hold as the specification words it.  The pattern of the
    quarter rule admits '-' and ' ' between the quarter and the year but not
    '/': "Q1/24" is left to the later rules and ends in whatever the
    permissive parser makes of it (an [InvalidDate] failure when that parser
    refuses it).  And the expansion of the year goes by its value, not by
    the number of its digits: "Q1-0024" is January 1, 2024, not of year 24. *)
Lemma C7_slash_and_short_year_counterexample :
  (forall pd, parse_date pd (CText (lit "Q1/24")) = fallback pd (lit "Q1/24"))
  /\ parse_date (fun _ => Raise ValueError_InvalidDate) (CText (lit "Q1/24"))
     = Raise ValueError_InvalidDate
  /\ (forall pd, parse_date pd (CText (lit "Q1-0024")) = Ok (mkdate 2024 1 1))
  /\ mkdate 2024 1 1 <> mkdate 24 1 1.
Proof.
  repeat split; try (intros pd; vm_compute; reflexivity);
    try (vm_compute; reflexivity).
  discriminate.
Qed.

(** ** The sign of an amount *)

Lemma endswith_last (c : char) (s : str) :
  endswith c s = true -> s = removelast s ++ [c].
Proof.
  unfold endswith. intros H.
  destruct s as [|x s'] using rev_ind; [discriminate|].
  rewrite rev_app_distr in H. simpl in H. apply eqc_eq in H. subst x.
  rewrite removelast_last. reflexivity.
Qed.

Lemma startswith_head (c : char) (s : str) :
  startswith c s = true -> s = c :: tl s.
Proof.
  destruct s as [|x s']; simpl; [discriminate|].
  intros H. apply eqc_eq in H. subst. reflexivity.
Qed.

Lemma endswith_cons (c x : char) (s : str) :
  s <> [] -> endswith c (x :: s) = endswith c s.
Proof.
  intros Hs. unfold endswith. simpl.
  destruct (rev s) as [|y r] eqn:E.
  - apply (f_equal (@rev char)) in E. rewrite rev_involutive in E.
    simpl in E. contradiction.
  - reflexivity.
Qed.

(** What [split_sign] computes is one of the four forms. *)
Lemma split_sign_form (s : str) (sign : Z) (rest : str) :
  split_sign s = (sign, rest) -> sign_form s sign rest.
Proof.
  unfold split_sign.
  destruct (startswith (ch "(") s && endswith (ch ")") s) eqn:Hp.
  - intros [= <- <-].
    apply andb_true_iff in Hp as [Hs He].
    apply startswith_head in Hs.
    remember (removelast (tl s)) as m eqn:Em.
    assert (E : s = ch "(" :: m ++ [ch ")"]).
    { destruct (tl s) as [|y s'] eqn:Et.
      - rewrite Hs in He. vm_compute in He. discriminate.
      - rewrite Hs in He. rewrite endswith_cons in He by discriminate.
        apply endswith_last in He. rewrite Hs, Em. f_equal. exact He. }
    rewrite E. constructor.
  - destruct (endswith (ch "-") s) eqn:Ht.
    + intros [= <- <-]. apply endswith_last in Ht.
      remember (removelast s) as m eqn:Em.
      rewrite Ht. constructor.
    + destruct (startswith (ch "-") s) eqn:Hl.
      * intros [= <- <-]. apply startswith_head in Hl.
        remember (tl s) as m eqn:Em.
        rewrite Hl. constructor. rewrite <- Hl. exact Ht.
      * intros [= <- <-]. constructor; assumption.
Qed.

(** Each form is what [split_sign] computes: the forms exclude one another
    in the order of the source. *)
Lemma sign_form_split (s : str) (sign : Z) (rest : str) :
  sign_form s sign rest -> split_sign s = (sign, rest).
Proof.
  intros H. unfold split_sign. destruct H as [m|m|m Hm|s Hp Ht Hl].
  - change (ch "(" :: m ++ [ch ")"]) with ((ch "(" :: m) ++ [ch ")"]).
    rewrite endswith_snoc, eqc_refl. cbn [startswith app].
    rewrite eqc_refl. cbn [andb tl].
    rewrite removelast_last. reflexivity.
  - rewrite !endswith_snoc, eqc_refl.
    replace (eqc (ch "-") (ch ")")) with false by reflexivity.
    rewrite andb_false_r, removelast_last. reflexivity.
  - rewrite Hm.
    replace (startswith (ch "(") (ch "-" :: m)) with false by reflexivity.
    cbn [andb startswith tl]. rewrite eqc_refl. reflexivity.
  - rewrite Hp, Ht, Hl. reflexivity.
Qed.

(** C4.  The sign that the three forms give is lost when the rest of the
    text is a magnitude form.  Lines 28-37 find the sign -1 in "(1.2K)",
    "1.2K-" and "-1.2K" and take its marks off, but the shortcut of lines
    41-43 returns the number times its multiplier without the sign: all
    three are +1200.0, the amount of "1.2K".  The batch parser, on the
    same cell, returns -1200.0, and off the shortcut the sign is applied:
    "(1,234.56)" and "1234.56-" are -1234.56. *)
Theorem C4_sign_lost_on_magnitude_shortcut :
  split_sign (strip (lit "(1.2K)")) = (-1, lit "1.2K")
  /\ split_sign (strip (lit "1.2K-")) = (-1, lit "1.2K")
  /\ split_sign (strip (lit "-1.2K")) = (-1, lit "1.2K")
  /\ parse_amount (CText (lit "(1.2K)")) = Ok (Fin false 12000 (-1))
  /\ parse_amount (CText (lit "1.2K-")) = Ok (Fin false 12000 (-1))
  /\ parse_amount (CText (lit "-1.2K")) = Ok (Fin false 12000 (-1))
  /\ parse_amount (CText (lit "1.2K")) = Ok (Fin false 12000 (-1))
  /\ parse_amount_vectorized [CText (lit "(1.2K)")]
     = Ok [Some (Fin true 12000 (-1))]
  /\ parse_amount (CText (lit "(1,234.56)")) = Ok (Fin true 123456 (-2))
  /\ parse_amount (CText (lit "1234.56-")) = Ok (Fin true 123456 (-2)).
Proof. repeat split; vm_compute; reflexivity. Qed.

(** ** Separators *)

Lemma takewhile_dropwhile (p : char -> bool) (s : str) :
  s = takewhile p s ++ dropwhile p s.
Proof.
  induction s as [|c s IH]; simpl; [reflexivity|].
  destruct (p c); simpl; [f_equal; exact IH|reflexivity].
Qed.

Lemma takewhile_Forall (p : char -> bool) (s : str) :
  Forall (fun c => p c = true) (takewhile p s).
Proof.
  induction s as [|c s IH]; simpl; [constructor|].
  destruct (p c) eqn:E; [constructor; assumption|constructor].
Qed.

(** The characters of a text that [match_number] accepts. *)
Lemma match_number_chars (s : str) :
  match_number s = true ->
  Forall (fun c => in_class "+-" c = true \/ isdigit c = true \/ c = ch ".") s.
Proof.
  unfold match_number.
  set (body := match s with
               | [] => []
               | c :: r => if in_class "+-" c then r else s
               end).
  intros H.
  assert (Hbody : Forall (fun c => in_class "+-" c = true \/ isdigit c = true
                                   \/ c = ch ".") body).
  { rewrite (takewhile_dropwhile isdigit body).
    pose proof (takewhile_Forall isdigit body) as Ht.
    destruct (takewhile isdigit body) as [|d ds]; [discriminate|].
    apply Forall_app. split.
    - eapply Forall_impl; [|exact Ht]. simpl. auto.
    - destruct (dropwhile isdigit body) as [|c fr]; [constructor|].
      apply andb_true_iff in H as [H Hfr].
      apply andb_true_iff in H as [Hc _].
      apply eqc_eq in Hc. constructor; [auto|].
      apply Forall_forall. intros x Hx.
      rewrite forallb_forall in Hfr. auto. }
  subst body. destruct s as [|c r]; [constructor|].
  destruct (in_class "+-" c) eqn:E; [|exact Hbody].
  constructor; auto.
Qed.

(** The magnitude shortcut never fires on a text with a comma in it. *)
Lemma match_suffix_no_comma (s : str) (num : str) (l : char) :
  match_suffix s = Some (num, l) -> ~ In (ch ",") s.
Proof.
  unfold match_suffix. destruct (rev s) as [|c before] eqn:E; [discriminate|].
  destruct (in_class "KkMmBb" c) eqn:Hc; [|discriminate].
  destruct (match_number (rev (dropwhile isspace before))) eqn:Hn;
    [|discriminate].
  intros _ Hin. apply in_rev in Hin. rewrite E in Hin.
  destruct Hin as [Hc'|Hin]; [subst c; vm_compute in Hc; discriminate|].
  rewrite (takewhile_dropwhile isspace before) in Hin.
  apply in_app_or in Hin as [Hin|Hin].
  - pose proof (takewhile_Forall isspace before) as Hf.
    rewrite Forall_forall in Hf. apply Hf in Hin. vm_compute in Hin.
    discriminate.
  - apply in_rev in Hin. apply match_number_chars in Hn.
    rewrite Forall_forall in Hn. apply Hn in Hin.
    destruct Hin as [H|[H|H]]; vm_compute in H; discriminate.
Qed.

Lemma rfind_bounds (c : char) (s : str) :
  -1 <= rfind c s < Z.of_nat (List.length s).
Proof.
  induction s as [|d s IH]; [simpl; lia|].
  cbn [rfind List.length]. rewrite Nat2Z.inj_succ.
  destruct (0 <=? rfind c s) eqn:E; [lia|].
  destruct (eqc d c); lia.
Qed.

Lemma rfind_notin (c : char) (s : str) : ~ In c s -> rfind c s = -1.
Proof.
  induction s as [|d s IH]; [reflexivity|].
  intros H. cbn [rfind]. rewrite IH by (intros Hin; apply H; now right).
  simpl. rewrite eqc_neq; [reflexivity|].
  intros ->. apply H. now left.
Qed.

Lemma rfind_app (c : char) (a b : str) :
  rfind c (a ++ b)
  = if 0 <=? rfind c b then Z.of_nat (List.length a) + rfind c b
    else rfind c a.
Proof.
  induction a as [|d a IH].
  - simpl. destruct (0 <=? rfind c b) eqn:E; [lia|].
    apply Z.leb_gt in E. pose proof (rfind_bounds c b). lia.
  - cbn [app rfind List.length]. rewrite IH, Nat2Z.inj_succ.
    pose proof (rfind_bounds c b) as Hb.
    destruct (0 <=? rfind c b) eqn:E.
    + apply Z.leb_le in E.
      replace (0 <=? Z.of_nat (List.length a) + rfind c b) with true
        by (symmetry; apply Z.leb_le; lia).
      lia.
    + reflexivity.
Qed.

(** The last occurrence of [c], when nothing after it is a [c]. *)
Lemma rfind_last (c : char) (p q : str) :
  ~ In c q -> rfind c (p ++ c :: q) = Z.of_nat (List.length p).
Proof.
  intros Hq. rewrite rfind_app. cbn [rfind].
  rewrite (rfind_notin c q Hq). simpl. rewrite eqc_refl. simpl. lia.
Qed.

Lemma rfind_earlier (c x : char) (p q : str) :
  ~ In c q -> x <> c ->
  rfind c (p ++ x :: q) < Z.of_nat (List.length p).
Proof.
  intros Hq Hx. rewrite rfind_app. cbn [rfind].
  rewrite (rfind_notin c q Hq). simpl. rewrite (eqc_neq x c Hx). simpl.
  apply rfind_bounds.
Qed.

Lemma split_nonempty (c : char) (s : str) : split c s <> [].
Proof.
  destruct s as [|x s]; simpl; [discriminate|].
  destruct (split c s); [discriminate|].
  destruct (eqc x c); discriminate.
Qed.

Lemma split_notin (c : char) (s : str) : ~ In c s -> split c s = [s].
Proof.
  induction s as [|x s IH]; [reflexivity|].
  intros H. simpl. rewrite IH by (intros Hin; apply H; now right).
  rewrite eqc_neq; [reflexivity|]. intros ->. apply H. now left.
Qed.

Lemma split_app_last (c : char) (a b : str) :
  ~ In c b -> split c (a ++ c :: b) = split c a ++ [b].
Proof.
  intros Hb. induction a as [|x a IH].
  - simpl. rewrite (split_notin c b Hb), eqc_refl. reflexivity.
  - cbn [app split]. rewrite IH.
    destruct (split c a) as [|h t] eqn:E; [exfalso; eapply split_nonempty; eauto|].
    cbn [app]. destruct (eqc x c); reflexivity.
Qed.

Lemma join_split (c : char) (s : str) : join (split c s) = remove c s.
Proof.
  induction s as [|x s IH]; [reflexivity|].
  simpl. destruct (split c s) as [|h t] eqn:E;
    [exfalso; eapply split_nonempty; eauto|].
  unfold join in *. simpl in IH.
  destruct (eqc x c) eqn:Ex; simpl; [exact IH|f_equal; exact IH].
Qed.

Lemma count_app (c : char) (a b : str) :
  count c (a ++ b) = (count c a + count c b)%nat.
Proof. unfold count. rewrite filter_app, length_app. reflexivity. Qed.

Lemma count_zero_notin (c : char) (s : str) : count c s = 0%nat -> ~ In c s.
Proof.
  unfold count. induction s as [|x s IH]; simpl; [auto|].
  intros H Hin. destruct (eqc c x) eqn:E.
  - simpl in H. discriminate.
  - destruct Hin as [Hx|Hin].
    + subst x. rewrite eqc_refl in E. discriminate.
    + apply IH; assumption.
Qed.

(** When several dots are left, all but the last are dropped; a single dot
    stays where it is. *)
Lemma collapse_dots_last (a b : str) :
  ~ In (ch ".") b ->
  collapse_dots (a ++ ch "." :: b) = remove (ch ".") a ++ ch "." :: b.
Proof.
  intros Hb. unfold collapse_dots.
  destruct (1 <? count (ch ".") (a ++ ch "." :: b))%nat eqn:E.
  - rewrite (split_app_last _ a b Hb).
    destruct (split (ch ".") a) as [|h t] eqn:Es;
      [exfalso; eapply split_nonempty; eauto|].
    unfold first_part, middle_parts, last_part.
    cbn [app hd tl]. rewrite removelast_last.
    change (h :: t ++ [b]) with ((h :: t) ++ [b]). rewrite last_last.
    rewrite <- (join_split (ch ".") a), Es.
    unfold join. simpl. rewrite <- app_assoc. reflexivity.
  - apply Nat.ltb_ge in E. rewrite count_app in E.
    assert (Hone : (1 <= count (ch ".") (ch "." :: b))%nat).
    { unfold count. cbn [filter]. rewrite eqc_refl. cbn [List.length]. lia. }
    rewrite remove_notin; [reflexivity|].
    apply count_zero_notin. lia.
Qed.

Lemma remove_remove_separators (p : str) :
  remove (ch ".") (remove (ch ",") p) = no_separators p.
Proof.
  unfold remove, no_separators.
  induction p as [|x p IH]; [reflexivity|]. cbn [filter].
  destruct (eqc x (ch ",")) eqn:E1; destruct (eqc x (ch ".")) eqn:E2;
    cbn [negb orb filter]; rewrite ?E2; cbn [negb];
    rewrite IH; reflexivity.
Qed.

Lemma remove_replace_separators (p : str) :
  remove (ch ".") (replace (ch ",") (ch ".") (remove (ch ".") p))
  = no_separators p.
Proof.
  unfold remove, replace, no_separators.
  induction p as [|x p IH]; [reflexivity|]. cbn [filter].
  destruct (eqc x (ch ",")) eqn:E1; destruct (eqc x (ch ".")) eqn:E2;
    cbn [negb orb filter map]; rewrite ?E1, ?E2, ?eqc_refl; cbn [negb filter];
    rewrite ?E2; cbn [negb]; rewrite IH; reflexivity.
Qed.

Lemma replace_notin (c d : char) (s : str) :
  ~ In c s -> replace c d s = s.
Proof.
  unfold replace. induction s as [|x s IH]; [reflexivity|].
  intros H. simpl. rewrite IH by (intros Hin; apply H; now right).
  rewrite eqc_neq; [reflexivity|]. intros ->. apply H. now left.
Qed.

Lemma replace_app (c d : char) (a b : str) :
  replace c d (a ++ b) = replace c d a ++ replace c d b.
Proof. unfold replace. apply map_app. Qed.

(** A text with a separator in it has a last one. *)
Lemma last_separator (s : str) :
  (exists c, In c s /\ is_separator c) ->
  exists p x q, s = p ++ x :: q /\ is_separator x
                /\ ~ In (ch ".") q /\ ~ In (ch ",") q.
Proof.
  induction s as [|y s' IH] using rev_ind; intros [c [Hin Hc]];
    [contradiction|].
  destruct (N.eq_dec y (ch ".")) as [Ey|Ny];
    [|destruct (N.eq_dec y (ch ",")) as [Ey|Ny']].
  - exists s', y, []. repeat split; auto. left. exact Ey.
  - exists s', y, []. repeat split; auto. right. exact Ey.
  - destruct IH as [p [x [q [E [Hx [Hd Hk]]]]]].
    { exists c. split; [|exact Hc].
      apply in_app_or in Hin as [Hin|[<-|[]]]; [exact Hin|].
      destruct Hc; contradiction. }
    exists p, x, (q ++ [y]). rewrite E, <- app_assoc. repeat split; auto.
    + intros H. apply in_app_or in H as [H|[H|[]]]; auto.
    + intros H. apply in_app_or in H as [H|[H|[]]]; auto.
Qed.

Lemma regional_dot_last (p q : str) :
  In (ch ",") p -> ~ In (ch ".") q -> ~ In (ch ",") q ->
  regional (p ++ ch "." :: q) = remove (ch ",") (p ++ ch "." :: q)
  /\ collapse_dots (regional (p ++ ch "." :: q))
     = no_separators p ++ ch "." :: q.
Proof.
  intros Hp Hd Hk.
  assert (E : regional (p ++ ch "." :: q) = remove (ch ",") (p ++ ch "." :: q)).
  { unfold regional.
    replace (contains (ch ".") (p ++ ch "." :: q)) with true
      by (symmetry; apply contains_In, in_or_app; right; now left).
    replace (contains (ch ",") (p ++ ch "." :: q)) with true
      by (symmetry; apply contains_In, in_or_app; now left).
    cbn [andb]. rewrite (rfind_last _ p q Hd).
    pose proof (rfind_earlier (ch ",") (ch ".") p q Hk) as Hlt.
    replace (rfind (ch ",") (p ++ ch "." :: q) <? Z.of_nat (List.length p))
      with true by (symmetry; apply Z.ltb_lt, Hlt; discriminate).
    reflexivity. }
  split; [exact E|]. rewrite E, remove_app.
  replace (remove (ch ",") (ch "." :: q)) with (ch "." :: q).
  - rewrite (collapse_dots_last _ q Hd), remove_remove_separators. reflexivity.
  - change (remove (ch ",") (ch "." :: q)) with (ch "." :: remove (ch ",") q).
    rewrite (remove_notin _ q Hk). reflexivity.
Qed.

Lemma regional_comma_last (p q : str) :
  In (ch ".") p -> ~ In (ch ".") q -> ~ In (ch ",") q ->
  regional (p ++ ch "," :: q)
  = replace (ch ",") (ch ".") (remove (ch ".") (p ++ ch "," :: q))
  /\ collapse_dots (regional (p ++ ch "," :: q))
     = no_separators p ++ ch "." :: q.
Proof.
  intros Hp Hd Hk.
  assert (E : regional (p ++ ch "," :: q)
              = replace (ch ",") (ch ".") (remove (ch ".") (p ++ ch "," :: q))).
  { unfold regional.
    replace (contains (ch ".") (p ++ ch "," :: q)) with true
      by (symmetry; apply contains_In, in_or_app; now left).
    replace (contains (ch ",") (p ++ ch "," :: q)) with true
      by (symmetry; apply contains_In, in_or_app; right; now left).
    cbn [andb]. rewrite (rfind_last _ p q Hk).
    pose proof (rfind_earlier (ch ".") (ch ",") p q Hd) as Hlt.
    replace (Z.of_nat (List.length p) <? rfind (ch ".") (p ++ ch "," :: q))
      with false by (symmetry; apply Z.ltb_ge;
                     assert (ch "," <> ch ".") by discriminate; lia).
    reflexivity. }
  split; [exact E|]. rewrite E, remove_app.
  change (remove (ch ".") (ch "," :: q)) with (ch "," :: remove (ch ".") q).
  rewrite (remove_notin _ q Hd), replace_app.
  change (replace (ch ",") (ch ".") (ch "," :: q))
    with (ch "." :: replace (ch ",") (ch ".") q).
  rewrite (replace_notin _ _ q Hk), (collapse_dots_last _ q Hd),
    remove_replace_separators.
  reflexivity.
Qed.

(** C2.  When the cleaned text has both a dot and a comma, the later of the
    last dot and the last comma is the decimal point and every other dot
    and comma goes: with the dot last the commas are removed, with the
    comma last the dots are removed and the comma becomes the point; the
    amount is the decimal read from the digits before that separator, a
    point, and what follows it, times the sign.  "$1,234.56" and
    "€1.234,56" are 1234.56, and "₹1,23,456.78" is 123456.78. *)
Theorem C2_separators_by_last_position :
  forall (t : str) (sign : Z) (body : str),
    split_sign (strip t) = (sign, body) ->
    In (ch ".") (keep_amount_chars body) ->
    In (ch ",") (keep_amount_chars body) ->
    let c := keep_amount_chars body in
    (exists p x q,
        c = p ++ x :: q /\ is_separator x
        /\ ~ In (ch ".") q /\ ~ In (ch ",") q)
    /\ (forall p x q,
           c = p ++ x :: q -> is_separator x ->
           ~ In (ch ".") q -> ~ In (ch ",") q ->
           (x = ch "." ->
            rfind (ch ",") c < rfind (ch ".") c
            /\ regional c = remove (ch ",") c)
           /\ (x = ch "," ->
               rfind (ch ".") c < rfind (ch ",") c
               /\ regional c
                  = replace (ch ",") (ch ".") (remove (ch ".") c))
           /\ parse_amount (CText t)
              = to_decimal sign (no_separators p ++ ch "." :: q))
    /\ parse_amount (CText (lit "$1,234.56")) = Ok (Fin false 123456 (-2))
    /\ parse_amount (CText (lit "€1.234,56")) = Ok (Fin false 123456 (-2))
    /\ parse_amount (CText (lit "₹1,23,456.78")) = Ok (Fin false 12345678 (-2)).
Proof.
  intros t sign body Hsplit Hdot Hcomma c.
  split; [|split; [|repeat split; vm_compute; reflexivity]].
  { apply last_separator. exists (ch "."). split; [exact Hdot|now left]. }
  intros p x q E Hx Hd Hk.
  assert (Hsuffix : match_suffix body = None).
  { destruct (match_suffix body) as [[num l]|] eqn:Hm; [|reflexivity].
    apply match_suffix_no_comma in Hm. exfalso. apply Hm.
    unfold keep_amount_chars in Hcomma. apply filter_In in Hcomma.
    tauto. }
  assert (Hparse : parse_amount (CText t)
                   = to_decimal sign (collapse_dots (regional c))).
  { unfold parse_amount. cbn [isna str_of]. rewrite Hsplit, Hsuffix.
    reflexivity. }
  assert (Hp_comma : x = ch "." -> In (ch ",") p).
  { intros ->. fold c in Hcomma. rewrite E in Hcomma.
    apply in_app_or in Hcomma as [H|[H|H]];
      [exact H|discriminate|contradiction]. }
  assert (Hp_dot : x = ch "," -> In (ch ".") p).
  { intros ->. fold c in Hdot. rewrite E in Hdot.
    apply in_app_or in Hdot as [H|[H|H]];
      [exact H|discriminate|contradiction]. }
  split; [|split].
  - intros Ex. specialize (Hp_comma Ex). subst x. rewrite E. split.
    + rewrite (rfind_last _ p q Hd).
      apply rfind_earlier; [assumption|discriminate].
    + apply regional_dot_last; assumption.
  - intros Ex. specialize (Hp_dot Ex). subst x. rewrite E. split.
    + rewrite (rfind_last _ p q Hk).
      apply rfind_earlier; [assumption|discriminate].
    + apply regional_comma_last; assumption.
  - rewrite Hparse, E. f_equal.
    destruct Hx as [Ex | Ex].
    + specialize (Hp_comma Ex). subst x.
      apply regional_dot_last; assumption.
    + specialize (Hp_dot Ex). subst x.
      apply regional_comma_last; assumption.
Qed.

Lemma C2_separators_by_last_position_witness :
  parse_amount (CText (lit "(€ 1.234.567,89)")) = Ok (Fin true 123456789 (-2))
  /\ parse_amount (CText (lit "$1,234.56")) = Ok (Fin false 123456 (-2)).
Proof.
  destruct (C2_separators_by_last_position
              (lit "(€ 1.234.567,89)") (-1) (lit "€ 1.234.567,89"))
    as [_ [Hlast [Hus _]]].
  - reflexivity.
  - cbv. tauto.
  - cbv. tauto.
  - split; [|exact Hus].
    destruct (Hlast (lit "1.234.567") (ch ",") (lit "89")) as [_ [_ Hparse]].
    + reflexivity.
    + right. reflexivity.
    + cbv. intuition discriminate.
    + cbv. intuition discriminate.
    + rewrite Hparse. reflexivity.
Defined.

(** ** Numerals and the magnitude shortcut *)

Lemma numeral_shape (num : str) (neg : bool) (ip fp : str) :
  numeral num neg ip fp ->
  exists sgn rest,
    num = sgn ++ ip ++ rest /\ sign_prefix sgn neg
    /\ ip <> [] /\ Forall is_digit ip /\ Forall is_digit fp
    /\ (rest = [] /\ fp = [] \/ rest = ch "." :: fp /\ fp <> []).
Proof.
  intros H. destruct H as [sgn neg ip Hs Hne Hip|sgn neg ip fp Hs Hne Hip Hnf Hfp].
  - exists sgn, []. rewrite app_nil_r. repeat split; auto.
  - exists sgn, (ch "." :: fp). repeat split; auto.
Qed.

Lemma digits_then_rest (ip fp rest : str) :
  Forall is_digit ip ->
  rest = [] /\ fp = [] \/ rest = ch "." :: fp /\ fp <> [] ->
  takewhile isdigit (ip ++ rest) = ip /\ dropwhile isdigit (ip ++ rest) = rest.
Proof.
  intros Hip Hrest. apply takewhile_app; [exact Hip|].
  destruct Hrest as [[-> _]|[-> _]]; [exact I|reflexivity].
Qed.

Lemma head_digit_unsigned (ip rest : str) :
  ip <> [] -> Forall is_digit ip ->
  exists d r, ip ++ rest = d :: r /\ isdigit d = true.
Proof.
  intros Hne Hip. destruct ip as [|d ip']; [contradiction|].
  inversion Hip; subst. exists d, (ip' ++ rest). auto.
Qed.

Lemma numeral_match_number (num : str) (neg : bool) (ip fp : str) :
  numeral num neg ip fp -> match_number num = true.
Proof.
  intros H. apply numeral_shape in H
    as [sgn [rest [-> [Hs [Hne [Hip [Hfp Hrest]]]]]]].
  unfold match_number.
  assert (Hbody : match sgn ++ ip ++ rest with
                  | [] => []
                  | c :: r => if in_class "+-" c then r else sgn ++ ip ++ rest
                  end = ip ++ rest).
  { destruct Hs; cbn [app]; try reflexivity.
    destruct (head_digit_unsigned ip rest Hne Hip) as [d [r [E Hd]]].
    rewrite E. rewrite (isdigit_not_in "+-" d); [reflexivity| |exact Hd].
    vm_compute. reflexivity. }
  rewrite Hbody.
  destruct (digits_then_rest ip fp rest Hip Hrest) as [-> ->].
  destruct ip as [|d ip']; [contradiction|].
  destruct Hrest as [[-> _]|[-> Hnf]]; [reflexivity|].
  rewrite eqc_refl, (Forall_forallb _ _ Hfp).
  destruct fp; [contradiction|reflexivity].
Qed.

Lemma numeral_ends_in_digit (num : str) (neg : bool) (ip fp : str) :
  numeral num neg ip fp ->
  exists front d, num = front ++ [d] /\ isdigit d = true.
Proof.
  intros H. apply numeral_shape in H
    as [sgn [rest [-> [Hs [Hne [Hip [Hfp Hrest]]]]]]].
  destruct Hrest as [[-> _]|[-> Hnf]].
  - destruct (exists_last Hne) as [front [d E]]. subst ip.
    exists (sgn ++ front), d. rewrite app_nil_r, app_assoc. split; [reflexivity|].
    rewrite Forall_app in Hip. destruct Hip as [_ Hd].
    inversion Hd; assumption.
  - destruct (exists_last Hnf) as [front [d E]]. subst fp.
    exists (sgn ++ ip ++ ch "." :: front), d. split.
    + rewrite <- !app_assoc. reflexivity.
    + rewrite Forall_app in Hfp. destruct Hfp as [_ Hd].
      inversion Hd; assumption.
Qed.

Lemma numeral_chars (num : str) (neg : bool) (ip fp : str) :
  numeral num neg ip fp ->
  Forall (fun c => in_class "+-" c = true \/ isdigit c = true \/ c = ch ".") num.
Proof.
  intros H. apply match_number_chars. eapply numeral_match_number; eauto.
Qed.



(** [Decimal] reads a numeral as its digits with the point taken out,
    scaled by the number of decimals, provided that fits the constructor. *)
Lemma numeral_of_str (num : str) (neg : bool) (ip fp : str) :
  numeral num neg ip fp ->
  representable (digits_value (ip ++ fp)) (- Z.of_nat (List.length fp)) = true ->
  of_str num
  = Some (Fin neg (digits_value (ip ++ fp)) (- Z.of_nat (List.length fp))).
Proof.
  intros Hnum Hrep.
  pose proof (numeral_chars _ _ _ _ Hnum) as Hchars.
  destruct (numeral_ends_in_digit _ _ _ _ Hnum) as [front [dl [Elast Hdl]]].
  apply numeral_shape in Hnum
    as [sgn [rest [E [Hs [Hne [Hip [Hfp Hrest]]]]]]].
  unfold of_str.
  assert (Hstrip : strip num = num).
  { apply strip_id.
    - rewrite E. destruct Hs; cbn [app]; try reflexivity.
      destruct (head_digit_unsigned ip rest Hne Hip) as [d [r [-> Hd]]].
      apply isdigit_not_space. exact Hd.
    - rewrite Elast, rev_app_distr. cbn [rev app].
      apply isdigit_not_space. exact Hdl. }
  assert (Hunder : remove (ch "_") num = num).
  { apply remove_notin. intros Hin. rewrite Forall_forall in Hchars.
    apply Hchars in Hin. destruct Hin as [H|[H|H]]; vm_compute in H;
      discriminate. }
  rewrite Hstrip, Hunder, E.
  assert (Hunsign : unsign (sgn ++ ip ++ rest) = (neg, ip ++ rest)).
  { destruct Hs; cbn [app]; try reflexivity.
    destruct (head_digit_unsigned ip rest Hne Hip) as [d [r [Ed Hd]]].
    rewrite Ed. unfold unsign.
    rewrite !eqc_neq; [reflexivity| |];
      intros ->; vm_compute in Hd; discriminate. }
  rewrite Hunsign. unfold parse_finite.
  destruct (digits_then_rest ip fp rest Hip Hrest) as [-> ->].
  destruct Hrest as [[-> ->]|[-> Hnf]].
  - rewrite app_nil_r in *. destruct ip as [|d ip']; [contradiction|].
    cbn [parse_exponent List.length Z.of_nat Z.opp] in *.
    change (0 - 0) with 0. rewrite Hrep. reflexivity.
  - rewrite eqc_refl.
    destruct (takewhile_all isdigit fp Hfp) as [-> ->].
    destruct (ip ++ fp) as [|d r] eqn:Eapp.
    { apply app_eq_nil in Eapp as [-> _]. contradiction. }
    cbn [parse_exponent]. rewrite Z.sub_0_l, Hrep. reflexivity.
Qed.

(** ** Digits of a coefficient and the default context *)



Lemma ndigits_fuel_le (fuel : nat) : forall c n,
  0 <= c < 10 ^ n -> 1 <= n -> ndigits_fuel fuel c <= n.
Proof.
  induction fuel as [|f IH]; intros c n Hc Hn; cbn [ndigits_fuel]; [lia|].
  destruct (c <? 10) eqn:E; [lia|]. apply Z.ltb_ge in E.
  assert (Hn2 : 2 <= n).
  { destruct (Z.eq_dec n 1) as [->|]; [|lia]. change (10 ^ 1) with 10 in Hc. lia. }
  assert (Hpow : 10 ^ n = 10 * 10 ^ (n - 1)).
  { rewrite <- Z.pow_succ_r by lia. f_equal. lia. }
  specialize (IH (c / 10) (n - 1)).
  assert (0 <= c / 10 < 10 ^ (n - 1)).
  { split; [apply Z.div_pos; lia|]. apply Z.div_lt_upper_bound; lia. }
  lia.
Qed.



(** A coefficient below [10^n] has at most [n] digits. *)
Lemma ndigits_le (c : N) (n : Z) :
  Z.of_N c < 10 ^ n -> 1 <= n -> ndigits c <= n.
Proof. intros H Hn. apply ndigits_fuel_le; lia. Qed.



Lemma representable_small (c : N) (e : Z) :
  Z.of_N c < 10 ^ 28 -> -1000026 <= e <= 0 -> representable c e = true.
Proof.
  intros Hc He. unfold representable, max_Etiny, max_Emax.
  destruct (c =? 0)%N.
  - apply andb_true_iff. split; apply Z.leb_le; lia.
  - pose proof (ndigits_le c 28 Hc ltac:(lia)).
    apply andb_true_iff. split; apply Z.leb_le; lia.
Qed.





(** ** Floats *)

Lemma round_half_even_between (n d A B : Z) :
  0 < d -> A * d <= n <= B * d -> A <= round_half_even n d <= B.
Proof.
  intros Hd [Hlo Hhi]. unfold round_half_even.
  assert (HA : A <= n / d) by (apply Z.div_le_lower_bound; lia).
  assert (HB : n / d <= B) by (apply Z.div_le_upper_bound; lia).
  destruct ((d <? 2 * (n mod d)) || ((2 * (n mod d) =? d) && Z.odd (n / d)))
    eqn:Eup; [|lia].
  split; [lia|].
  destruct (Z.eq_dec (n / d) B) as [EB|]; [|lia].
  exfalso.
  pose proof (Z.div_mod n d ltac:(lia)) as Hdm.
  pose proof (Z.mod_pos_bound n d Hd) as Hm.
  assert (Hr : n mod d = 0) by nia.
  rewrite Hr in Eup. cbn [Z.mul] in Eup.
  apply orb_true_iff in Eup as [E|E].
  - apply Z.ltb_lt in E. lia.
  - apply andb_true_iff in E as [E _]. apply Z.eqb_eq in E. lia.
Qed.

Lemma binary_exponent_lt (num den K : Z) :
  0 < num -> 0 < den -> 0 <= K -> num < 2 ^ K * den ->
  binary_exponent num den < K.
Proof.
  intros Hnum Hden HK Hlt. unfold binary_exponent.
  pose proof (Z.log2_spec num Hnum) as [Hn1 Hn2].
  pose proof (Z.log2_spec den Hden) as [Hd1 Hd2].
  pose proof (Z.log2_nonneg num) as Hn0.
  pose proof (Z.log2_nonneg den) as Hd0.
  set (a := Z.log2 num) in *. set (b := Z.log2 den) in *.
  assert (Hl : a - b <= K).
  { assert (2 ^ a < 2 ^ (K + b + 1)); [|apply Z.pow_lt_mono_r_iff in H; lia].
    replace (K + b + 1) with (K + Z.succ b) by lia.
    rewrite Z.pow_add_r by lia.
    assert (0 < 2 ^ K) by (apply Z.pow_pos_nonneg; lia). nia. }
  destruct (Z.eq_dec (a - b) K) as [E|].
  - rewrite E.
    replace (0 <=? K) with true by (symmetry; apply Z.leb_le; lia).
    replace (den * 2 ^ K <=? num) with false
      by (symmetry; apply Z.leb_gt; lia).
    lia.
  - destruct (if 0 <=? a - b then den * 2 ^ (a - b) <=? num
              else den <=? num * 2 ^ (- (a - b))); lia.
Qed.

(** Rounding to a double does not cross a whole number below [2^53]. *)
Lemma round_ratio_between (num den a b : Z) :
  0 < den -> 0 <= a -> b < 2 ^ 53 -> a * den <= num <= b * den ->
  exists m e,
    round_ratio num den = Finite m e /\ e <= 0
    /\ a * 2 ^ (- e) <= m <= b * 2 ^ (- e).
Proof.
  intros Hden Ha Hb [Hlo Hhi]. unfold round_ratio.
  destruct (num =? 0) eqn:E0.
  - apply Z.eqb_eq in E0. subst num.
    exists 0, 0. split; [reflexivity|]. split; [lia|].
    change (2 ^ (- 0)) with 1. nia.
  - apply Z.eqb_neq in E0.
    assert (Hnum : 0 < num) by nia.
    assert (Hk : binary_exponent num den < 53).
    { apply binary_exponent_lt; try lia. nia. }
    set (e := Z.max (binary_exponent num den - 52) (-1074)).
    assert (He : e <= 0) by (unfold e; lia).
    assert (Hpow : 0 < 2 ^ (- e)) by (apply Z.pow_pos_nonneg; lia).
    set (m := if 0 <=? e then round_half_even num (den * 2 ^ e)
              else round_half_even (num * 2 ^ (- e)) den).
    assert (Hm : a * 2 ^ (- e) <= m <= b * 2 ^ (- e)).
    { unfold m. destruct (0 <=? e) eqn:Ee.
      - apply Z.leb_le in Ee. replace e with 0 by lia.
        change (2 ^ (- 0)) with 1. change (2 ^ 0) with 1.
        rewrite !Z.mul_1_r. apply round_half_even_between; lia.
      - apply round_half_even_between; [lia|]. nia. }
    cbv zeta. fold e. fold m.
    destruct (m =? 2 ^ 53) eqn:Ecarry.
    + apply Z.eqb_eq in Ecarry.
      assert (He' : e < 0).
      { destruct (Z.eq_dec e 0) as [Ez|]; [|lia]. rewrite Ez in Hm.
        change (2 ^ (- 0)) with 1 in Hm. lia. }
      replace (1023 <? e + 1 + 52) with false
        by (symmetry; apply Z.ltb_ge; lia).
      exists (2 ^ 52), (e + 1). split; [reflexivity|]. split; [lia|].
      assert (Hsucc : 2 ^ (- e) = 2 * 2 ^ (- (e + 1))).
      { rewrite <- Z.pow_succ_r by lia. f_equal. lia. }
      assert (0 < 2 ^ (- (e + 1))) by (apply Z.pow_pos_nonneg; lia).
      change (2 ^ 53) with (2 * 2 ^ 52) in Ecarry. nia.
    + replace (1023 <? e + 52) with false by (symmetry; apply Z.ltb_ge; lia).
      exists m, e. auto.
Qed.

(** A whole number of days below [2^53] makes that many days exactly. *)
Lemma timedelta_days_whole (n : Z) :
  0 <= n < 2 ^ 53 -> timedelta_days (round_ratio n 1) = Ok (n * us_per_day).
Proof.
  intros Hn.
  destruct (round_ratio_between n 1 n n) as [m [e [-> [He Hm]]]]; try lia.
  assert (Em : m = n * 2 ^ (- e)) by lia.
  assert (Hpow : 0 < 2 ^ (- e)) by (apply Z.pow_pos_nonneg; lia).
  unfold timedelta_days, modf.
  destruct (0 <=? e) eqn:Ee.
  - apply Z.leb_le in Ee. assert (e = 0) by lia. subst e.
    change (2 ^ (- 0)) with 1 in Em. change (2 ^ 0) with 1.
    cbn [Z.eqb]. rewrite Z.mul_1_r. f_equal. lia.
  - rewrite Em, Z.div_mul, Z.mod_mul by lia. reflexivity.
Qed.

Lemma binary_exponent_whole (n : Z) :
  0 < n -> binary_exponent n 1 = Z.log2 n.
Proof.
  intros Hn. unfold binary_exponent. change (Z.log2 1) with 0.
  rewrite Z.sub_0_r.
  pose proof (Z.log2_spec n Hn) as [Hlo _].
  pose proof (Z.log2_nonneg n) as H0.
  replace (0 <=? Z.log2 n) with true by (symmetry; apply Z.leb_le; lia).
  replace (1 * 2 ^ Z.log2 n <=? n) with true
    by (symmetry; apply Z.leb_le; lia).
  reflexivity.
Qed.

(** A whole number of days from [2^53] on is more days than a [timedelta]
    can hold, when the float is not infinite to begin with. *)
Lemma timedelta_days_huge (n : Z) :
  2 ^ 53 <= n ->
  match timedelta_days (round_ratio n 1) with
  | Ok us => 2 ^ 53 * us_per_day <= us
  | Raise e => e = OverflowError
  end.
Proof.
  intros Hn.
  assert (Hpos : 0 < n) by (assert (0 < 2 ^ 53) by reflexivity; lia).
  unfold round_ratio.
  replace (n =? 0) with false by (symmetry; apply Z.eqb_neq; lia).
  rewrite (binary_exponent_whole n Hpos).
  pose proof (Z.log2_spec n Hpos) as [Hlo Hhi].
  assert (HL : 53 <= Z.log2 n) by (apply Z.log2_le_pow2; lia).
  set (L := Z.log2 n) in *.
  rewrite Z.max_l by lia. cbv zeta.
  replace (0 <=? L - 52) with true by (symmetry; apply Z.leb_le; lia).
  rewrite Z.mul_1_l.
  assert (Hscale : 0 < 2 ^ (L - 52)) by (apply Z.pow_pos_nonneg; lia).
  assert (Hsplit : 2 ^ L = 2 ^ 52 * 2 ^ (L - 52)).
  { rewrite <- Z.pow_add_r by lia. f_equal. lia. }
  assert (Hm : 2 ^ 52 <= round_half_even n (2 ^ (L - 52)) <= n).
  { apply round_half_even_between; [lia|]. split; [lia|].
    assert (0 <= n * (2 ^ (L - 52) - 1)) by nia. lia. }
  set (m := round_half_even n (2 ^ (L - 52))) in *.
  assert (Hdays : forall m' e', 2 ^ 52 <= m' -> 1 <= e' ->
            match timedelta_days (if 1023 <? e' + 52 then PosInf
                                  else Finite m' e') with
            | Ok us => 2 ^ 53 * us_per_day <= us
            | Raise e => e = OverflowError
            end).
  { intros m' e' Hm' He'. destruct (1023 <? e' + 52); [reflexivity|].
    unfold timedelta_days, modf.
    replace (0 <=? e') with true by (symmetry; apply Z.leb_le; lia).
    cbn [Z.eqb].
    assert (2 <= 2 ^ e').
    { replace e' with (1 + (e' - 1)) by lia. rewrite Z.pow_add_r by lia.
      assert (0 < 2 ^ (e' - 1)) by (apply Z.pow_pos_nonneg; lia).
      change (2 ^ 1) with 2. lia. }
    change (2 ^ 53) with (2 ^ 52 * 2). unfold us_per_day.
    assert (0 < 2 ^ 52) by reflexivity. nia. }
  destruct (m =? 2 ^ 53); apply Hdays; lia.
Qed.

Lemma epoch_ordinal_value : epoch_ordinal = 693594.
Proof. reflexivity. Qed.

(** Rule 1 on a whole number of days. *)
Lemma serial_date_whole (n : Z) :
  0 <= n ->
  serial_date (round_ratio n 1)
  = if n <=? 2958465 then Ok (ord2ymd (epoch_ordinal + n))
    else Raise OverflowError.
Proof.
  intros Hn. unfold serial_date.
  destruct (Z_lt_le_dec n (2 ^ 53)) as [Hsmall|Hbig].
  - rewrite (timedelta_days_whole n) by lia. cbn [bind].
    rewrite Z.div_mul by (unfold us_per_day; lia).
    rewrite epoch_ordinal_value. unfold max_ordinal.
    destruct (n <=? 2958465) eqn:E.
    + apply Z.leb_le in E.
      replace (999999999 <? n) with false by (symmetry; apply Z.ltb_ge; lia).
      replace (3652059 <? 693594 + n) with false
        by (symmetry; apply Z.ltb_ge; lia).
      reflexivity.
    + apply Z.leb_gt in E.
      destruct (999999999 <? n); [reflexivity|].
      replace (3652059 <? 693594 + n) with true
        by (symmetry; apply Z.ltb_lt; lia).
      reflexivity.
  - pose proof (timedelta_days_huge n Hbig) as H.
    assert (0 < 2 ^ 53) by reflexivity.
    replace (n <=? 2958465) with false
      by (symmetry; apply Z.leb_gt; change (2 ^ 53) with 9007199254740992 in Hbig; lia).
    destruct (timedelta_days (round_ratio n 1)) as [us|e]; cbn [bind].
    + assert (2 ^ 53 <= us / us_per_day).
      { apply Z.div_le_lower_bound; [unfold us_per_day; lia|lia]. }
      replace (999999999 <? us / us_per_day) with true
        by (symmetry; apply Z.ltb_lt;
            change (2 ^ 53) with 9007199254740992 in *; lia).
      reflexivity.
    + subst e. reflexivity.
Qed.

(** A number of days between two consecutive whole numbers makes a
    [timedelta] between the two: the float and the microsecond roundings may
    carry to the next day, never further. *)
Lemma timedelta_days_between (num den n : Z) :
  0 < den -> 0 <= n -> n + 1 < 2 ^ 53 ->
  n * den <= num <= (n + 1) * den ->
  exists us,
    timedelta_days (round_ratio num den) = Ok us
    /\ n * us_per_day <= us <= (n + 1) * us_per_day.
Proof.
  intros Hden Hn Hn53 Hnum.
  destruct (round_ratio_between num den n (n + 1)) as [m [e [-> [He Hm]]]];
    try lia.
  assert (HX : 0 < 2 ^ (- e)) by (apply Z.pow_pos_nonneg; lia).
  assert (HD : 0 < us_per_day) by reflexivity.
  unfold timedelta_days, modf.
  destruct (0 <=? e) eqn:Ee.
  - apply Z.leb_le in Ee. assert (e = 0) by lia. subst e.
    change (2 ^ (- 0)) with 1 in Hm. change (2 ^ 0) with 1.
    cbn [Z.eqb]. rewrite Z.mul_1_r. eexists. split; [reflexivity|]. nia.
  - set (X := 2 ^ (- e)) in *.
    assert (Hip : n <= m / X <= n + 1).
    { split; [apply Z.div_le_lower_bound|apply Z.div_le_upper_bound]; lia. }
    pose proof (Z.div_mod m X ltac:(lia)) as Hdm.
    pose proof (Z.mod_pos_bound m X HX) as Hmod.
    destruct (m mod X =? 0) eqn:Ef.
    + eexists. split; [reflexivity|]. nia.
    + apply Z.eqb_neq in Ef.
      assert (Hipn : m / X = n) by nia.
      destruct (round_ratio_between (us_per_day * (m mod X)) X 0 us_per_day)
        as [m2 [e2 [-> [He2 Hm2]]]]; try lia; [reflexivity|nia|].
      assert (HX2 : 0 < 2 ^ (- e2)) by (apply Z.pow_pos_nonneg; lia).
      destruct (0 <=? e2) eqn:Ee2.
      * apply Z.leb_le in Ee2. assert (e2 = 0) by lia. subst e2.
        change (2 ^ (- 0)) with 1 in Hm2. change (2 ^ 0) with 1.
        rewrite Z.mul_1_r. cbn [Z.mul Z.ltb Z.compare].
        eexists. split; [reflexivity|]. nia.
      * set (X2 := 2 ^ (- e2)) in *.
        assert (Hip2 : 0 <= m2 / X2 <= us_per_day).
        { split; [apply Z.div_le_lower_bound|apply Z.div_le_upper_bound]; lia. }
        pose proof (Z.div_mod m2 X2 ltac:(lia)) as Hdm2.
        pose proof (Z.mod_pos_bound m2 X2 HX2) as Hmod2.
        eexists. split; [reflexivity|]. rewrite Hipn.
        destruct (2 * (m2 mod X2) <? X2) eqn:Elt; [lia|].
        apply Z.ltb_ge in Elt.
        assert (m2 / X2 < us_per_day) by nia.
        destruct (2 * (m2 mod X2) =? X2);
          [destruct (Z.odd (n * us_per_day + m2 / X2))|]; lia.
Qed.

(** Rule 1 on a number of days with a fraction: the day of the whole part,
    or the next one when the roundings carry. *)
Lemma serial_date_between (num den n : Z) :
  0 < den -> 0 <= n < 2958465 ->
  n * den <= num <= (n + 1) * den ->
  serial_date (round_ratio num den) = Ok (ord2ymd (epoch_ordinal + n))
  \/ serial_date (round_ratio num den) = Ok (ord2ymd (epoch_ordinal + n + 1)).
Proof.
  intros Hden Hn Hnum.
  destruct (timedelta_days_between num den n) as [us [E Hus]]; try lia.
  unfold serial_date. rewrite E. cbn [bind].
  assert (HD : 0 < us_per_day) by reflexivity.
  assert (Hdays : us / us_per_day = n \/ us / us_per_day = n + 1).
  { assert (n <= us / us_per_day) by (apply Z.div_le_lower_bound; lia).
    assert (us / us_per_day <= n + 1) by (apply Z.div_le_upper_bound; lia).
    lia. }
  rewrite epoch_ordinal_value. unfold max_ordinal.
  destruct Hdays as [-> | ->]; [left|right];
    match goal with
    | |- context [999999999 <? ?d] =>
        replace (999999999 <? d) with false by (symmetry; apply Z.ltb_ge; lia);
        replace (3652059 <? 693594 + d) with false
          by (symmetry; apply Z.ltb_ge; lia)
    end.
  - reflexivity.
  - rewrite Z.add_assoc. reflexivity.
Qed.

Lemma digits_fold_shift (s : str) : forall acc : N,
  Forall is_digit s ->
  Z.of_N (fold_left (fun a c => match digit_value c with
                                | Some d => (a * 10 + d)%N
                                | None => a
                                end) s acc)
  = Z.of_N acc * 10 ^ Z.of_nat (List.length s) + Z.of_N (digits_value s).
Proof.
  unfold digits_value.
  induction s as [|c s IH]; intros acc Hs.
  - simpl. lia.
  - inversion Hs as [|? ? Hc Hs']; subst.
    apply isdigit_value in Hc as [d [Hd _]].
    cbn [fold_left List.length]. rewrite Hd.
    rewrite (IH (acc * 10 + d)%N Hs'), (IH (0 * 10 + d)%N Hs').
    rewrite Nat2Z.inj_succ, Z.pow_succ_r by lia. lia.
Qed.

(** The digits before and after the point, read as one number. *)
Lemma digits_value_app (ip fr : str) :
  Forall is_digit fr ->
  Z.of_N (digits_value (ip ++ fr))
  = Z.of_N (digits_value ip) * 10 ^ Z.of_nat (List.length fr)
    + Z.of_N (digits_value fr).
Proof.
  intros Hfr. unfold digits_value at 1. rewrite fold_left_app.
  apply digits_fold_shift. exact Hfr.
Qed.

Lemma serial_text_matches (s ip fr : str) :
  serial_text s ip fr -> match_serial s = Some (ip, fr).
Proof.
  intros H. unfold match_serial.
  destruct H as [ip Hne Hip|ip fr Hne Hip Hnf Hfr].
  - destruct (takewhile_all isdigit ip Hip) as [-> ->].
    destruct ip; [contradiction|reflexivity].
  - destruct (takewhile_app isdigit ip (ch "." :: fr) Hip) as [-> ->];
      [reflexivity|].
    destruct ip as [|d ip']; [contradiction|].
    rewrite eqc_refl, (Forall_forallb _ _ Hfr).
    destruct fr; [contradiction|reflexivity].
Qed.

(** Rounding to a double does not cross a multiple of [2^-k] whose
    numerator is below [2^53]: such a multiple is a double. *)
Lemma round_ratio_between_scaled (num den A B k : Z) :
  0 < den -> 0 <= k <= 53 -> 0 <= A -> B < 2 ^ 53 ->
  A * den <= num * 2 ^ k -> num * 2 ^ k <= B * den ->
  exists m e,
    round_ratio num den = Finite m e /\ e <= 0
    /\ A * 2 ^ (- e) <= m * 2 ^ k <= B * 2 ^ (- e).
Proof.
  intros Hden Hk HA HB Hlo Hhi.
  assert (HK : 0 < 2 ^ k) by (apply Z.pow_pos_nonneg; lia).
  unfold round_ratio.
  destruct (num =? 0) eqn:E0.
  - apply Z.eqb_eq in E0. subst num.
    exists 0, 0. split; [reflexivity|]. split; [lia|].
    change (2 ^ (- 0)) with 1. nia.
  - apply Z.eqb_neq in E0.
    assert (Hnum : 0 < num) by nia.
    assert (Hbexp : binary_exponent num den < 53 - k).
    { apply binary_exponent_lt; try lia.
      assert (Hsplit : 2 ^ 53 = 2 ^ (53 - k) * 2 ^ k).
      { rewrite <- Z.pow_add_r by lia. f_equal. lia. }
      assert (0 < 2 ^ (53 - k)) by (apply Z.pow_pos_nonneg; lia).
      assert (num * 2 ^ k < 2 ^ (53 - k) * den * 2 ^ k) by nia.
      nia. }
    set (e := Z.max (binary_exponent num den - 52) (-1074)).
    assert (He : e <= - k) by (unfold e; lia).
    assert (Hpow : 0 < 2 ^ (- e)) by (apply Z.pow_pos_nonneg; lia).
    assert (Hdrop : 0 < 2 ^ (- e - k)) by (apply Z.pow_pos_nonneg; lia).
    assert (Hshift : 2 ^ (- e) = 2 ^ (- e - k) * 2 ^ k).
    { rewrite <- Z.pow_add_r by lia. f_equal. lia. }
    set (m := if 0 <=? e then round_half_even num (den * 2 ^ e)
              else round_half_even (num * 2 ^ (- e)) den).
    assert (Hm : A * 2 ^ (- e - k) <= m <= B * 2 ^ (- e - k)).
    { unfold m. destruct (0 <=? e) eqn:Ee.
      - apply Z.leb_le in Ee.
        assert (e = 0) by lia. assert (k = 0) by lia. subst e k.
        replace (- 0 - 0) with 0 by lia.
        match goal with H : _ = 0 |- _ => rewrite H end.
        change (2 ^ 0) with 1 in *. rewrite !Z.mul_1_r in *.
        apply round_half_even_between; lia.
      - apply round_half_even_between; [lia|]. rewrite Hshift. split; nia. }
    cbv zeta. fold e. fold m.
    destruct (m =? 2 ^ 53) eqn:Ecarry.
    + apply Z.eqb_eq in Ecarry.
      assert (He' : e < - k).
      { destruct (Z.eq_dec e (- k)) as [Ez|]; [|lia].
        rewrite Ez in Hm. replace (- - k - k) with 0 in Hm by lia.
        change (2 ^ 0) with 1 in Hm. lia. }
      replace (1023 <? e + 1 + 52) with false
        by (symmetry; apply Z.ltb_ge; lia).
      exists (2 ^ 52), (e + 1). split; [reflexivity|]. split; [lia|].
      assert (Hsucc : 2 ^ (- e - k) = 2 * 2 ^ (- (e + 1) - k)).
      { rewrite <- Z.pow_succ_r by lia. f_equal. lia. }
      assert (Hshift' : 2 ^ (- (e + 1)) = 2 ^ (- (e + 1) - k) * 2 ^ k).
      { rewrite <- Z.pow_add_r by lia. f_equal. lia. }
      assert (0 < 2 ^ (- (e + 1) - k)) by (apply Z.pow_pos_nonneg; lia).
      rewrite Hshift'. rewrite Ecarry, Hsucc in Hm.
      change (2 ^ 53) with (2 * 2 ^ 52) in Hm. split; nia.
    + replace (1023 <? e + 52) with false by (symmetry; apply Z.ltb_ge; lia).
      exists m, e. split; [reflexivity|]. split; [lia|].
      rewrite Hshift. split; nia.
Qed.

(** A number of days that ends [2^-k] of a day or more before the next
    whole number makes a [timedelta] within the day of its whole part: the
    float keeps it below the next whole number, and the microseconds, at
    most 86399999999.375 before they are rounded, do not reach a day. *)
Lemma timedelta_days_truncates (num den n k : Z) :
  0 < den -> 0 <= n -> 0 <= k <= 37 -> (n + 1) * 2 ^ k <= 2 ^ 53 ->
  n * den <= num -> num * 2 ^ k <= ((n + 1) * 2 ^ k - 1) * den ->
  exists us,
    timedelta_days (round_ratio num den) = Ok us
    /\ n * us_per_day <= us < (n + 1) * us_per_day.
Proof.
  intros Hden Hn Hk Hn53 Hlo Hhi.
  assert (HK : 0 < 2 ^ k) by (apply Z.pow_pos_nonneg; lia).
  assert (HKU : 5 * 2 ^ k <= 8 * us_per_day).
  { assert (2 ^ k <= 2 ^ 37) by (apply Z.pow_le_mono_r; lia).
    assert (5 * 2 ^ 37 <= 8 * us_per_day) by (vm_compute; discriminate).
    lia. }
  destruct (round_ratio_between_scaled num den (n * 2 ^ k)
              ((n + 1) * 2 ^ k - 1) k)
    as [m [e [-> [He [Hm1 Hm2]]]]]; try lia; try nia.
  assert (HX : 0 < 2 ^ (- e)) by (apply Z.pow_pos_nonneg; lia).
  assert (HD : 0 < us_per_day) by reflexivity.
  set (X := 2 ^ (- e)) in *.
  assert (HmX : n * X <= m) by nia.
  assert (Hfrac : (m - n * X) * 2 ^ k <= (2 ^ k - 1) * X) by nia.
  assert (HmX' : m < (n + 1) * X) by nia.
  unfold timedelta_days, modf.
  destruct (0 <=? e) eqn:Ee.
  - apply Z.leb_le in Ee. assert (e = 0) by lia. subst e.
    change (2 ^ (- 0)) with 1 in X. subst X.
    change (2 ^ 0) with 1. cbn [Z.eqb]. rewrite Z.mul_1_r.
    eexists. split; [reflexivity|]. nia.
  - fold X.
    assert (Hip : m / X = n).
    { symmetry. apply Z.div_unique with (m - n * X); lia. }
    assert (Hmod : m mod X = m - n * X).
    { symmetry. apply Z.mod_unique with n; lia. }
    rewrite Hip, Hmod.
    destruct (m - n * X =? 0) eqn:Ef.
    + eexists. split; [reflexivity|]. lia.
    + apply Z.eqb_neq in Ef.
      assert (Hprod : us_per_day * (m - n * X) * 2 ^ 3
                      <= (8 * us_per_day - 5) * X).
      { change (2 ^ 3) with 8.
        assert (8 * us_per_day * ((m - n * X) * 2 ^ k)
                <= 8 * us_per_day * ((2 ^ k - 1) * X)) by nia.
        assert ((8 * us_per_day * (2 ^ k - 1)) * X
                <= ((8 * us_per_day - 5) * 2 ^ k) * X) by nia.
        nia. }
      destruct (round_ratio_between_scaled (us_per_day * (m - n * X)) X 0
                  (8 * us_per_day - 5) 3)
        as [m2 [e2 [-> [He2 [Hm2lo Hm2']]]]];
        [lia|lia|lia|reflexivity|nia|exact Hprod|].
      change (2 ^ 3) with 8 in Hm2lo, Hm2'.
      assert (HX2 : 0 < 2 ^ (- e2)) by (apply Z.pow_pos_nonneg; lia).
      destruct (0 <=? e2) eqn:Ee2.
      * apply Z.leb_le in Ee2. assert (e2 = 0) by lia. subst e2.
        change (2 ^ (- 0)) with 1 in Hm2'. change (2 ^ 0) with 1.
        rewrite Z.mul_1_r. cbn [Z.mul Z.ltb Z.compare].
        eexists. split; [reflexivity|]. lia.
      * set (X2 := 2 ^ (- e2)) in *.
        pose proof (Z.div_mod m2 X2 ltac:(lia)) as Hdm2.
        pose proof (Z.mod_pos_bound m2 X2 HX2) as Hmod2.
        assert (Hq0 : 0 <= m2 / X2) by (apply Z.div_le_lower_bound; lia).
        assert (HqU : m2 / X2 < us_per_day).
        { apply Z.div_lt_upper_bound; [lia|]. unfold us_per_day in *. lia. }
        eexists. split; [reflexivity|].
        destruct (2 * (m2 mod X2) <? X2) eqn:Elt; [lia|].
        apply Z.ltb_ge in Elt.
        assert (Hq1 : m2 / X2 < us_per_day - 1).
        { destruct (Z.eq_dec (m2 / X2) (us_per_day - 1)) as [Eq|]; [|lia].
          exfalso. rewrite Eq in Hdm2. unfold us_per_day in *. lia. }
        destruct (2 * (m2 mod X2) =? X2);
          [destruct (Z.odd (n * us_per_day + m2 / X2))|]; lia.
Qed.

(** Rule 1 on a number of days with a fraction that ends [2^-k] of a day or
    more before midnight: the day of the whole part. *)
Lemma serial_date_truncates (num den n k : Z) :
  0 < den -> 0 <= n <= 2958465 -> 0 <= k <= 37 -> (n + 1) * 2 ^ k <= 2 ^ 53 ->
  n * den <= num -> num * 2 ^ k <= ((n + 1) * 2 ^ k - 1) * den ->
  serial_date (round_ratio num den) = Ok (ord2ymd (epoch_ordinal + n)).
Proof.
  intros Hden Hn Hk Hn53 Hlo Hhi.
  destruct (timedelta_days_truncates num den n k) as [us [E Hus]]; try lia.
  unfold serial_date. rewrite E. cbn [bind].
  assert (HD : 0 < us_per_day) by reflexivity.
  assert (Hdays : us / us_per_day = n).
  { symmetry. apply Z.div_unique with (us - n * us_per_day); lia. }
  rewrite Hdays, epoch_ordinal_value. unfold max_ordinal.
  replace (999999999 <? n) with false by (symmetry; apply Z.ltb_ge; lia).
  replace (3652059 <? 693594 + n) with false
    by (symmetry; apply Z.ltb_ge; lia).
  reflexivity.
Qed.

(** On the last day of the calendar a fraction that carries leaves it. *)
Lemma serial_date_last_day (num den : Z) :
  0 < den -> 2958465 * den <= num <= 2958466 * den ->
  serial_date (round_ratio num den) = Ok (ord2ymd (epoch_ordinal + 2958465))
  \/ serial_date (round_ratio num den) = Raise OverflowError.
Proof.
  intros Hden Hnum.
  destruct (timedelta_days_between num den 2958465) as [us [E Hus]];
    try lia.
  unfold serial_date. rewrite E. cbn [bind].
  assert (HD : 0 < us_per_day) by reflexivity.
  assert (Hdays : us / us_per_day = 2958465 \/ us / us_per_day = 2958466).
  { assert (2958465 <= us / us_per_day)
      by (apply Z.div_le_lower_bound; lia).
    assert (us / us_per_day <= 2958466)
      by (apply Z.div_le_upper_bound; lia).
    lia. }
  destruct Hdays as [-> | ->]; [left|right]; reflexivity.
Qed.

(** C6, as the code has it.  A run of digits read as the number [n] is the
    date [n] days after 1899-12-30 as long as that date exists, that is up
    to [n] = 2958465 (9999-12-31); past it [parse_date] raises
    [OverflowError].  With a fraction behind a point the text goes through
    a binary float and the time of day is rounded to the microsecond.  The
    fraction is cut off, and the date is that of day [n], whenever it ends
    [2^-k] of a day or more before midnight, for any [k] up to 37 with
    [(n + 1) * 2^k <= 2^53]: for every [n] up to 2958465 that is every
    fraction up to [1 - 2^-31], some 40 microseconds before midnight, and
    for the days up to 2079-06-04 ([n] below 65536) every fraction up to
    [1 - 2^-37], two thirds of a microsecond before it.  Only nearer to
    midnight can the roundings carry, and then to the day after, never
    further; on the last day, 9999-12-31, a fraction that carries raises
    [OverflowError].  "44927" and "2023-01-01" are the same date. *)
Theorem C6_serial_date :
  forall (pd_to_datetime : str -> result date) (t ip fr : str),
    serial_text (strip t) ip fr ->
    let n := Z.of_N (digits_value ip) in
    let fraction := Z.of_N (digits_value fr) in
    let scale := 10 ^ Z.of_nat (List.length fr) in
    (fr = [] ->
     parse_date pd_to_datetime (CText t)
     = if n <=? 2958465 then Ok (ord2ymd (epoch_ordinal + n))
       else Raise OverflowError)
    /\ (forall k,
           n <= 2958465 -> 0 <= k <= 37 -> (n + 1) * 2 ^ k <= 2 ^ 53 ->
           fraction * 2 ^ k <= (2 ^ k - 1) * scale ->
           parse_date pd_to_datetime (CText t)
           = Ok (ord2ymd (epoch_ordinal + n)))
    /\ (n <= 2958465 -> fraction * 2 ^ 31 <= (2 ^ 31 - 1) * scale ->
        parse_date pd_to_datetime (CText t)
        = Ok (ord2ymd (epoch_ordinal + n)))
    /\ (fr <> [] -> n < 2958465 ->
        parse_date pd_to_datetime (CText t)
        = Ok (ord2ymd (epoch_ordinal + n))
        \/ parse_date pd_to_datetime (CText t)
           = Ok (ord2ymd (epoch_ordinal + n + 1)))
    /\ (fr <> [] -> n = 2958465 ->
        parse_date pd_to_datetime (CText t) = Ok (mkdate 9999 12 31)
        \/ parse_date pd_to_datetime (CText t) = Raise OverflowError)
    /\ parse_date pd_to_datetime (CText (lit "44927")) = Ok (mkdate 2023 1 1)
    /\ parse_date pd_to_datetime (CText (lit "2023-01-01"))
       = Ok (mkdate 2023 1 1)
    /\ parse_date pd_to_datetime (CText (lit "44927.5"))
       = Ok (mkdate 2023 1 1)
    /\ parse_date pd_to_datetime (CText (lit "44927.75"))
       = Ok (mkdate 2023 1 1)
    /\ parse_date pd_to_datetime (CText (lit "44927.99"))
       = Ok (mkdate 2023 1 1)
    /\ parse_date pd_to_datetime (CText (lit "44927.99999999999"))
       = Ok (mkdate 2023 1 1)
    /\ parse_date pd_to_datetime (CText (lit "0")) = Ok (mkdate 1899 12 30)
    /\ parse_date pd_to_datetime (CText (lit "2958465"))
       = Ok (mkdate 9999 12 31)
    /\ parse_date pd_to_datetime (CText (lit "2958465.5"))
       = Ok (mkdate 9999 12 31).
Proof.
  intros pd t ip fr Hs n fraction scale.
  assert (Hparse : parse_date pd (CText t)
                   = serial_date (float_of_serial ip fr)).
  { unfold parse_date. cbn [isna str_of].
    rewrite (serial_text_matches _ _ _ Hs). reflexivity. }
  assert (Hn : 0 <= n) by (unfold n; lia).
  assert (Hfr : Forall is_digit fr).
  { destruct Hs; [constructor|assumption]. }
  assert (Hscale : 0 < scale) by (apply Z.pow_pos_nonneg; lia).
  assert (Hnum : Z.of_N (digits_value (ip ++ fr)) = n * scale + fraction)
    by (apply digits_value_app; exact Hfr).
  assert (Hcut : forall k,
             n <= 2958465 -> 0 <= k <= 37 -> (n + 1) * 2 ^ k <= 2 ^ 53 ->
             fraction * 2 ^ k <= (2 ^ k - 1) * scale ->
             parse_date pd (CText t) = Ok (ord2ymd (epoch_ordinal + n))).
  { intros k Hmax Hk Hfit Hend. rewrite Hparse. unfold float_of_serial.
    fold scale. rewrite Hnum.
    assert (0 <= fraction) by (unfold fraction; lia).
    apply (serial_date_truncates _ _ n k); try lia; nia. }
  split; [|split; [exact Hcut|split; [|split; [|split;
    [|repeat split; vm_compute; reflexivity]]]]].
  - intros ->. rewrite Hparse. unfold float_of_serial.
    rewrite app_nil_r. change (10 ^ Z.of_nat (List.length (@nil char))) with 1.
    fold n. apply serial_date_whole. exact Hn.
  - intros Hmax Hend. apply (Hcut 31); lia.
  - intros Hnf Hlt. rewrite Hparse. unfold float_of_serial.
    apply serial_date_between.
    + exact Hscale.
    + lia.
    + fold scale. rewrite Hnum.
      pose proof (digits_value_bound fr Hfr). fold fraction scale in H.
      assert (0 <= fraction) by (unfold fraction; lia).
      lia.
  - intros Hnf Hlast. rewrite Hparse. unfold float_of_serial.
    fold scale. rewrite Hnum, Hlast.
    pose proof (digits_value_bound fr Hfr). fold fraction scale in H.
    assert (0 <= fraction) by (unfold fraction; lia).
    change (mkdate 9999 12 31) with (ord2ymd (epoch_ordinal + 2958465)).
    apply serial_date_last_day; [exact Hscale|lia].
Qed.

Lemma C6_serial_date_witness :
  parse_date (fun _ => Raise ValueError_InvalidDate) (CText (lit " 45000 "))
  = Ok (mkdate 2023 3 15)
  /\ parse_date (fun _ => Raise ValueError_InvalidDate)
       (CText (lit "44927.99999999999"))
     = Ok (mkdate 2023 1 1)
  /\ parse_date (fun _ => Raise ValueError_InvalidDate) (CText (lit "44927"))
     = Ok (mkdate 2023 1 1).
Proof.
  split; [|split].
  - destruct (C6_serial_date (fun _ => Raise ValueError_InvalidDate)
                (lit " 45000 ") (lit "45000") [])
      as [Hwhole _].
    + apply serial_whole; [discriminate|].
      repeat (constructor; [reflexivity|]). constructor.
    + rewrite Hwhole; reflexivity.
  - destruct (C6_serial_date (fun _ => Raise ValueError_InvalidDate)
                (lit "44927.99999999999") (lit "44927") (lit "99999999999"))
      as [_ [Hcut _]].
    + apply (serial_fraction (lit "44927") (lit "99999999999"));
        try discriminate;
        repeat (constructor; [reflexivity|]); constructor.
    + rewrite (Hcut 37).
      * reflexivity.
      * vm_compute. discriminate.
      * lia.
      * vm_compute. discriminate.
      * vm_compute. discriminate.
  - destruct (C6_serial_date (fun _ => Raise ValueError_InvalidDate)
                (lit "44927") (lit "44927") [])
      as [_ [_ [_ [_ [_ [Hserial _]]]]]].
    + apply serial_whole; [discriminate|].
      repeat (constructor; [reflexivity|]). constructor.
    + exact Hserial.
Defined.

(** C6 does not hold as the specification words it.  A run of digits past
    2958465 is no date: "2958466", and the compact date "20230101" read as a
    serial, raise [OverflowError].  And a fraction is not always cut off:
    "1.999999999999" is less than half a microsecond before day 2 and comes
    back as 1900-01-01, the date of day 2, not as 1899-12-31, that of
    day 1; and "2958464.9999999998", less than [2^-32] of a day before day
    2958465, is that whole number as a float and comes back as 9999-12-31,
    not as 9999-12-30. *)
Lemma C6_out_of_range_and_carry_counterexample :
  (forall pd, parse_date pd (CText (lit "2958466")) = Raise OverflowError)
  /\ (forall pd, parse_date pd (CText (lit "20230101")) = Raise OverflowError)
  /\ (forall pd, parse_date pd (CText (lit "1.999999999999"))
                 = Ok (mkdate 1900 1 1))
  /\ ord2ymd (epoch_ordinal + 1) = mkdate 1899 12 31
  /\ mkdate 1900 1 1 <> mkdate 1899 12 31
  /\ (forall pd, parse_date pd (CText (lit "2958464.9999999998"))
                 = Ok (mkdate 9999 12 31))
  /\ ord2ymd (epoch_ordinal + 2958464) = mkdate 9999 12 30
  /\ mkdate 9999 12 31 <> mkdate 9999 12 30.
Proof.
  repeat split; try (intros pd; vm_compute; reflexivity);
    try (vm_compute; reflexivity); discriminate.
Qed.

(** * Further properties of the parsers *)

(** ** The batch parser, cell by cell *)

(** The suffix rows first and the scatter after give what one pass over the
    cells gives, the same exception included. *)
Lemma scatter_one_pass (cleaned : list str) :
  (rs <- mapM process_suffix
           (map (extract_suffix []) (filter suffix_mask cleaned)) ;;
   Ok (scatter cleaned rs))
  = mapM (fun c => if suffix_mask c
                   then process_suffix (extract_suffix [] c)
                   else Ok (process_standard c)) cleaned.
Proof.
  induction cleaned as [|c cs IH]; [reflexivity|].
  cbn [filter mapM]. rewrite <- IH. clear IH.
  destruct (suffix_mask c) eqn:Em.
  - cbn [map mapM].
    destruct (process_suffix (extract_suffix [] c)) as [b|e]; cbn [bind];
      [|reflexivity].
    destruct (mapM process_suffix
                (map (extract_suffix []) (filter suffix_mask cs)))
      as [bs|e]; cbn [bind scatter]; [|reflexivity].
    rewrite Em. reflexivity.
  - cbn [bind].
    destruct (mapM process_suffix
                (map (extract_suffix []) (filter suffix_mask cs)))
      as [bs|e]; cbn [bind scatter]; [|reflexivity].
    rewrite Em. reflexivity.
Qed.

(** The batch parser as two passes over the cells: values, then signs. *)
Lemma batch_two_passes (series : list RawCell) :
  parse_amount_vectorized series
  = (xs <- mapM (fun c => if suffix_mask c
                          then process_suffix (extract_suffix [] c)
                          else Ok (process_standard c))
             (map (fun v => batch_clean (strip (str_of v))) series) ;;
     ys <- apply_signs xs (map (fun v => batch_sign (strip (str_of v))) series) ;;
     Ok (map keep_notna ys)).
Proof.
  destruct series as [|v series]; [reflexivity|].
  unfold parse_amount_vectorized.
  rewrite !map_map. rewrite <- scatter_one_pass.
  destruct (mapM process_suffix _) as [rs|e]; reflexivity.
Qed.

Lemma batch_cons (v : RawCell) (series : list RawCell) (out : list (option decimal)) :
  parse_amount_vectorized (v :: series) = Ok out
  <-> exists r out', out = r :: out' /\ batch_cell v = Ok r
                     /\ parse_amount_vectorized series = Ok out'.
Proof.
  rewrite !batch_two_passes. cbn [map mapM]. unfold batch_cell.
  set (c := batch_clean (strip (str_of v))).
  set (sg := batch_sign (strip (str_of v))).
  destruct (if suffix_mask c then process_suffix (extract_suffix [] c)
            else Ok (process_standard c)) as [x|e]; cbn [bind].
  2:{ split; [discriminate|]. intros [r [out' [_ [H _]]]]. discriminate. }
  destruct (mapM _ (map _ series)) as [xs|e]; cbn [bind apply_signs].
  2:{ split; [discriminate|]. intros [r [out' [_ [_ H]]]]. discriminate. }
  destruct (apply_sign x sg) as [y|e]; cbn [bind].
  2:{ split; [discriminate|]. intros [r [out' [_ [H _]]]]. discriminate. }
  destruct (apply_signs xs _) as [ys|e]; cbn [bind map].
  2:{ split; [discriminate|]. intros [r [out' [_ [_ H]]]]. discriminate. }
  split.
  - intros [= <-]. eauto.
  - intros [r [out' [-> [[= <-] [= <-]]]]]. reflexivity.
Qed.

(** X1.  The batch parser returns a column exactly when every cell, parsed
    as a column of its own, returns a value or a null, and the column is
    made of these, in order: no cell's result depends on another cell. *)
Theorem batch_rows_are_independent (series : list RawCell)
  (out : list (option decimal)) :
  parse_amount_vectorized series = Ok out
  <-> Forall2 (fun v r => parse_amount_vectorized [v] = Ok [r]) series out.
Proof.
  revert out. induction series as [|v series IH]; intros out.
  - cbn. split.
    + intros [= <-]. constructor.
    + intros H. inversion H. reflexivity.
  - rewrite batch_cons. split.
    + intros [r [out' [-> [Hr Hout]]]]. constructor.
      * apply batch_cons. exists r, []. auto.
      * apply IH. exact Hout.
    + intros H. inversion H as [|? r ? out' Hr Hout]; subst.
      apply batch_cons in Hr as [r' [o' [[= <- <-] [Hr _]]]].
      exists r, out'. split; [reflexivity|]. split; [exact Hr|].
      apply IH. exact Hout.
Qed.

(** X2.  When the batch parser returns, it returns one result for each cell
    of the column. *)
Theorem batch_length (series : list RawCell) (out : list (option decimal)) :
  parse_amount_vectorized series = Ok out ->
  List.length out = List.length series.
Proof.
  revert out. induction series as [|v series IH]; intros out H.
  - injection H as <-. reflexivity.
  - apply batch_cons in H as [r [out' [-> [_ Hout]]]].
    cbn [List.length]. rewrite (IH out' Hout). reflexivity.
Qed.

(** X3.  When the batch parser returns, a null cell ([None] or NaN) comes
    back as a null, wherever it stands in the column. *)
Theorem batch_null_cells (series : list RawCell) (out : list (option decimal))
  (i : nat) (v : RawCell) :
  parse_amount_vectorized series = Ok out ->
  nth_error series i = Some v -> isna v = true ->
  nth_error out i = Some None.
Proof.
  revert out i. induction series as [|v' series IH]; intros out i H Hi Hv.
  - destruct i; discriminate.
  - apply batch_cons in H as [r [out' [-> [Hr Hout]]]].
    destruct i as [|i]; cbn [nth_error] in *.
    + injection Hi as ->. destruct v; try discriminate;
        vm_compute in Hr; injection Hr as <-; reflexivity.
    + exact (IH out' i Hout Hi Hv).
Qed.

Lemma batch_single (v : RawCell) :
  parse_amount_vectorized [v]
  = match batch_cell v with
    | Ok r => Ok [r]
    | Raise e => Raise e
    end.
Proof.
  destruct (batch_cell v) as [r|e] eqn:E.
  - apply batch_cons. exists r, []. auto.
  - destruct (parse_amount_vectorized [v]) as [out|e'] eqn:E'.
    + apply batch_cons in E' as [r [out' [_ [Hr _]]]]. congruence.
    + f_equal. rewrite batch_two_passes in E'. cbn [map mapM] in E'.
      unfold batch_cell in E.
      destruct (if suffix_mask (batch_clean (strip (str_of v)))
                then process_suffix
                       (extract_suffix [] (batch_clean (strip (str_of v))))
                else Ok (process_standard (batch_clean (strip (str_of v)))))
        as [x|e1]; cbn [bind apply_signs] in *; [|congruence].
      destruct (apply_sign x (batch_sign (strip (str_of v)))) as [y|e2];
        cbn [bind] in *; congruence.
Qed.

(** X4.  The batch call raises exactly when one of its cells, as a column
    of its own, makes it raise. *)
Theorem batch_raises_with_a_cell (series : list RawCell) :
  (exists e, parse_amount_vectorized series = Raise e)
  <-> Exists (fun v => exists e, parse_amount_vectorized [v] = Raise e) series.
Proof.
  induction series as [|v series IH].
  - split.
    + intros [e H]. discriminate.
    + intros H. inversion H.
  - split.
    + intros [e H].
      destruct (parse_amount_vectorized [v]) as [o|e1] eqn:E1;
        [|left; eauto].
      right. apply IH.
      destruct (parse_amount_vectorized series) as [out'|e2] eqn:E2;
        [|eauto].
      exfalso.
      rewrite batch_single in E1.
      destruct (batch_cell v) as [r|] eqn:Er; [|discriminate].
      assert (Hok : parse_amount_vectorized (v :: series) = Ok (r :: out')).
      { apply batch_cons. eauto. }
      congruence.
    + intros H.
      destruct (parse_amount_vectorized (v :: series)) as [out|e] eqn:E;
        [|eauto].
      exfalso. apply batch_cons in E as [r [out' [-> [Hr Hout]]]].
      inversion H as [? ? [e He]|? ? Hex]; subst.
      * rewrite batch_single, Hr in He. discriminate.
      * apply IH in Hex as [e He]. congruence.
Qed.

Lemma batch_length_witness :
  List.length [Some (Fin true 15 (-1)); None; Some (Fin false 2000 0)]
  = List.length [CText (lit "(1.5)"); CNone; CText (lit "2K")].
Proof.
  apply (batch_length [CText (lit "(1.5)"); CNone; CText (lit "2K")]
           [Some (Fin true 15 (-1)); None; Some (Fin false 2000 0)]).
  reflexivity.
Defined.

Lemma batch_null_cells_witness :
  nth_error [Some (Fin false 7 0); None] 1 = Some None.
Proof.
  apply (batch_null_cells [CText (lit "7"); CNaN] [Some (Fin false 7 0); None]
           1 CNaN); reflexivity.
Defined.

(** ** What [detect] reports *)

Section DetectInvariants.

Variable numeric_in_serial_window : list RawCell -> bool.
Variable serial_success_rate : list RawCell -> option double.
Variable format_success_rate : string -> list str -> option double.
Variable generic_success_rate : list str -> option double.

Lemma try_formats_early_return (fmts : list string) (s_str : list str) :
  forall max_success rate,
    try_formats format_success_rate fmts s_str max_success = inl rate ->
    Float.leb date_threshold rate = true.
Proof.
  induction fmts as [|fmt rest IH]; intros max_success rate; cbn [try_formats].
  - discriminate.
  - destruct (format_success_rate fmt s_str) as [r|]; [|apply IH].
    destruct (Float.leb date_threshold r) eqn:E; [|apply IH].
    intros [= <-]. exact E.
Qed.

Lemma try_datetime_success (s : list RawCell) (rate : double) :
  _try_datetime numeric_in_serial_window serial_success_rate
    format_success_rate generic_success_rate s = (true, rate) ->
  Float.leb date_threshold rate = true.
Proof.
  assert (Hafter : after_serial format_success_rate generic_success_rate s
                   = (true, rate) -> Float.leb date_threshold rate = true).
  { unfold after_serial.
    destruct (try_formats _ _ _ _) as [r|m] eqn:Et.
    - intros [= <-]. eapply try_formats_early_return; eauto.
    - destruct (generic_success_rate _) as [r|]; [|discriminate].
      destruct (Float.leb date_threshold r) eqn:E; [|discriminate].
      intros [= <-]. exact E. }
  unfold _try_datetime.
  destruct (numeric_in_serial_window s); [|exact Hafter].
  destruct (serial_success_rate s) as [r|]; [|exact Hafter].
  destruct (Float.leb date_threshold r) eqn:E; [|exact Hafter].
  intros [= <-]. exact E.
Qed.

(** X5.  The confidence [detect] reports is never below the bar of the type
    it reports: at least 0.95 with "datetime", at least 0.6 with "number", and
    exactly 1.0 with "str", whatever the cells and the date conversions. *)
Theorem detect_confidence_meets_threshold (series : list RawCell) :
  match detect numeric_in_serial_window serial_success_rate
          format_success_rate generic_success_rate series with
  | (Datetime, conf) => Float.leb date_threshold conf = true
  | (Number, conf) => Float.leb MIN_CONFIDENCE conf = true
  | (Str, conf) => conf = one
  end.
Proof.
  unfold detect. destruct (dropna series) as [|v s]; [reflexivity|].
  destruct (_try_datetime _ _ _ _ (v :: s)) as [dt_succ dt_conf] eqn:Ed.
  destruct dt_succ.
  - eapply try_datetime_success; eauto.
  - unfold _try_number.
    destruct (Float.leb MIN_CONFIDENCE _) eqn:E; [exact E|reflexivity].
Qed.

End DetectInvariants.

(** ** Text without a digit *)

Lemma Forall_dropwhile (P : char -> Prop) (p : char -> bool) (s : str) :
  Forall P s -> Forall P (dropwhile p s).
Proof.
  induction 1 as [|c s Hc Hs IH]; simpl; [constructor|].
  destruct (p c); [exact IH|constructor; assumption].
Qed.

Lemma Forall_strip (P : char -> Prop) (s : str) :
  Forall P s -> Forall P (strip s).
Proof.
  intros H. unfold strip, rstrip, lstrip.
  apply Forall_rev_iff, Forall_dropwhile, Forall_rev_iff, Forall_dropwhile.
  exact H.
Qed.

Lemma Forall_removelast (P : char -> Prop) (s : str) :
  Forall P s -> Forall P (removelast s).
Proof.
  induction 1 as [|c s Hc Hs IH]; simpl; [constructor|].
  destruct s; [constructor|constructor; assumption].
Qed.

Lemma Forall_tl (P : char -> Prop) (s : str) : Forall P s -> Forall P (tl s).
Proof. destruct 1; simpl; [constructor|assumption]. Qed.

Lemma Forall_split_sign (P : char -> Prop) (s : str) :
  Forall P s -> Forall P (snd (split_sign s)).
Proof.
  intros H. unfold split_sign.
  destruct (startswith (ch "(") s && endswith (ch ")") s);
    [|destruct (endswith (ch "-") s); [|destruct (startswith (ch "-") s)]];
    cbn [snd]; auto using Forall_strip, Forall_removelast, Forall_tl.
Qed.

Lemma match_number_has_digit (s : str) :
  match_number s = true -> Exists (fun c => isdigit c = true) s.
Proof.
  unfold match_number.
  set (body := match s with
               | [] => []
               | c :: r => if in_class "+-" c then r else s
               end).
  intros H.
  assert (Hb : Exists (fun c => isdigit c = true) body).
  { pose proof (takewhile_Forall isdigit body) as Ht.
    rewrite (takewhile_dropwhile isdigit body).
    destruct (takewhile isdigit body) as [|d ds]; [discriminate|].
    inversion Ht; subst. left. assumption. }
  subst body. destruct s as [|c r]; [inversion Hb|].
  destruct (in_class "+-" c); [right|]; exact Hb.
Qed.

Lemma match_suffix_has_digit (s : str) (num : str) (l : char) :
  match_suffix s = Some (num, l) -> Exists (fun c => isdigit c = true) s.
Proof.
  unfold match_suffix. destruct (rev s) as [|c before] eqn:E; [discriminate|].
  destruct (in_class "KkMmBb" c); [|discriminate].
  destruct (match_number (rev (dropwhile isspace before))) eqn:Hn;
    [|discriminate].
  intros _. apply match_number_has_digit in Hn.
  apply Exists_exists in Hn as [d [Hin Hd]].
  apply Exists_exists. exists d. split; [|exact Hd].
  apply in_rev. rewrite E. right.
  apply in_rev in Hin.
  rewrite (takewhile_dropwhile isspace before). apply in_or_app. now right.
Qed.

Lemma keep_marks (s : str) :
  Forall (fun c => isdigit c = false) s -> Forall is_mark (keep_amount_chars s).
Proof.
  intros H. unfold keep_amount_chars. apply Forall_forall. intros c Hc.
  apply filter_In in Hc as [Hin Hc]. rewrite Forall_forall in H.
  rewrite (H c Hin) in Hc. exact Hc.
Qed.

Lemma Forall_remove (P : char -> Prop) (c : char) (s : str) :
  Forall P s -> Forall P (remove c s).
Proof.
  intros H. unfold remove. apply Forall_forall. intros x Hx.
  apply filter_In in Hx as [Hx _]. rewrite Forall_forall in H. auto.
Qed.

Lemma Forall_replace (P : char -> Prop) (c d : char) (s : str) :
  P d -> Forall P s -> Forall P (replace c d s).
Proof.
  intros Hd H. unfold replace. induction H as [|x s Hx Hs IH]; simpl;
    [constructor|].
  constructor; [destruct (eqc x c); assumption|exact IH].
Qed.

Lemma Forall_replace_first (P : char -> Prop) (c d : char) (s : str) :
  P d -> Forall P s -> Forall P (replace_first c d s).
Proof.
  intros Hd H. induction H as [|x s Hx Hs IH]; simpl; [constructor|].
  destruct (eqc x c); constructor; assumption.
Qed.

Lemma Forall_regional (P : char -> Prop) (s : str) :
  P (ch ".") -> Forall P s -> Forall P (regional s).
Proof.
  intros Hd H. unfold regional.
  destruct (contains (ch ".") s && contains (ch ",") s).
  - destruct (rfind (ch ",") s <? rfind (ch ".") s);
      auto using Forall_remove, Forall_replace.
  - destruct (contains (ch ",") s); [|exact H].
    destruct (ends_comma_digits s);
      auto using Forall_remove, Forall_replace_first.
Qed.

Lemma Forall_split (P : char -> Prop) (c : char) (s : str) :
  Forall P s -> Forall (Forall P) (split c s).
Proof.
  induction 1 as [|x s Hx Hs IH]; simpl; [repeat constructor|].
  destruct (split c s) as [|h t]; [repeat constructor|].
  inversion IH; subst.
  destruct (eqc x c); repeat constructor; assumption.
Qed.

Lemma Forall_collapse_dots (P : char -> Prop) (s : str) :
  P (ch ".") -> Forall P s -> Forall P (collapse_dots s).
Proof.
  intros Hd H. unfold collapse_dots.
  destruct (1 <? count (ch ".") s)%nat; [|exact H].
  pose proof (Forall_split P (ch ".") s H) as Hparts.
  rewrite Forall_forall in Hparts.
  assert (Hin : forall p, In p (split (ch ".") s) -> Forall P p) by auto.
  destruct (split (ch ".") s) as [|h t] eqn:Es;
    [exfalso; eapply split_nonempty; eauto|].
  unfold first_part, middle_parts, last_part. cbn [hd tl].
  apply Forall_app. split; [apply Hin; now left|].
  apply Forall_app. split.
  - unfold join. apply Forall_concat. apply Forall_forall.
    intros p Hp. apply Hin. right.
    destruct t as [|y t' _] using rev_ind; [inversion Hp|].
    rewrite removelast_last in Hp. apply in_or_app. now left.
  - apply Forall_app. split; [constructor; [exact Hd|constructor]|].
    apply Hin. clear. revert h.
    induction t as [|y t IH]; intros h; [now left|].
    right. apply (IH y).
Qed.

Lemma is_mark_cases (c : char) :
  is_mark c -> c = ch "." \/ c = ch "," \/ c = ch "-".
Proof.
  unfold is_mark, in_class. cbn. intros H.
  repeat (apply orb_true_iff in H as [H|H]);
    try (apply eqc_eq in H; auto); discriminate.
Qed.

Lemma mark_not_digit (c : char) : is_mark c -> isdigit c = false.
Proof. intros H. apply is_mark_cases in H as [->|[->| ->]]; reflexivity. Qed.

Lemma takewhile_marks (s : str) :
  Forall is_mark s -> takewhile isdigit s = [] /\ dropwhile isdigit s = s.
Proof.
  intros H. destruct H as [|c s Hc Hs]; [auto|].
  simpl. rewrite (mark_not_digit c Hc). auto.
Qed.

Lemma str_eqb_head (a b : char) (x y : str) :
  a <> b -> str_eqb (a :: x) (b :: y) = false.
Proof.
  intros H. unfold str_eqb.
  destruct (list_eq_dec N.eq_dec (a :: x) (b :: y)) as [E|]; [|reflexivity].
  injection E as E _. contradiction.
Qed.

Lemma parse_special_marks (neg : bool) (s : str) :
  Forall is_mark s -> parse_special neg s = None.
Proof.
  intros H. unfold parse_special.
  destruct H as [|c s Hc Hs]; [reflexivity|].
  assert (Hl : ascii_lower c = c /\ c <> ch "i" /\ c <> ch "n" /\ c <> ch "s").
  { apply is_mark_cases in Hc as [->|[->| ->]]; repeat split; discriminate. }
  destruct Hl as [Hl [Hi [Hn Hs']]].
  cbn [map]. rewrite Hl.
  replace (str_eqb (c :: map ascii_lower s) (lit "inf")) with false
    by (symmetry; apply str_eqb_head; exact Hi).
  replace (str_eqb (c :: map ascii_lower s) (lit "infinity")) with false
    by (symmetry; apply str_eqb_head; exact Hi).
  cbn [orb].
  destruct (map ascii_lower s) as [|a [|n2 r]]; try reflexivity.
  replace (str_eqb [c; a; n2] (lit "nan")) with false
    by (symmetry; apply str_eqb_head; exact Hn).
  cbn [andb]. destruct r as [|n3 r']; [reflexivity|].
  replace (str_eqb [c; a; n2; n3] (lit "snan")) with false
    by (symmetry; apply str_eqb_head; exact Hs').
  reflexivity.
Qed.

(** [Decimal] refuses a text made of dots, commas and minus signs only. *)
Lemma of_str_marks (s : str) : Forall is_mark s -> of_str s = None.
Proof.
  intros H. unfold of_str.
  assert (Hy : Forall is_mark (remove (ch "_") (strip s)))
    by (apply Forall_remove, Forall_strip; exact H).
  set (y := remove (ch "_") (strip s)) in *.
  assert (Hu : Forall is_mark (snd (unsign y))).
  { unfold unsign. destruct Hy as [|c r Hc Hr]; [constructor|].
    destruct (eqc c (ch "-")); [exact Hr|].
    destruct (eqc c (ch "+")); [exact Hr|]. constructor; assumption. }
  destruct (unsign y) as [neg body]. cbn [snd] in Hu.
  assert (Hfin : parse_finite neg body = None).
  { unfold parse_finite.
    destruct (takewhile_marks body Hu) as [-> ->].
    destruct Hu as [|c r Hc Hr]; [reflexivity|].
    destruct (eqc c (ch ".")); [|reflexivity].
    destruct (takewhile_marks r Hr) as [-> ->]. reflexivity. }
  rewrite Hfin. apply parse_special_marks. exact Hu.
Qed.

(** X6.  A text without a single digit is never an amount: [parse_amount]
    raises the [ValueError] "Invalid amount" on it, and nothing else. *)
Theorem parse_amount_needs_a_digit (t : str) :
  Forall (fun c => isdigit c = false) t ->
  parse_amount (CText t) = Raise ValueError_InvalidAmount.
Proof.
  intros H. unfold parse_amount. cbn [isna str_of].
  pose proof (Forall_split_sign _ _ (Forall_strip _ _ H)) as Hbody.
  destruct (split_sign (strip t)) as [sign body]. cbn [snd] in Hbody.
  destruct (match_suffix body) as [[num l]|] eqn:Hm.
  - apply match_suffix_has_digit in Hm.
    apply Exists_exists in Hm as [d [Hin Hd]].
    rewrite Forall_forall in Hbody. rewrite (Hbody d Hin) in Hd. discriminate.
  - unfold to_decimal. rewrite of_str_marks; [reflexivity|].
    apply Forall_collapse_dots; [reflexivity|].
    apply Forall_regional; [reflexivity|].
    apply keep_marks. exact Hbody.
Qed.

Lemma parse_amount_needs_a_digit_witness :
  parse_amount (CText (lit " (n/a) - K ")) = Raise ValueError_InvalidAmount.
Proof.
  apply parse_amount_needs_a_digit.
  repeat (constructor; [reflexivity|]). constructor.
Defined.

(** ** The negative notations *)

Lemma dropwhile_head (p : char -> bool) (s : str) :
  match dropwhile p s with [] => True | c :: _ => p c = false end.
Proof.
  induction s as [|c s IH]; simpl; [exact I|].
  destruct (p c) eqn:E; [exact IH|exact E].
Qed.

Lemma dropwhile_snoc (p : char -> bool) (a : str) (c : char) :
  p c = false -> dropwhile p (a ++ [c]) = dropwhile p a ++ [c].
Proof.
  intros Hc. induction a as [|x a IH]; simpl; [rewrite Hc; reflexivity|].
  destruct (p x); [exact IH|reflexivity].
Qed.

(** A trimmed text neither starts nor ends with whitespace. *)
Lemma strip_ends (t : str) :
  match strip t with [] => True | c :: _ => isspace c = false end
  /\ match rev (strip t) with [] => True | c :: _ => isspace c = false end.
Proof.
  unfold strip, rstrip, lstrip. split.
  - pose proof (dropwhile_head isspace t) as Hh.
    destruct (dropwhile isspace t) as [|c u]; [exact I|].
    cbn [rev]. rewrite (dropwhile_snoc _ _ _ Hh), rev_app_distr. exact Hh.
  - rewrite rev_involutive. apply dropwhile_head.
Qed.

Lemma strip_idempotent (t : str) : strip (strip t) = strip t.
Proof. destruct (strip_ends t). apply strip_id; assumption. Qed.

Lemma fix_ctx_negate (neg : bool) (c : N) (e : Z) :
  fix_ctx (negb neg) c e = map_result negate (fix_ctx neg c e).
Proof.
  unfold fix_ctx, fix_nonzero.
  destruct (c =? 0)%N; [reflexivity|].
  destruct (Etop <? ndigits c + e - prec); [reflexivity|].
  destruct (e <? Z.max (ndigits c + e - prec) Etiny); [|reflexivity].
  cbv zeta.
  match goal with
  | |- context [if ?b then (_ / 10, _) else _] => destruct b
  end;
    match goal with
    | |- context [if ?b then Raise _ else _] => destruct b
    end; reflexivity.
Qed.

(** The product by -1 is the product by 1 with the sign turned. *)
Lemma to_decimal_negate (s : str) :
  to_decimal (-1) s = map_result negate (to_decimal 1 s).
Proof.
  unfold to_decimal. destruct (of_str s) as [d|]; [|reflexivity].
  destruct d as [neg c e|neg|neg sig p]; cbn [mul_int].
  - change (-1 <? 0) with true. change (1 <? 0) with false.
    change (Z.abs_N (-1)) with 1%N. change (Z.abs_N 1) with 1%N.
    rewrite xorb_true_r, xorb_false_r, fix_ctx_negate.
    destruct (fix_ctx neg (c * 1) e) as [d|[]]; reflexivity.
  - cbn. rewrite xorb_true_r, xorb_false_r. reflexivity.
  - destruct sig; reflexivity.
Qed.

Lemma unsigned_form (x : str) :
  sign_form x 1 x ->
  startswith (ch "(") x && endswith (ch ")") x = false
  /\ endswith (ch "-") x = false /\ startswith (ch "-") x = false.
Proof.
  intros H. apply sign_form_split in H. unfold split_sign in H.
  destruct (startswith (ch "(") x && endswith (ch ")") x); [discriminate|].
  destruct (endswith (ch "-") x); [discriminate|].
  destruct (startswith (ch "-") x); [discriminate|]. auto.
Qed.

Lemma split_sign_wrapped (x : str) :
  strip x = x -> sign_form x 1 x ->
  split_sign (strip (ch "(" :: x ++ [ch ")"])) = (-1, x)
  /\ split_sign (strip (x ++ [ch "-"])) = (-1, x)
  /\ (x <> [] -> split_sign (strip (ch "-" :: x)) = (-1, x)).
Proof.
  intros Hx Hu. apply unsigned_form in Hu as [_ [Ht _]].
  assert (Hhead : match x with [] => True | c :: _ => isspace c = false end).
  { rewrite <- Hx. apply strip_ends. }
  assert (Hlast : match rev x with [] => True | c :: _ => isspace c = false end).
  { rewrite <- Hx. apply strip_ends. }
  repeat split.
  - rewrite strip_id.
    + rewrite <- Hx at 2. apply sign_form_split. constructor.
    + reflexivity.
    + change (ch "(" :: x ++ [ch ")"]) with ((ch "(" :: x) ++ [ch ")"]).
      rewrite rev_app_distr. reflexivity.
  - rewrite strip_id.
    + rewrite <- Hx at 2. apply sign_form_split. constructor.
    + destruct x; [reflexivity|exact Hhead].
    + rewrite rev_app_distr. reflexivity.
  - intros Hne. rewrite strip_id.
    + rewrite <- Hx at 2. apply sign_form_split. constructor.
      rewrite endswith_cons by exact Hne. exact Ht.
    + reflexivity.
    + cbn [rev]. destruct (rev x) as [|c r] eqn:E; [|exact Hlast].
      apply (f_equal (@rev char)) in E. rewrite rev_involutive in E.
      contradiction.
Qed.

(** X7.  The three negative notations agree.  For a trimmed text [x] without
    a sign that is no magnitude form, "(x)", "x-" and "-x" all parse to what
    [x] parses to with the sign turned, and fail when [x] fails.  On a
    magnitude form they have no effect: "(x)", "x-" and "-x" parse to what
    [x] parses to. *)
Theorem negative_notations (t : str) :
  let x := strip t in
  sign_form x 1 x -> x <> [] ->
  let effect := match match_suffix x with
                | None => map_result negate
                | Some _ => fun r => r
                end in
  parse_amount (CText (ch "(" :: x ++ [ch ")"]))
  = effect (parse_amount (CText t))
  /\ parse_amount (CText (x ++ [ch "-"])) = effect (parse_amount (CText t))
  /\ parse_amount (CText (ch "-" :: x)) = effect (parse_amount (CText t)).
Proof.
  intros x Hu Hne effect.
  destruct (split_sign_wrapped x (strip_idempotent t) Hu) as [H1 [H2 H3]].
  specialize (H3 Hne).
  assert (Hplain : split_sign (strip t) = (1, x))
    by (apply sign_form_split; exact Hu).
  unfold parse_amount. cbn [isna str_of].
  rewrite H1, H2, H3, Hplain. subst effect.
  destruct (match_suffix x) as [[num l]|].
  - auto.
  - rewrite to_decimal_negate. auto.
Qed.

Lemma negative_notations_witness :
  parse_amount (CText (lit "($1,234.50)")) = Ok (Fin true 123450 (-2))
  /\ parse_amount (CText (lit "$1,234.50-")) = Ok (Fin true 123450 (-2))
  /\ parse_amount (CText (lit "-$1,234.50")) = Ok (Fin true 123450 (-2)).
Proof.
  apply (negative_notations (lit " $1,234.50 ")).
  - apply form_unsigned; reflexivity.
  - discriminate.
Defined.

(** ** Amounts in the US format *)

Lemma filter_filter {A} (f g : A -> bool) (l : list A) :
  filter f (filter g l) = filter (fun x => g x && f x) l.
Proof.
  induction l as [|x l IH]; simpl; [reflexivity|].
  destruct (g x); simpl; [destruct (f x)|]; rewrite IH; reflexivity.
Qed.

Lemma filter_pointwise {A} (f g : A -> bool) (l : list A) :
  Forall (fun x => f x = g x) l -> filter f l = filter g l.
Proof.
  induction 1 as [|x l Hx _ IH]; simpl; [reflexivity|].
  rewrite Hx, IH. reflexivity.
Qed.

Lemma filter_none {A} (f : A -> bool) (l : list A) :
  Forall (fun x => f x = false) l -> filter f l = [].
Proof.
  induction 1 as [|x l Hx _ IH]; simpl; [reflexivity|].
  rewrite Hx, IH. reflexivity.
Qed.

Lemma not_among (p : char -> bool) (l : list N) (c : char) :
  forallb (fun x => negb (p x)) l = true -> p c = true ->
  existsb (eqc c) l = false.
Proof.
  intros Hl Hc. induction l as [|x l IH]; simpl in *; [reflexivity|].
  apply andb_true_iff in Hl as [Hx Hl].
  rewrite (IH Hl), orb_false_r.
  destruct (eqc c x) eqn:E; [|reflexivity].
  apply eqc_eq in E. subst x. rewrite Hc in Hx. discriminate.
Qed.

Lemma digit_is_not (c x : char) :
  isdigit c = true -> isdigit x = false -> eqc c x = false.
Proof.
  intros Hc Hx. destruct (eqc c x) eqn:E; [|reflexivity].
  apply eqc_eq in E. subst x. rewrite Hc in Hx. discriminate.
Qed.

(** A leading character is dropped by both parsers and is none of the marks
    of a sign. *)
Lemma lead_facts (c : char) :
  lead c ->
  isdigit c || in_class ".,-" c = false
  /\ negb (is_currency_or_comma c) && negb (isspace c) = false
  /\ eqc c (ch "(") = false /\ eqc c (ch "-") = false.
Proof.
  intros [H|H].
  - unfold currency_sign in H. simpl in H.
    repeat (destruct H as [<-|H]; [vm_compute; auto|]). contradiction.
  - apply isspace_enum in H. simpl in H.
    repeat (destruct H as [<-|H]; [vm_compute; auto|]). contradiction.
Qed.

Lemma digit_facts (c : char) :
  isdigit c = true ->
  isdigit c || in_class ".,-" c = true
  /\ negb (is_currency_or_comma c) && negb (isspace c) = true
  /\ eqc c (ch "(") = false /\ eqc c (ch "-") = false
  /\ eqc c (ch ".") = false /\ eqc c (ch ",") = false
  /\ in_class "KkMmBb" c = false /\ is_KMB_ignorecase c = false.
Proof.
  intros H.
  assert (Hk : in_class "KkMmBb" c = false)
    by (apply isdigit_not_in; [reflexivity|exact H]).
  repeat split.
  - rewrite H. reflexivity.
  - rewrite (isdigit_not_space c H). unfold is_currency_or_comma.
    rewrite (not_among isdigit _ c); [reflexivity|reflexivity|exact H].
  - apply digit_is_not; [exact H|reflexivity].
  - apply digit_is_not; [exact H|reflexivity].
  - apply digit_is_not; [exact H|reflexivity].
  - apply digit_is_not; [exact H|reflexivity].
  - exact Hk.
  - unfold is_KMB_ignorecase. rewrite Hk.
    apply digit_is_not; [exact H|reflexivity].
Qed.

Lemma grouped_facts (c : char) :
  grouped c ->
  isdigit c || in_class ".,-" c = true
  /\ negb (is_currency_or_comma c) && negb (isspace c) = negb (eqc c (ch ","))
  /\ eqc c (ch "(") = false /\ eqc c (ch "-") = false
  /\ eqc c (ch ".") = false.
Proof.
  intros [H| ->]; [|vm_compute; auto].
  destruct (digit_facts c H) as [H1 [H2 [H3 [H4 [H5 [H6 _]]]]]].
  rewrite H6. auto.
Qed.

(** What is left of a US-format text by [keep_amount_chars]. *)
Lemma us_keep_amount_chars (cur p q : str) :
  Forall lead cur -> Forall grouped p -> Forall is_digit q ->
  keep_amount_chars (cur ++ p ++ ch "." :: q) = p ++ ch "." :: q.
Proof.
  intros Hc Hp Hq. unfold keep_amount_chars.
  rewrite !filter_app. cbn [filter].
  rewrite (filter_none _ cur), (filter_id _ p), (filter_id _ q);
    [reflexivity| | |].
  - eapply Forall_impl; [|exact Hq]. intros c H. apply (digit_facts c H).
  - eapply Forall_impl; [|exact Hp]. intros c H. apply (grouped_facts c H).
  - eapply Forall_impl; [|exact Hc]. intros c H. apply (lead_facts c H).
Qed.

(** What is left of it by the first two substitutions of the batch parser. *)
Lemma us_batch_filters (cur p q : str) :
  Forall lead cur -> Forall grouped p -> Forall is_digit q ->
  filter (fun c => negb (isspace c))
    (filter (fun c => negb (is_currency_or_comma c)) (cur ++ p ++ ch "." :: q))
  = remove (ch ",") p ++ ch "." :: q.
Proof.
  intros Hc Hp Hq. rewrite filter_filter, !filter_app. cbn [filter].
  change (negb (is_currency_or_comma (ch ".")) && negb (isspace (ch ".")))
    with true. cbv iota.
  rewrite (filter_none _ cur), (filter_id _ q).
  - cbn [app]. f_equal. unfold remove. apply filter_pointwise.
    eapply Forall_impl; [|exact Hp]. intros c H. apply (grouped_facts c H).
  - eapply Forall_impl; [|exact Hq]. intros c H. apply (digit_facts c H).
  - eapply Forall_impl; [|exact Hc]. intros c H. apply (lead_facts c H).
Qed.

Lemma unparen_id (prefix s : str) :
  ~ In (ch "(") s -> unparen prefix None s = s.
Proof.
  induction s as [|c s IH]; intros Hs; [reflexivity|].
  cbn [unparen]. rewrite eqc_neq.
  - rewrite IH; [reflexivity|]. intros H. apply Hs. now right.
  - intros ->. apply Hs. now left.
Qed.

(** A text that ends in a digit is left alone by the substitution of the
    trailing minus; one that starts with a digit by that of the leading
    minus. *)
Lemma drop_trailing_minus_digit (front : str) (d : char) :
  isdigit d = true -> drop_trailing_minus (front ++ [d]) = front ++ [d].
Proof.
  intros Hd. unfold drop_trailing_minus. rewrite rev_app_distr. cbn [rev app].
  destruct (rev front) as [|y r]; [reflexivity|].
  rewrite (digit_is_not d (ch "-") Hd eq_refl). reflexivity.
Qed.

Lemma fix_ctx_exact (neg : bool) (c : N) (e : Z) :
  Z.of_N c < 10 ^ 28 -> -1000026 <= e <= 0 ->
  fix_ctx neg c e = Ok (Fin neg c e).
Proof.
  intros Hc He. unfold fix_ctx.
  destruct (c =? 0)%N eqn:E0.
  - apply N.eqb_eq in E0. subst c. do 2 f_equal.
    unfold Etiny, Emin, Emax, prec. lia.
  - unfold fix_nonzero.
    pose proof (ndigits_le c 28 Hc ltac:(lia)) as Hn.
    destruct (Etop <? ndigits c + e - prec) eqn:E1.
    { apply Z.ltb_lt in E1. unfold Etop, Emax, prec in E1. lia. }
    destruct (e <? Z.max (ndigits c + e - prec) Etiny) eqn:E2;
      [|reflexivity].
    apply Z.ltb_lt in E2. unfold Etiny, Emin, prec in E2. lia.
Qed.

(** [sign * Decimal(s)] on digits, a point and digits, 28 digits at most:
    the digits are the coefficient and the decimals count the exponent. *)
Lemma to_decimal_exact (ip fp : str) :
  ip <> [] -> Forall is_digit ip -> fp <> [] -> Forall is_digit fp ->
  (List.length (ip ++ fp) <= 28)%nat ->
  of_str (ip ++ ch "." :: fp)
  = Some (Fin false (digits_value (ip ++ fp)) (- Z.of_nat (List.length fp)))
  /\ mul_int (Fin false (digits_value (ip ++ fp))
                (- Z.of_nat (List.length fp))) 1
     = Ok (Fin false (digits_value (ip ++ fp)) (- Z.of_nat (List.length fp))).
Proof.
  intros Hne Hip Hfne Hfp Hlen.
  assert (Hv : Z.of_N (digits_value (ip ++ fp)) < 10 ^ 28).
  { eapply Z.lt_le_trans.
    - apply digits_value_bound. apply Forall_app. split; assumption.
    - apply Z.pow_le_mono_r; lia. }
  assert (He : -1000026 <= - Z.of_nat (List.length fp) <= 0).
  { rewrite length_app in Hlen. lia. }
  split.
  - apply (numeral_of_str ([] ++ ip ++ ch "." :: fp) false ip fp).
    + apply numeral_point; [constructor|assumption..].
    + apply representable_small; assumption.
  - cbn [mul_int]. change (1 <? 0) with false. change (Z.abs_N 1) with 1%N.
    rewrite N.mul_1_r. apply fix_ctx_exact; assumption.
Qed.

Lemma remove_grouped (p : str) :
  Forall grouped p -> Forall is_digit (remove (ch ",") p).
Proof.
  induction 1 as [|c p Hc _ IH]; [constructor|].
  unfold remove. cbn [filter].
  destruct (eqc c (ch ",")) eqn:E; cbn [negb]; [exact IH|].
  constructor; [|exact IH].
  destruct Hc as [H| ->]; [exact H|]. rewrite eqc_refl in E. discriminate.
Qed.

Lemma digits_notin (c : char) (s : str) :
  isdigit c = false -> Forall is_digit s -> ~ In c s.
Proof.
  intros Hc Hs Hin. rewrite Forall_forall in Hs. apply Hs in Hin.
  unfold is_digit in Hin. rewrite Hc in Hin. discriminate.
Qed.

Lemma count_digits (c : char) (s : str) :
  isdigit c = false -> Forall is_digit s -> count c s = 0%nat.
Proof.
  intros Hc Hs. unfold count. rewrite filter_none; [reflexivity|].
  eapply Forall_impl; [|exact Hs]. intros x Hx.
  destruct (eqc c x) eqn:E; [|reflexivity].
  apply eqc_eq in E. subst x. unfold is_digit in Hx. rewrite Hc in Hx.
  discriminate.
Qed.

(** X8.  An amount in the US format is read exactly, and alike by both
    parsers.  The text, once trimmed, is currency signs and whitespace, a
    whole part of digits and grouping commas, a point and decimals, with 28
    digits at most: [parse_amount] returns the decimal whose coefficient is
    the digits and whose exponent counts the decimals (zeros at the end
    kept), and [parse_amount_vectorized] returns the same for the cell. *)
Theorem us_amount_exact (t cur p q : str) :
  strip t = cur ++ p ++ ch "." :: q ->
  Forall lead cur -> Forall grouped p -> Forall is_digit q ->
  remove (ch ",") p <> [] -> q <> [] ->
  (List.length (remove (ch ",") p ++ q) <= 28)%nat ->
  let value := Fin false (digits_value (remove (ch ",") p ++ q))
                 (- Z.of_nat (List.length q)) in
  parse_amount (CText t) = Ok value
  /\ parse_amount_vectorized [CText t] = Ok [Some value].
Proof.
  intros Hx Hcur Hp Hq Hne Hqne Hlen value.
  set (ip := remove (ch ",") p) in *.
  assert (Hip : Forall is_digit ip) by (apply remove_grouped; exact Hp).
  destruct (to_decimal_exact ip q Hne Hip Hqne Hq Hlen) as [Hof Hmul].
  fold value in Hof, Hmul.
  destruct (exists_last Hqne) as [q' [dl Eq]].
  assert (Hdl : isdigit dl = true).
  { rewrite Eq in Hq. apply Forall_app in Hq as [_ Hq].
    inversion Hq; assumption. }
  destruct (digit_facts dl Hdl) as [_ [_ [Hd1 [Hd2 [_ [_ [Hd3 Hd4]]]]]]].
  (* the head of the text is no mark of a sign *)
  assert (Hhead : startswith (ch "(") (strip t) = false
                  /\ startswith (ch "-") (strip t) = false).
  { rewrite Hx. destruct cur as [|c cur'].
    - destruct p as [|c p'].
      + vm_compute. auto.
      + inversion Hp as [|? ? Hc _]; subst.
        destruct (grouped_facts c Hc) as [_ [_ [H1 [H2 _]]]]. simpl. auto.
    - inversion Hcur as [|? ? Hc _]; subst.
      destruct (lead_facts c Hc) as [_ [_ [H1 H2]]]. simpl. auto. }
  destruct Hhead as [Hh1 Hh2].
  assert (Hlast : strip t = (cur ++ p ++ ch "." :: q') ++ [dl]).
  { rewrite Hx, Eq, <- !app_assoc. reflexivity. }
  assert (Ht1 : endswith (ch "-") (strip t) = false).
  { rewrite Hlast, endswith_snoc. exact Hd2. }
  assert (Hdot : regional (p ++ ch "." :: q) = remove (ch ",") (p ++ ch "." :: q)).
  { destruct (in_dec N.eq_dec (ch ",") p) as [Hin|Hnin].
    - apply regional_dot_last; [exact Hin| |];
        apply digits_notin; [reflexivity|exact Hq|reflexivity|exact Hq].
    - assert (Hno : ~ In (ch ",") (p ++ ch "." :: q)).
      { intros H. apply in_app_or in H as [H|[H|H]];
          [contradiction|discriminate|].
        revert H. apply digits_notin; [reflexivity|exact Hq]. }
      rewrite (remove_notin _ _ Hno). unfold regional.
      apply contains_false in Hno. rewrite Hno, andb_false_r. reflexivity. }
  assert (Hclean : collapse_dots (regional (p ++ ch "." :: q)) = ip ++ ch "." :: q).
  { rewrite Hdot, remove_app. unfold remove at 2. cbn [filter].
    change (negb (eqc (ch ".") (ch ","))) with true. cbv iota.
    fold (remove (ch ",") q). fold ip.
    rewrite (remove_notin (ch ",") q)
      by (apply digits_notin; [reflexivity|exact Hq]).
    rewrite collapse_dots_last
      by (apply digits_notin; [reflexivity|exact Hq]).
    rewrite remove_notin
      by (apply digits_notin; [reflexivity|exact Hip]).
    reflexivity. }
  split.
  - unfold parse_amount. cbn [isna str_of].
    unfold split_sign. rewrite Hh1, Ht1, Hh2. cbn [andb].
    assert (Hs : match_suffix (strip t) = None).
    { unfold match_suffix. rewrite Hlast, rev_app_distr. cbn [rev app].
      rewrite Hd3. reflexivity. }
    rewrite Hs, Hx, us_keep_amount_chars by assumption.
    rewrite Hclean. unfold to_decimal. rewrite Hof, Hmul. reflexivity.
  - rewrite batch_single. unfold batch_cell. cbn [str_of].
    assert (Hsign : batch_sign (strip t) = 1).
    { unfold batch_sign. rewrite Hh1, Ht1, Hh2. reflexivity. }
    assert (Hbc : batch_clean (strip t) = ip ++ ch "." :: q).
    { unfold batch_clean. rewrite Hx, us_batch_filters by assumption.
      fold ip. rewrite unparen_id.
      2:{ intros H. apply in_app_or in H as [H|[H|H]].
          - revert H. apply digits_notin; [reflexivity|exact Hip].
          - discriminate.
          - revert H. apply digits_notin; [reflexivity|exact Hq]. }
      rewrite Eq.
      replace (ip ++ ch "." :: q' ++ [dl]) with ((ip ++ ch "." :: q') ++ [dl])
        by (rewrite <- app_assoc; reflexivity).
      rewrite drop_trailing_minus_digit by exact Hdl.
      destruct (head_digit_unsigned ip (ch "." :: q') Hne Hip) as [d [r [E Hd]]].
      rewrite E. cbn [app drop_leading_minus].
      rewrite (digit_is_not d (ch "-") Hd eq_refl). reflexivity. }
    rewrite Hbc, Hsign.
    assert (Hmask : suffix_mask (ip ++ ch "." :: q) = false).
    { unfold suffix_mask. rewrite Eq.
      replace (ip ++ ch "." :: q' ++ [dl]) with ((ip ++ ch "." :: q') ++ [dl])
        by (rewrite <- app_assoc; reflexivity).
      rewrite rev_app_distr. cbn [rev app]. exact Hd4. }
    rewrite Hmask.
    assert (Hstd : process_standard (ip ++ ch "." :: q) = Some value).
    { unfold process_standard.
      assert (Hno : ~ In (ch ",") (ip ++ ch "." :: q)).
      { intros H. apply in_app_or in H as [H|[H|H]].
        - revert H. apply digits_notin; [reflexivity|exact Hip].
        - discriminate.
        - revert H. apply digits_notin; [reflexivity|exact Hq]. }
      pose proof Hno as Hc. apply contains_false in Hc.
      rewrite Hc, andb_false_r. cbn [andb].
      rewrite (remove_notin _ _ Hno). exact Hof. }
    rewrite Hstd. cbn [bind apply_sign]. rewrite Hmul. reflexivity.
Qed.

Lemma us_amount_exact_witness :
  parse_amount (CText (lit "  $ 1,234,567.50 "))
  = Ok (Fin false 123456750 (-2))
  /\ parse_amount_vectorized [CText (lit "  $ 1,234,567.50 ")]
     = Ok [Some (Fin false 123456750 (-2))].
Proof.
  apply (us_amount_exact (lit "  $ 1,234,567.50 ") (lit "$ ")
           (lit "1,234,567") (lit "50")).
  - reflexivity.
  - constructor; [left; cbv; tauto|].
    constructor; [right; reflexivity|constructor].
  - repeat (constructor; [(left; reflexivity) || (right; reflexivity)|]).
    constructor.
  - repeat constructor.
  - discriminate.
  - discriminate.
  - vm_compute. lia.
Defined.

(** ** Dates written with digits *)

Lemma below_cases (P : Z -> Prop) (n : nat) :
  (forall k, (k < n)%nat -> P (Z.of_nat k)) ->
  forall a, 0 <= a < Z.of_nat n -> P a.
Proof. intros H a Ha. rewrite <- (Z2Nat.id a) by lia. apply H. lia. Qed.

Tactic Notation "each_below" integer(n) :=
  intros ? ?;
  do n (match goal with
        | k : nat |- _ => destruct k as [|?]; [vm_compute; repeat split; auto|]
        end);
  exfalso; lia.

Ltac euclid := Z.to_euclidean_division_equations; lia.

(** An ASCII digit is a digit with its value, and is the first letter of
    none of the words the date patterns look for. *)
Lemma digit_char_facts (k : Z) :
  0 <= k < 10 ->
  isdigit (digit_char k) = true
  /\ any_digit (digit_char k) = Some k
  /\ isspace (digit_char k) = false
  /\ eqc (ascii_upper (digit_char k)) (ch "Q") = false
  /\ (forall r, match_word (lit "Quarter") (digit_char k :: r) = None)
  /\ (forall r, alt_name abbreviated_months (digit_char k :: r) = [])
  /\ (forall r, alt_name full_months (digit_char k :: r) = []).
Proof.
  intros Hk. pattern k. apply (below_cases _ 10%nat); [|simpl; lia]. each_below 10.
Qed.

Lemma digit_char_isdigit (k : Z) : 0 <= k < 10 -> isdigit (digit_char k) = true.
Proof. intros H. apply (digit_char_facts k H). Qed.

(** [%d] on two digits: the number when it is a day, and then the first
    digit alone when it is not 0. *)
Lemma alt_d_two (a : Z) :
  0 <= a < 100 ->
  forall r,
    alt_d (two_digits a ++ r)
    = (if (1 <=? a) && (a <=? 31) then [(a, r)] else [])
      ++ (if 10 <=? a then [(a / 10, digit_char (a mod 10) :: r)] else []).
Proof.
  intros Ha. pattern a. apply (below_cases _ 100%nat); [|simpl; lia]. each_below 100.
Qed.

Lemma alt_m_two (a : Z) :
  0 <= a < 100 ->
  forall r,
    alt_m (two_digits a ++ r)
    = (if (1 <=? a) && (a <=? 12) then [(a, r)] else [])
      ++ (if 10 <=? a then [(a / 10, digit_char (a mod 10) :: r)] else []).
Proof.
  intros Ha. pattern a. apply (below_cases _ 100%nat); [|simpl; lia]. each_below 100.
Qed.

Lemma two_any_digits (a : Z) (r : str) :
  0 <= a < 100 -> two any_digit any_digit (two_digits a ++ r) = [(a, r)].
Proof.
  intros Ha. unfold two_digits. cbn [app two].
  destruct (digit_char_facts (a / 10)) as [_ [-> _]]; [euclid|].
  destruct (digit_char_facts (a mod 10)) as [_ [-> _]]; [euclid|].
  do 2 f_equal. euclid.
Qed.

(** [%Y] on four digits. *)
Lemma alt_Y_four (y : Z) (r : str) :
  0 <= y < 10000 -> alt_Y (four_digits y ++ r) = [(y, r)].
Proof.
  intros Hy. unfold alt_Y, four_digits. rewrite <- app_assoc.
  rewrite two_any_digits by euclid. cbn [flat_map].
  rewrite two_any_digits by euclid. cbn [map app].
  do 2 f_equal. euclid.
Qed.

(** [%Y] needs four digits. *)
Lemma alt_Y_two (a : Z) (x : char) (r : str) :
  0 <= a < 100 -> isdigit x = false ->
  alt_Y (two_digits a ++ x :: r) = [].
Proof.
  intros Ha Hx. unfold alt_Y. rewrite two_any_digits by exact Ha.
  cbn [flat_map]. unfold two.
  assert (E : any_digit x = None).
  { unfold any_digit. destruct (digit_value x) eqn:Ed; [|reflexivity].
    apply digit_value_isdigit in Ed. rewrite Ed in Hx. discriminate. }
  destruct r as [|b r']; [reflexivity|]. rewrite E. reflexivity.
Qed.

(** A day and the separator that follows it. *)
Lemma step_day (c : char) (fmt : list directive) (f : fields) (a : Z) (r : str) :
  0 <= a < 100 -> isdigit c = false ->
  regex_match (Dd :: Dlit c :: fmt) f (two_digits a ++ c :: r)
  = if (1 <=? a) && (a <=? 31) then regex_match fmt (set_day a f) r else None.
Proof.
  intros Ha Hc. cbn [regex_match alternatives]. rewrite alt_d_two by exact Ha.
  assert (E : eqc (digit_char (a mod 10)) c = false).
  { apply digit_is_not; [apply digit_char_isdigit; euclid|exact Hc]. }
  destruct ((1 <=? a) && (a <=? 31)), (10 <=? a);
    cbn [app map first_some regex_match alternatives];
    rewrite ?eqc_refl, ?E; cbn [first_some];
    try destruct (regex_match fmt (set_day a f) r) as [[? ?]|]; reflexivity.
Qed.

Lemma step_month (c : char) (fmt : list directive) (f : fields) (a : Z) (r : str) :
  0 <= a < 100 -> isdigit c = false ->
  regex_match (Dm :: Dlit c :: fmt) f (two_digits a ++ c :: r)
  = if (1 <=? a) && (a <=? 12) then regex_match fmt (set_month a f) r else None.
Proof.
  intros Ha Hc. cbn [regex_match alternatives]. rewrite alt_m_two by exact Ha.
  assert (E : eqc (digit_char (a mod 10)) c = false).
  { apply digit_is_not; [apply digit_char_isdigit; euclid|exact Hc]. }
  destruct ((1 <=? a) && (a <=? 12)), (10 <=? a);
    cbn [app map first_some regex_match alternatives];
    rewrite ?eqc_refl, ?E; cbn [first_some];
    try destruct (regex_match fmt (set_month a f) r) as [[? ?]|]; reflexivity.
Qed.

(** A day or a month that another separator follows than the format's. *)
Lemma step_day_other (c x : char) (fmt : list directive) (f : fields) (a : Z)
    (r : str) :
  0 <= a < 100 -> isdigit c = false -> eqc x c = false ->
  regex_match (Dd :: Dlit c :: fmt) f (two_digits a ++ x :: r) = None.
Proof.
  intros Ha Hc Hx. cbn [regex_match alternatives]. rewrite alt_d_two by exact Ha.
  assert (E : eqc (digit_char (a mod 10)) c = false).
  { apply digit_is_not; [apply digit_char_isdigit; euclid|exact Hc]. }
  destruct ((1 <=? a) && (a <=? 31)), (10 <=? a);
    cbn [app map first_some regex_match alternatives];
    rewrite ?Hx, ?E; reflexivity.
Qed.

Lemma step_month_other (c x : char) (fmt : list directive) (f : fields) (a : Z)
    (r : str) :
  0 <= a < 100 -> isdigit c = false -> eqc x c = false ->
  regex_match (Dm :: Dlit c :: fmt) f (two_digits a ++ x :: r) = None.
Proof.
  intros Ha Hc Hx. cbn [regex_match alternatives]. rewrite alt_m_two by exact Ha.
  assert (E : eqc (digit_char (a mod 10)) c = false).
  { apply digit_is_not; [apply digit_char_isdigit; euclid|exact Hc]. }
  destruct ((1 <=? a) && (a <=? 12)), (10 <=? a);
    cbn [app map first_some regex_match alternatives];
    rewrite ?Hx, ?E; reflexivity.
Qed.

(** A month name does not start with a digit. *)
Lemma step_name_digit (d : directive) (fmt : list directive) (f : fields)
    (k : Z) (r : str) :
  d = Db \/ d = DB -> 0 <= k < 10 ->
  regex_match (d :: fmt) f (digit_char k :: r) = None.
Proof.
  intros Hd Hk. destruct (digit_char_facts k Hk) as [_ [_ [_ [_ [_ [H1 H2]]]]]].
  destruct Hd as [-> | ->]; cbn [regex_match alternatives];
    rewrite ?H1, ?H2; reflexivity.
Qed.

Lemma valid_date_ranges (y m d : Z) :
  valid_date y m d = true ->
  (1 <=? d) && (d <=? 31) = true /\ (1 <=? m) && (m <=? 12) = true.
Proof.
  unfold valid_date. intros H.
  repeat (apply andb_true_iff in H as [H ?]).
  assert (Hd : days_in_month y m <= 31).
  { unfold days_in_month.
    destruct (m =? 2); [destruct (is_leap y); lia|].
    destruct ((m =? 4) || (m =? 6) || (m =? 9) || (m =? 11)); lia. }
  repeat match goal with
         | H : (_ <=? _) = true |- _ => apply Z.leb_le in H
         end.
  split; apply andb_true_iff; split; apply Z.leb_le; lia.
Qed.

(** A text of digits and separators that starts and ends with a digit is
    its own trimmed form, and is neither a serial number nor a quarter. *)
Lemma digits_first (k j : Z) (x : char) (front : str) (l : Z) :
  0 <= k < 10 -> 0 <= j < 10 -> 0 <= l < 10 ->
  isdigit x = false -> eqc x (ch ".") = false ->
  let s := digit_char k :: digit_char j :: x :: front ++ [digit_char l] in
  strip s = s /\ match_serial s = None
  /\ match_quarter_short s = None /\ match_quarter_long s = None.
Proof.
  intros Hk Hj Hl Hx Hdot s.
  destruct (digit_char_facts k Hk) as [Dk [_ [Sk [Qk [Wk _]]]]].
  destruct (digit_char_facts j Hj) as [Dj _].
  destruct (digit_char_facts l Hl) as [_ [_ [Sl _]]].
  repeat split.
  - apply strip_id; [exact Sk|].
    subst s. cbn [rev]. rewrite rev_app_distr. exact Sl.
  - unfold match_serial.
    destruct (takewhile_app isdigit [digit_char k; digit_char j]
                (x :: front ++ [digit_char l])) as [E1 E2].
    + repeat constructor; assumption.
    + exact Hx.
    + cbn [app] in E1, E2. subst s. rewrite E1, E2, Hdot. reflexivity.
  - subst s. unfold match_quarter_short. rewrite Qk. reflexivity.
  - subst s. unfold match_quarter_long. rewrite Wk. reflexivity.
Qed.

Section LiteralDates.

Variable pd_to_datetime : str -> result date.

(** X9.  A date written "aa/bb/yyyy" is read day first: it is the day [aa] of
    the month [bb] whenever that is a date, also when the month [aa] has a
    day [bb]; it is the day [bb] of the month [aa] only when the first
    reading is no date; when neither is one the text goes to the parser of
    pandas. *)
Theorem slash_date_is_day_first (a b y : Z) :
  0 <= a < 100 -> 0 <= b < 100 -> 0 <= y < 10000 ->
  parse_date pd_to_datetime (CText (slash_date a b y))
  = if valid_date y b a then Ok (mkdate y b a)
    else if valid_date y a b then Ok (mkdate y a b)
    else fallback pd_to_datetime (slash_date a b y).
Proof.
  intros Ha Hb Hy.
  assert (Hslash : isdigit (ch "/") = false) by reflexivity.
  assert (Hminus : isdigit (ch "-") = false) by reflexivity.
  assert (Hform : slash_date a b y
                  = digit_char (a / 10) :: digit_char (a mod 10) :: ch "/"
                    :: (two_digits b ++ ch "/" :: two_digits (y / 100)
                        ++ [digit_char (y mod 100 / 10)])
                    ++ [digit_char (y mod 100 mod 10)]).
  { unfold slash_date, four_digits, two_digits. cbn [app]. reflexivity. }
  destruct (digits_first (a / 10) (a mod 10) (ch "/")
              (two_digits b ++ ch "/" :: two_digits (y / 100)
               ++ [digit_char (y mod 100 / 10)])
              (y mod 100 mod 10))
    as [Hstrip [Hserial [Hshort Hlong]]];
    [euclid|euclid|euclid|reflexivity|reflexivity|].
  rewrite <- Hform in Hstrip, Hserial, Hshort, Hlong.
  unfold parse_date. cbn [isna str_of].
  rewrite Hstrip, Hserial, Hshort, Hlong.
  (* day first, then month first *)
  assert (Hyear : forall f, regex_match [DY] f (four_digits y)
                            = Some (set_year y f, [])).
  { intros f. cbn [regex_match alternatives].
    rewrite <- (app_nil_r (four_digits y)), alt_Y_four by exact Hy.
    reflexivity. }
  assert (H1 : strptime (slash_date a b y) [Dd; sep "/"; Dm; sep "/"; DY]
               = if valid_date y b a then Some (mkdate y b a) else None).
  { unfold strptime, slash_date, sep.
    rewrite step_day, step_month by assumption.
    destruct (valid_date y b a) eqn:V.
    - destruct (valid_date_ranges _ _ _ V) as [-> ->].
      rewrite Hyear. cbn. rewrite V. reflexivity.
    - destruct ((1 <=? a) && (a <=? 31)); [|reflexivity].
      destruct ((1 <=? b) && (b <=? 12)); [|reflexivity].
      rewrite Hyear. cbn. rewrite V. reflexivity. }
  assert (H2 : strptime (slash_date a b y) [Dm; sep "/"; Dd; sep "/"; DY]
               = if valid_date y a b then Some (mkdate y a b) else None).
  { unfold strptime, slash_date, sep.
    rewrite step_month, step_day by assumption.
    destruct (valid_date y a b) eqn:V.
    - destruct (valid_date_ranges _ _ _ V) as [-> ->].
      rewrite Hyear. cbn. rewrite V. reflexivity.
    - destruct ((1 <=? a) && (a <=? 12)); [|reflexivity].
      destruct ((1 <=? b) && (b <=? 31)); [|reflexivity].
      rewrite Hyear. cbn. rewrite V. reflexivity. }
  assert (H3 : strptime (slash_date a b y) [DY; sep "-"; Dm; sep "-"; Dd] = None).
  { unfold strptime, slash_date. cbn [regex_match alternatives].
    rewrite alt_Y_two by assumption. reflexivity. }
  assert (H4 : forall d fmt, strptime (slash_date a b y) (Dd :: sep "-" :: d :: fmt)
                             = None).
  { intros d fmt. unfold strptime, slash_date, sep.
    rewrite step_day_other; [reflexivity|assumption|reflexivity|reflexivity]. }
  assert (H5 : forall d fmt, d = Db \/ d = DB ->
                             strptime (slash_date a b y) (d :: fmt) = None).
  { intros d fmt Hd. unfold strptime. rewrite Hform. cbn [app].
    rewrite step_name_digit; [reflexivity|exact Hd|euclid]. }
  unfold literal_formats. cbn [first_some].
  rewrite H1. destruct (valid_date y b a); [reflexivity|].
  rewrite H2. destruct (valid_date y a b); [reflexivity|].
  rewrite H3, !H4, !H5 by auto. reflexivity.
Qed.

(** X10.  A date written "yyyy-mm-dd" is that date whenever there is such a
    day in the calendar (years 1 to 9999); otherwise the text goes to the
    parser of pandas. *)
Theorem iso_date_round_trip (y m d : Z) :
  0 <= y < 10000 -> 0 <= m < 100 -> 0 <= d < 100 ->
  parse_date pd_to_datetime (CText (iso_date y m d))
  = if valid_date y m d then Ok (mkdate y m d)
    else fallback pd_to_datetime (iso_date y m d).
Proof.
  intros Hy Hm Hd.
  assert (Hslash : isdigit (ch "/") = false) by reflexivity.
  assert (Hminus : isdigit (ch "-") = false) by reflexivity.
  assert (Hform : iso_date y m d
                  = digit_char (y / 100 / 10) :: digit_char (y / 100 mod 10)
                    :: digit_char (y mod 100 / 10)
                    :: digit_char (y mod 100 mod 10) :: ch "-"
                    :: two_digits m ++ ch "-" :: two_digits d).
  { reflexivity. }
  assert (Dy3 : isdigit (digit_char (y mod 100 / 10)) = true)
    by (apply digit_char_isdigit; euclid).
  destruct (digit_char_facts (y / 100 / 10)) as [Dk [_ [Sk [Qk [Wk _]]]]];
    [euclid|].
  destruct (digit_char_facts (d mod 10)) as [_ [_ [Sl _]]]; [euclid|].
  assert (Hstrip : strip (iso_date y m d) = iso_date y m d).
  { apply strip_id; [exact Sk|].
    unfold iso_date, two_digits.
    replace (four_digits y ++ ch "-" :: [digit_char (m / 10); digit_char (m mod 10)]
             ++ ch "-" :: [digit_char (d / 10); digit_char (d mod 10)])
      with ((four_digits y ++ ch "-" :: [digit_char (m / 10); digit_char (m mod 10)]
             ++ [ch "-"; digit_char (d / 10)]) ++ [digit_char (d mod 10)])
      by (rewrite <- !app_assoc; reflexivity).
    rewrite rev_app_distr. exact Sl. }
  assert (Hserial : match_serial (iso_date y m d) = None).
  { unfold match_serial.
    destruct (takewhile_app isdigit (four_digits y)
                (ch "-" :: two_digits m ++ ch "-" :: two_digits d)) as [E1 E2].
    - repeat constructor; apply digit_char_isdigit; euclid.
    - reflexivity.
    - unfold iso_date. rewrite E1, E2. reflexivity. }
  assert (Hshort : match_quarter_short (iso_date y m d) = None).
  { rewrite Hform. unfold match_quarter_short. rewrite Qk. reflexivity. }
  assert (Hlong : match_quarter_long (iso_date y m d) = None).
  { rewrite Hform. unfold match_quarter_long. rewrite Wk. reflexivity. }
  unfold parse_date. cbn [isna str_of].
  rewrite Hstrip, Hserial, Hshort, Hlong.
  assert (Hpair : iso_date y m d
                  = two_digits (y / 100)
                    ++ digit_char (y mod 100 / 10)
                    :: digit_char (y mod 100 mod 10) :: ch "-"
                    :: two_digits m ++ ch "-" :: two_digits d)
    by reflexivity.
  assert (Hd1 : forall fmt, strptime (iso_date y m d) (Dd :: sep "/" :: fmt) = None).
  { intros fmt. unfold strptime, sep. rewrite Hpair, step_day_other;
      [reflexivity|euclid|reflexivity|].
    apply digit_is_not; [exact Dy3|reflexivity]. }
  assert (Hd2 : forall fmt, strptime (iso_date y m d) (Dd :: sep "-" :: fmt) = None).
  { intros fmt. unfold strptime, sep. rewrite Hpair, step_day_other;
      [reflexivity|euclid|reflexivity|].
    apply digit_is_not; [exact Dy3|reflexivity]. }
  assert (Hm1 : forall fmt, strptime (iso_date y m d) (Dm :: sep "/" :: fmt) = None).
  { intros fmt. unfold strptime, sep. rewrite Hpair, step_month_other;
      [reflexivity|euclid|reflexivity|].
    apply digit_is_not; [exact Dy3|reflexivity]. }
  assert (Hn : forall dir fmt, dir = Db \/ dir = DB ->
                               strptime (iso_date y m d) (dir :: fmt) = None).
  { intros dir fmt Hdir. unfold strptime. rewrite Hform.
    rewrite step_name_digit; [reflexivity|exact Hdir|euclid]. }
  assert (H3 : strptime (iso_date y m d) [DY; sep "-"; Dm; sep "-"; Dd]
               = if valid_date y m d then Some (mkdate y m d) else None).
  { unfold strptime, iso_date, sep.
    change (regex_match (DY :: Dlit (ch "-") :: [Dm; Dlit (ch "-"); Dd])
              (mkfields 1900 1 1)
              (four_digits y ++ ch "-" :: two_digits m ++ ch "-" :: two_digits d))
      with (first_some
              (fun '(f', r) => regex_match (Dlit (ch "-") :: [Dm; Dlit (ch "-"); Dd]) f' r)
              (map (fun '(v, r) => (set_year v (mkfields 1900 1 1), r))
                 (alt_Y (four_digits y
                         ++ ch "-" :: two_digits m ++ ch "-" :: two_digits d)))).
    rewrite alt_Y_four by exact Hy. cbn [map first_some].
    change (regex_match (Dlit (ch "-") :: [Dm; Dlit (ch "-"); Dd])
              (set_year y (mkfields 1900 1 1))
              (ch "-" :: two_digits m ++ ch "-" :: two_digits d))
      with (first_some
              (fun '(f', r) => regex_match [Dm; Dlit (ch "-"); Dd] f' r)
              [(set_year y (mkfields 1900 1 1),
                two_digits m ++ ch "-" :: two_digits d)]).
    cbn [first_some]. rewrite step_month by assumption.
    assert (Hday : forall f,
               match regex_match [Dd] f (two_digits d) with
               | Some (f', []) =>
                   (1 <=? d) && (d <=? 31) = true /\ f' = set_day d f
               | _ => (1 <=? d) && (d <=? 31) = false
               end).
    { intros f. cbn [regex_match alternatives].
      rewrite <- (app_nil_r (two_digits d)), alt_d_two by exact Hd.
      destruct ((1 <=? d) && (d <=? 31)), (10 <=? d); cbn; auto. }
    destruct (valid_date y m d) eqn:V.
    - destruct (valid_date_ranges _ _ _ V) as [Vd ->].
      match goal with
      | |- context [regex_match [Dd] ?f (two_digits d)] =>
          pose proof (Hday f) as Hf;
          destruct (regex_match [Dd] f (two_digits d)) as [[f' [|c r]]|]
      end; try (rewrite Vd in Hf; discriminate).
      destruct Hf as [_ ->]. cbn. rewrite V. reflexivity.
    - destruct ((1 <=? m) && (m <=? 12)); [|destruct (match_serial []); reflexivity].
      match goal with
      | |- context [regex_match [Dd] ?f (two_digits d)] =>
          pose proof (Hday f) as Hf;
          destruct (regex_match [Dd] f (two_digits d)) as [[f' [|c r]]|]
      end; try reflexivity.
      destruct Hf as [_ ->]. cbn. rewrite V. reflexivity. }
  unfold literal_formats. cbn [first_some].
  rewrite Hd1, Hm1, H3. destruct (valid_date y m d); [reflexivity|].
  rewrite !Hd2, !Hn by auto. reflexivity.
Qed.

End LiteralDates.

Lemma slash_date_is_day_first_witness :
  parse_date (fun _ => Raise ValueError_InvalidDate) (CText (lit "03/04/2024"))
  = Ok (mkdate 2024 4 3)
  /\ parse_date (fun _ => Raise ValueError_InvalidDate)
       (CText (lit "12/25/2024"))
     = Ok (mkdate 2024 12 25).
Proof.
  split.
  - apply (slash_date_is_day_first (fun _ => Raise ValueError_InvalidDate)
             3 4 2024); lia.
  - apply (slash_date_is_day_first (fun _ => Raise ValueError_InvalidDate)
             12 25 2024); lia.
Defined.

Lemma iso_date_round_trip_witness :
  parse_date (fun _ => Raise ValueError_InvalidDate) (CText (lit "2024-02-29"))
  = Ok (mkdate 2024 2 29).
Proof.
  apply (iso_date_round_trip (fun _ => Raise ValueError_InvalidDate)
           2024 2 29); lia.
Defined.

(** ** The confidence of the number attempt *)

Lemma round_half_even_near (n d : Z) :
  0 < d -> 0 <= n ->
  (2 * round_half_even n d - 1) * d <= 2 * n
  /\ 2 * n <= (2 * round_half_even n d + 1) * d.
Proof.
  intros Hd Hn. unfold round_half_even.
  pose proof (Z.div_mod n d ltac:(lia)) as Hdm.
  pose proof (Z.mod_pos_bound n d Hd) as Hm.
  set (q := n / d) in *. set (r := n mod d) in *.
  destruct ((d <? 2 * r) || ((2 * r =? d) && Z.odd q)) eqn:Eup.
  - assert (d <= 2 * r).
    { apply orb_true_iff in Eup as [E|E].
      - apply Z.ltb_lt in E. lia.
      - apply andb_true_iff in E as [E _]. apply Z.eqb_eq in E. lia. }
    split; nia.
  - apply orb_false_iff in Eup as [E _]. apply Z.ltb_ge in E.
    split; nia.
Qed.

Lemma binary_exponent_ge (num den K : Z) :
  0 < num -> 0 < den -> 0 <= K -> den <= num * 2 ^ K ->
  - K <= binary_exponent num den.
Proof.
  intros Hnum Hden HK Hle. unfold binary_exponent.
  pose proof (Z.log2_spec num Hnum) as [Hn1 Hn2].
  pose proof (Z.log2_spec den Hden) as [Hd1 Hd2].
  pose proof (Z.log2_nonneg num) as Hn0.
  pose proof (Z.log2_nonneg den) as Hd0.
  set (a := Z.log2 num) in *. set (b := Z.log2 den) in *.
  assert (Hl : - K <= a - b).
  { assert (H : 2 ^ b < 2 ^ (Z.succ a + K));
      [|apply Z.pow_lt_mono_r_iff in H; lia].
    rewrite Z.pow_add_r by lia.
    assert (0 < 2 ^ K) by (apply Z.pow_pos_nonneg; lia). nia. }
  destruct (Z.eq_dec (a - b) (- K)) as [E|].
  - rewrite E. destruct (Z.eq_dec K 0) as [-> | HK0].
    + change (- 0) with 0. change (0 <=? 0) with true.
      change (2 ^ 0) with 1 in *.
      replace (den * 1 <=? num) with true
        by (symmetry; apply Z.leb_le; lia).
      lia.
    + replace (0 <=? - K) with false by (symmetry; apply Z.leb_gt; lia).
      rewrite Z.opp_involutive.
      replace (den <=? num * 2 ^ K) with true
        by (symmetry; apply Z.leb_le; lia).
      lia.
  - destruct (if 0 <=? a - b then den * 2 ^ (a - b) <=? num
              else den <=? num * 2 ^ (- (a - b))); lia.
Qed.

(** The quotient of two counts as a double, for a proper part of at most
    [2^51] cells: a significand within a half of the scaled quotient. *)
Lemma round_ratio_near (k n : Z) :
  0 < k < n -> n <= 2 ^ 51 ->
  exists m e,
    round_ratio k n = Finite m e /\ -104 <= e <= -53
    /\ (2 * m - 1) * n <= 2 * (k * 2 ^ (- e))
    /\ 2 * (k * 2 ^ (- e)) <= (2 * m + 1) * n.
Proof.
  intros [Hk Hkn] Hn. unfold round_ratio.
  replace (k =? 0) with false by (symmetry; apply Z.eqb_neq; lia).
  assert (Hlt : binary_exponent k n < 0).
  { apply binary_exponent_lt; lia. }
  assert (Hge : - 51 <= binary_exponent k n).
  { apply (binary_exponent_ge k n 51); lia. }
  set (e := Z.max (binary_exponent k n - 52) (-1074)).
  assert (He : -103 <= e <= -53) by (unfold e; lia).
  replace (0 <=? e) with false by (symmetry; apply Z.leb_gt; lia).
  assert (Hpow : 0 < 2 ^ (- e)) by (apply Z.pow_pos_nonneg; lia).
  destruct (round_half_even_near (k * 2 ^ (- e)) n ltac:(lia) ltac:(nia))
    as [Hlo Hhi].
  set (m := round_half_even (k * 2 ^ (- e)) n) in *.
  cbv zeta.
  destruct (m =? 2 ^ 53) eqn:Ecarry.
  - apply Z.eqb_eq in Ecarry.
    assert (Hsucc : 2 ^ (- e) = 2 * 2 ^ (- (e + 1))).
    { rewrite <- Z.pow_succ_r by lia. f_equal. lia. }
    assert (Hpow' : 0 < 2 ^ (- (e + 1))) by (apply Z.pow_pos_nonneg; lia).
    assert (He' : e < -53).
    { destruct (Z.eq_dec e (-53)) as [Ee|]; [|lia]. exfalso.
      rewrite Ee in Hlo. change (- -53) with 53 in Hlo.
      rewrite Ecarry in Hlo.
      change (2 ^ 53) with 9007199254740992 in Hlo.
      change (2 ^ 51) with 2251799813685248 in Hn. lia. }
    replace (1023 <? e + 1 + 52) with false
      by (symmetry; apply Z.ltb_ge; lia).
    exists (2 ^ 52), (e + 1). split; [reflexivity|]. split; [lia|].
    rewrite Ecarry, Hsucc in Hlo, Hhi.
    change (2 ^ 53) with 9007199254740992 in Hlo, Hhi.
    change (2 ^ 52) with 4503599627370496.
    split; lia.
  - replace (1023 <? e + 52) with false by (symmetry; apply Z.ltb_ge; lia).
    exists m, e. repeat split; try lia.
Qed.

Lemma round_ratio_whole (n : Z) : 0 < n -> round_ratio n n = one.
Proof.
  intros Hn. unfold round_ratio.
  replace (n =? 0) with false by (symmetry; apply Z.eqb_neq; lia).
  assert (Hlt : binary_exponent n n < 1).
  { apply binary_exponent_lt; lia. }
  assert (Hge : - 0 <= binary_exponent n n).
  { apply (binary_exponent_ge n n 0); lia. }
  replace (binary_exponent n n) with 0 by lia.
  change (Z.max (0 - 52) (-1074)) with (-52). cbv zeta.
  change (0 <=? -52) with false. cbv iota.
  change (2 ^ (- -52)) with 4503599627370496.
  assert (Hm : round_half_even (n * 4503599627370496) n = 4503599627370496).
  { unfold round_half_even.
    rewrite (Z.mul_comm n), Z.div_mul, Z.mod_mul by lia.
    replace (n <? 2 * 0) with false by (symmetry; apply Z.ltb_ge; lia).
    replace (2 * 0 =? n) with false by (symmetry; apply Z.eqb_neq; lia).
    reflexivity. }
  rewrite Hm. reflexivity.
Qed.

Lemma count_true_map {A} (f : A -> bool) (l : list A) :
  List.length (filter (fun b => b) (map f l)) = List.length (filter f l).
Proof.
  induction l as [|x l IH]; simpl; [reflexivity|].
  destruct (f x); simpl; rewrite IH; reflexivity.
Qed.

Lemma filter_length_le {A} (f : A -> bool) (l : list A) :
  (List.length (filter f l) <= List.length l)%nat.
Proof.
  induction l as [|x l IH]; simpl; [lia|]. destruct (f x); simpl; lia.
Qed.

(** X11.  The number attempt succeeds exactly when three fifths of the cells
    parse: on a column of at most [2^51] cells the rounding of the mean and
    of the literal [0.6] to doubles does not move the threshold.  The
    confidence is 1.0 when every cell parses and 0.0 when none does. *)
Theorem number_needs_three_fifths (s : list RawCell) :
  s <> [] -> Z.of_nat (List.length s) <= 2 ^ 51 ->
  let parsed := filter (fun v => parse (number_clean (str_of v))) s in
  (fst (_try_number s) = true
   <-> 3 * Z.of_nat (List.length s) <= 5 * Z.of_nat (List.length parsed))
  /\ (List.length parsed = List.length s -> snd (_try_number s) = one)
  /\ (parsed = [] -> snd (_try_number s) = zero).
Proof.
  intros Hne Hlen parsed.
  pose proof (filter_length_le (fun v => parse (number_clean (str_of v))) s)
    as Hle.
  fold parsed in Hle.
  assert (Hn : 0 < Z.of_nat (List.length s)).
  { destruct s; [contradiction|]. cbn [List.length]. lia. }
  assert (Hconf : snd (_try_number s)
                  = round_ratio (Z.of_nat (List.length parsed))
                      (Z.of_nat (List.length s))).
  { unfold _try_number. cbn [snd]. unfold mean.
    rewrite map_map, count_true_map, length_map.
    destruct s; [contradiction|]. reflexivity. }
  assert (Hfst : fst (_try_number s) = leb MIN_CONFIDENCE (snd (_try_number s)))
    by reflexivity.
  set (n := Z.of_nat (List.length s)) in *.
  set (k := Z.of_nat (List.length parsed)) in *.
  assert (Hkn : 0 <= k <= n) by (unfold k, n; lia).
  assert (HMIN : MIN_CONFIDENCE = Finite 5404319552844595 (-53))
    by (vm_compute; reflexivity).
  split; [|split].
  - rewrite Hfst, Hconf, HMIN.
    destruct (Z.eq_dec k 0) as [E0|N0].
    { rewrite E0. change (round_ratio 0 n) with (Finite 0 0).
      split; [intros H; vm_compute in H; discriminate|lia]. }
    destruct (Z.eq_dec k n) as [En|Nn].
    { rewrite En, round_ratio_whole by lia.
      split; [lia|intros _; vm_compute; reflexivity]. }
    destruct (round_ratio_near k n ltac:(lia) Hlen)
      as [m [e [-> [He [Hlo Hhi]]]]].
    unfold leb. rewrite Z.min_r by lia.
    rewrite Z.sub_diag. change (2 ^ 0) with 1. rewrite Z.mul_1_r.
    assert (HP : 2 ^ (- e) = 9007199254740992 * 2 ^ (-53 - e)).
    { change 9007199254740992 with (2 ^ 53).
      rewrite <- Z.pow_add_r by lia. f_equal. lia. }
    assert (HT : 1 <= 2 ^ (-53 - e)).
    { assert (0 < 2 ^ (-53 - e)) by (apply Z.pow_pos_nonneg; lia). lia. }
    rewrite HP in Hlo, Hhi.
    set (T := 2 ^ (-53 - e)) in *.
    change (2 ^ 51) with 2251799813685248 in Hlen.
    rewrite Z.leb_le. split.
    + intros Hm. destruct (Z_lt_le_dec (5 * k) (3 * n)) as [Hlt|]; [|lia].
      exfalso.
      assert (H1 : (2 * (5404319552844595 * T) - 1) * n <= (2 * m - 1) * n)
        by nia.
      assert (H2 : 5 * (2 * (k * (9007199254740992 * T)))
                   <= 2 * ((3 * n - 1) * (9007199254740992 * T))) by nia.
      assert (H3 : T * n <= T * 2251799813685248) by nia.
      nia.
    + intros Hge. destruct (Z_lt_le_dec m (5404319552844595 * T)) as [Hlt|];
        [|lia].
      exfalso.
      assert (H1 : (2 * m + 1) * n <= (2 * (5404319552844595 * T) - 1) * n)
        by nia.
      assert (H2 : 2 * (3 * n * (9007199254740992 * T))
                   <= 5 * (2 * (k * (9007199254740992 * T)))) by nia.
      assert (H3 : 0 < T * n) by nia.
      nia.
  - intros E. rewrite Hconf. unfold k. rewrite E. fold n.
    apply round_ratio_whole. exact Hn.
  - intros E. rewrite Hconf. unfold k. rewrite E. reflexivity.
Qed.

Lemma number_needs_three_fifths_witness :
  fst (_try_number [CText (lit "$1,200"); CText (lit "n/a"); CText (lit "3.5K");
                    CText (lit "(40)"); CText (lit "tbd")]) = true.
Proof.
  destruct (number_needs_three_fifths
              [CText (lit "$1,200"); CText (lit "n/a"); CText (lit "3.5K");
               CText (lit "(40)"); CText (lit "tbd")]) as [[_ H] _].
  - discriminate.
  - vm_compute. discriminate.
  - apply H. vm_compute. discriminate.
Defined.

(** ** Only finite amounts *)

Lemma parse_special_head (neg : bool) (s : str) :
  match s with
  | [] => True
  | c :: _ => ascii_lower c <> ch "i" /\ ascii_lower c <> ch "n"
              /\ ascii_lower c <> ch "s"
  end ->
  parse_special neg s = None.
Proof.
  destruct s as [|c s]; [reflexivity|]. intros [Hi [Hn Hs]].
  unfold parse_special. cbn [map].
  replace (str_eqb (ascii_lower c :: map ascii_lower s) (lit "inf")) with false
    by (symmetry; apply str_eqb_head; exact Hi).
  replace (str_eqb (ascii_lower c :: map ascii_lower s) (lit "infinity"))
    with false by (symmetry; apply str_eqb_head; exact Hi).
  cbn [orb].
  destruct (map ascii_lower s) as [|a [|n2 r]]; try reflexivity.
  replace (str_eqb [ascii_lower c; a; n2] (lit "nan")) with false
    by (symmetry; apply str_eqb_head; exact Hn).
  cbn [andb]. destruct r as [|n3 r']; [reflexivity|].
  replace (str_eqb [ascii_lower c; a; n2; n3] (lit "snan")) with false
    by (symmetry; apply str_eqb_head; exact Hs).
  reflexivity.
Qed.

Lemma numeric_not_letter (c : char) :
  numeric c ->
  ascii_lower c <> ch "i" /\ ascii_lower c <> ch "n" /\ ascii_lower c <> ch "s".
Proof.
  intros [H|H].
  - repeat split; intros E;
      apply ascii_lower_not_digit in E; try reflexivity;
      rewrite E in H; discriminate.
  - unfold in_class in H. cbn in H.
    repeat (apply orb_true_iff in H as [H|H]);
      try (apply eqc_eq in H; subst c; repeat split; discriminate).
    discriminate.
Qed.

Lemma parse_finite_is_finite (neg : bool) (s : str) (d : decimal) :
  parse_finite neg s = Some d -> is_finite d = true.
Proof.
  unfold parse_finite.
  destruct (match dropwhile isdigit s with
            | [] => ([], [])
            | c :: r' =>
                if eqc c (ch ".")
                then (takewhile isdigit r', dropwhile isdigit r')
                else ([], dropwhile isdigit s)
            end) as [fp r2].
  destruct (takewhile isdigit s ++ fp); [discriminate|].
  destruct (parse_exponent r2); [|discriminate].
  match goal with |- context [representable ?c ?e] =>
    destruct (representable c e) end; [|discriminate].
  intros E. injection E as <-. reflexivity.
Qed.

(** [Decimal] makes no NaN and no infinity of digits, signs and separators. *)
Lemma of_str_numeric (s : str) (d : decimal) :
  Forall numeric s -> of_str s = Some d -> is_finite d = true.
Proof.
  intros H. unfold of_str.
  assert (Hy : Forall numeric (remove (ch "_") (strip s)))
    by (apply Forall_remove, Forall_strip; exact H).
  set (y := remove (ch "_") (strip s)) in *.
  assert (Hu : Forall numeric (snd (unsign y))).
  { unfold unsign. destruct Hy as [|c r Hc Hr]; [constructor|].
    destruct (eqc c (ch "-")); [exact Hr|].
    destruct (eqc c (ch "+")); [exact Hr|]. constructor; assumption. }
  destruct (unsign y) as [neg body]. cbn [snd] in Hu.
  destruct (parse_finite neg body) as [d'|] eqn:Ef.
  - intros E. injection E as <-. eapply parse_finite_is_finite. exact Ef.
  - rewrite parse_special_head; [discriminate|].
    destruct Hu as [|c r Hc _]; [exact I|]. apply numeric_not_letter. exact Hc.
Qed.

Lemma mul_int_finite (neg : bool) (c : N) (e k : Z) (d : decimal) :
  mul_int (Fin neg c e) k = Ok d -> is_finite d = true.
Proof.
  cbn [mul_int]. unfold fix_ctx, fix_nonzero.
  destruct (_ =? 0)%N; [intros E; injection E as <-; reflexivity|].
  destruct (Etop <? _); [discriminate|].
  destruct (e <? _); [|intros E; injection E as <-; reflexivity].
  cbv zeta.
  match goal with
  | |- context [if ?b then (_ / 10, _) else _] => destruct b
  end;
    match goal with
    | |- context [if ?b then Raise _ else _] => destruct b
    end; try discriminate; intros E; injection E as <-; reflexivity.
Qed.

(** X12.  [parse_amount] returns finite decimals only: whatever the cell, its
    result is never a NaN and never an infinity. *)
Theorem parse_amount_is_finite (v : RawCell) (d : decimal) :
  parse_amount v = Ok d -> is_finite d = true.
Proof.
  unfold parse_amount. destruct (isna v); [discriminate|].
  destruct (split_sign (strip (str_of v))) as [sign body].
  destruct (match_suffix body) as [[num l]|] eqn:Hm.
  - assert (Hnum : Forall numeric num).
    { unfold match_suffix in Hm.
      destruct (rev body) as [|c before]; [discriminate|].
      destruct (in_class "KkMmBb" c); [|discriminate].
      destruct (match_number (rev (dropwhile isspace before))) eqn:Hn;
        [|discriminate].
      injection Hm as <- _. apply match_number_chars in Hn.
      eapply Forall_impl; [|exact Hn]. intros x [Hx|[Hx| ->]].
      - right. unfold in_class in *. cbn in *.
        repeat (apply orb_true_iff in Hx as [Hx|Hx]); rewrite ?Hx;
          try discriminate; rewrite ?orb_true_r; reflexivity.
      - left. exact Hx.
      - right. reflexivity. }
    destruct (of_str num) as [d'|] eqn:Eof; [|discriminate].
    pose proof (of_str_numeric num d' Hnum Eof) as Hfin.
    destruct (suffix_map (ascii_upper l)) as [k|]; [|discriminate].
    destruct d' as [neg c e| |]; try discriminate.
    apply mul_int_finite.
  - unfold to_decimal.
    set (z := collapse_dots (regional (keep_amount_chars body))).
    assert (Hz : Forall numeric z).
    { apply Forall_collapse_dots; [right; reflexivity|].
      apply Forall_regional; [right; reflexivity|].
      unfold keep_amount_chars. apply Forall_forall. intros c Hc.
      apply filter_In in Hc as [_ Hc].
      apply orb_true_iff in Hc as [Hc|Hc]; [left; exact Hc|right].
      unfold in_class in *. cbn in *.
      repeat (apply orb_true_iff in Hc as [Hc|Hc]); rewrite ?Hc;
        try discriminate; rewrite ?orb_true_r; reflexivity. }
    destruct (of_str z) as [d'|] eqn:Eof; [|discriminate].
    pose proof (of_str_numeric z d' Hz Eof) as Hfin.
    destruct d' as [neg c e| |]; try discriminate.
    intros E.
    destruct (mul_int (Fin neg c e) sign) as [p|x] eqn:Em.
    + injection E as <-. eapply mul_int_finite. exact Em.
    + destruct x; discriminate.
Qed.

Lemma parse_amount_is_finite_witness :
  parse_amount (CText (lit "($1,234.50)")) = Ok (Fin true 123450 (-2))
  /\ is_finite (Fin true 123450 (-2)) = true.
Proof.
  split; [reflexivity|].
  apply (parse_amount_is_finite (CText (lit "($1,234.50)"))). reflexivity.
Defined.

(** ** A single comma *)

Lemma to_decimal_whole (ip : str) :
  ip <> [] -> Forall is_digit ip -> (List.length ip <= 28)%nat ->
  of_str ip = Some (Fin false (digits_value ip) 0)
  /\ mul_int (Fin false (digits_value ip) 0) 1
     = Ok (Fin false (digits_value ip) 0).
Proof.
  intros Hne Hip Hlen.
  assert (Hv : Z.of_N (digits_value ip) < 10 ^ 28).
  { eapply Z.lt_le_trans; [apply digits_value_bound; exact Hip|].
    apply Z.pow_le_mono_r; lia. }
  split.
  - pose proof (numeral_of_str ([] ++ ip) false ip []) as H.
    rewrite app_nil_r in H. apply H.
    + apply numeral_whole; [constructor|assumption..].
    + apply representable_small; [exact Hv|simpl; lia].
  - cbn [mul_int]. change (1 <? 0) with false. change (Z.abs_N 1) with 1%N.
    rewrite N.mul_1_r. apply fix_ctx_exact; [exact Hv|lia].
Qed.

(** One or two digits after the only comma. *)
Lemma ends_comma_digits_single (a b : str) :
  Forall is_digit a -> Forall is_digit b ->
  ends_comma_digits (a ++ ch "," :: b)
  = ((1 <=? List.length b) && (List.length b <=? 2))%nat.
Proof.
  intros Ha Hb. unfold ends_comma_digits.
  rewrite rev_app_distr. cbn [rev]. rewrite <- app_assoc. cbn [app].
  rewrite <- (length_rev b).
  apply Forall_rev in Hb, Ha.
  destruct (rev b) as [|x [|y [|z r]]]; cbn [app List.length].
  - destruct (rev a); reflexivity.
  - inversion Hb as [|? ? Hx _]; subst. unfold is_digit in Hx.
    rewrite Hx. reflexivity.
  - inversion Hb as [|? ? Hx Hb']; subst. inversion Hb' as [|? ? Hy _]; subst.
    unfold is_digit in Hx, Hy.
    rewrite Hx, Hy, (digit_is_not y (ch ",") Hy eq_refl). reflexivity.
  - inversion Hb as [|? ? Hx Hb']; subst. inversion Hb' as [|? ? Hy Hb'']; subst.
    inversion Hb'' as [|? ? Hz _]; subst.
    unfold is_digit in Hx, Hy, Hz.
    rewrite (digit_is_not y (ch ",") Hy eq_refl),
      (digit_is_not z (ch ",") Hz eq_refl).
    destruct (isdigit x), (isdigit y); reflexivity.
Qed.

Lemma replace_first_app (c d : char) (a b : str) :
  ~ In c a -> replace_first c d (a ++ c :: b) = a ++ d :: b.
Proof.
  induction a as [|x a IH]; intros Ha; cbn [app replace_first].
  - rewrite eqc_refl. reflexivity.
  - rewrite eqc_neq.
    + rewrite IH; [reflexivity|]. intros H. apply Ha. now right.
    + intros ->. apply Ha. now left.
Qed.

(** X13.  A text with one comma and no point, digits on both sides, 28 at
    most.  [parse_amount] takes the comma for the decimal point when one or
    two digits follow it and for a grouping mark otherwise (none or three
    and more).  [parse_amount_vectorized] takes it for a grouping mark in
    every case: "1,5" is 1.5 for the one and 15 for the other. *)
Theorem single_comma (t a b : str) :
  strip t = a ++ ch "," :: b ->
  a <> [] -> Forall is_digit a -> Forall is_digit b ->
  (List.length (a ++ b) <= 28)%nat ->
  parse_amount (CText t)
  = Ok (Fin false (digits_value (a ++ b))
          (if ((1 <=? List.length b) && (List.length b <=? 2))%nat
           then - Z.of_nat (List.length b) else 0))
  /\ parse_amount_vectorized [CText t]
     = Ok [Some (Fin false (digits_value (a ++ b)) 0)].
Proof.
  intros Hx Hne Ha Hb Hlen.
  assert (Hab : Forall is_digit (a ++ b)) by (apply Forall_app; auto).
  assert (Habne : a ++ b <> []).
  { intros E. apply app_eq_nil in E as [E _]. contradiction. }
  destruct (to_decimal_whole (a ++ b) Habne Hab Hlen) as [Hof Hmul].
  (* the two ends of the text *)
  destruct (head_digit_unsigned a (ch "," :: b) Hne Ha) as [h [r [Eh Hh]]].
  destruct (digit_facts h Hh) as [_ [_ [Hh1 [Hh2 _]]]].
  assert (Hlast : exists front l,
             a ++ ch "," :: b = front ++ [l]
             /\ eqc l (ch "-") = false /\ eqc l (ch ")") = false
             /\ in_class "KkMmBb" l = false).
  { destruct (list_eq_dec N.eq_dec b []) as [Eb|Hbne].
    - exists a, (ch ","). rewrite Eb. auto.
    - destruct (exists_last Hbne) as [b0 [b' Eb]].
      exists (a ++ ch "," :: b0), b'.
      assert (Hd : isdigit b' = true).
      { rewrite Eb in Hb. apply Forall_app in Hb as [_ Hb'].
        inversion Hb'; assumption. }
      destruct (digit_facts b' Hd) as [_ [_ [_ [H2 [_ [_ [H3 _]]]]]]].
      repeat split; try assumption.
      + rewrite Eb, <- app_assoc. reflexivity.
      + apply digit_is_not; [exact Hd|reflexivity]. }
  destruct Hlast as [front [l [El [Hl1 [Hl2 Hl3]]]]].
  assert (Hs1 : startswith (ch "(") (strip t) = false)
    by (rewrite Hx, Eh; exact Hh1).
  assert (Hs2 : startswith (ch "-") (strip t) = false)
    by (rewrite Hx, Eh; exact Hh2).
  assert (Hs3 : endswith (ch "-") (strip t) = false)
    by (rewrite Hx, El, endswith_snoc; exact Hl1).
  assert (Hna : ~ In (ch ",") a) by (apply digits_notin; [reflexivity|exact Ha]).
  assert (Hnb : ~ In (ch ",") b) by (apply digits_notin; [reflexivity|exact Hb]).
  split.
  - unfold parse_amount. cbn [isna str_of].
    unfold split_sign. rewrite Hs1, Hs3, Hs2. cbn [andb].
    assert (Hs : match_suffix (strip t) = None).
    { unfold match_suffix. rewrite Hx, El, rev_app_distr. cbn [rev app].
      rewrite Hl3. reflexivity. }
    rewrite Hs, Hx.
    assert (Hkeep : keep_amount_chars (a ++ ch "," :: b) = a ++ ch "," :: b).
    { unfold keep_amount_chars. apply filter_id. apply Forall_app. split.
      - eapply Forall_impl; [|exact Ha]. intros c H. apply (digit_facts c H).
      - constructor; [reflexivity|].
        eapply Forall_impl; [|exact Hb]. intros c H. apply (digit_facts c H). }
    rewrite Hkeep.
    assert (Hnodot : contains (ch ".") (a ++ ch "," :: b) = false).
    { apply contains_false. intros H. apply in_app_or in H as [H|[H|H]].
      - revert H. apply digits_notin; [reflexivity|exact Ha].
      - discriminate.
      - revert H. apply digits_notin; [reflexivity|exact Hb]. }
    assert (Hcomma : contains (ch ",") (a ++ ch "," :: b) = true).
    { apply contains_In. apply in_or_app. right. now left. }
    unfold regional. rewrite Hnodot, Hcomma. cbn [andb].
    rewrite ends_comma_digits_single by assumption.
    destruct ((1 <=? List.length b) && (List.length b <=? 2))%nat eqn:Elen.
    + assert (Hbne : b <> []).
      { intros ->. discriminate. }
      rewrite replace_first_app by exact Hna.
      rewrite remove_notin.
      2:{ intros H. apply in_app_or in H as [H|[H|H]];
            [contradiction|discriminate|contradiction]. }
      rewrite collapse_dots_last
        by (apply digits_notin; [reflexivity|exact Hb]).
      rewrite remove_notin
        by (apply digits_notin; [reflexivity|exact Ha]).
      destruct (to_decimal_exact a b Hne Ha Hbne Hb Hlen) as [Hof' Hmul'].
      unfold to_decimal. rewrite Hof', Hmul'. reflexivity.
    + rewrite remove_app. unfold remove at 2. cbn [filter].
      rewrite eqc_refl. cbn [negb]. fold (remove (ch ",") b).
      rewrite !remove_notin by assumption.
      unfold collapse_dots.
      rewrite count_digits by (exact Hab || reflexivity).
      cbn. unfold to_decimal. rewrite Hof, Hmul. reflexivity.
  - rewrite batch_single. unfold batch_cell. cbn [str_of].
    assert (Hsign : batch_sign (strip t) = 1).
    { unfold batch_sign. rewrite Hs1, Hs3, Hs2. reflexivity. }
    assert (Hbc : batch_clean (strip t) = a ++ b).
    { unfold batch_clean. rewrite Hx, filter_filter, filter_app.
      cbn [filter].
      change (negb (is_currency_or_comma (ch ",")) && negb (isspace (ch ",")))
        with false. cbv iota.
      rewrite (filter_id _ a), (filter_id _ b).
      2:{ eapply Forall_impl; [|exact Hb]. intros c H. apply (digit_facts c H). }
      2:{ eapply Forall_impl; [|exact Ha]. intros c H. apply (digit_facts c H). }
      rewrite unparen_id
        by (apply digits_notin; [reflexivity|exact Hab]).
      destruct (exists_last Habne) as [f' [dl Ef]].
      assert (Hdl : isdigit dl = true).
      { rewrite Ef in Hab. apply Forall_app in Hab as [_ H].
        inversion H; assumption. }
      rewrite Ef, drop_trailing_minus_digit by exact Hdl. rewrite <- Ef.
      destruct (head_digit_unsigned a b Hne Ha) as [h' [r' [Eh' Hh']]].
      rewrite Eh'. cbn [drop_leading_minus].
      rewrite (digit_is_not h' (ch "-") Hh' eq_refl). reflexivity. }
    rewrite Hbc, Hsign.
    assert (Hmask : suffix_mask (a ++ b) = false).
    { unfold suffix_mask.
      destruct (exists_last Habne) as [f' [dl Ef]].
      assert (Hdl : isdigit dl = true).
      { rewrite Ef in Hab. apply Forall_app in Hab as [_ H].
        inversion H; assumption. }
      rewrite Ef, rev_app_distr. cbn [rev app].
      apply (digit_facts dl Hdl). }
    rewrite Hmask.
    assert (Hstd : process_standard (a ++ b)
                   = Some (Fin false (digits_value (a ++ b)) 0)).
    { unfold process_standard.
      assert (Hno : ~ In (ch ",") (a ++ b))
        by (apply digits_notin; [reflexivity|exact Hab]).
      pose proof Hno as Hc. apply contains_false in Hc.
      rewrite Hc, andb_false_r. cbn [andb].
      rewrite (remove_notin _ _ Hno). exact Hof. }
    rewrite Hstd. cbn [bind apply_sign]. rewrite Hmul. reflexivity.
Qed.

Lemma single_comma_witness :
  parse_amount (CText (lit " 1,5 ")) = Ok (Fin false 15 (-1))
  /\ parse_amount_vectorized [CText (lit " 1,5 ")] = Ok [Some (Fin false 15 0)].
Proof.
  apply (single_comma (lit " 1,5 ") (lit "1") (lit "5"));
    try reflexivity; try discriminate; try (repeat constructor).
Defined.

(** ** The workbooks of an [ExcelProcessor] *)

Section Workbooks.

Import ExcelProcessor.

Variables ExcelFile DataFrame pandas_exn : Type.
Variable isfile : string -> bool.
Variable open_workbook : string -> pandas_exn + ExcelFile.
Variable sheet_names : ExcelFile -> list string.
Variable parse_sheet : ExcelFile -> string -> pandas_exn + DataFrame.

Local Notation "'processor'" :=
  (ExcelProcessor.processor ExcelFile DataFrame).
Local Notation "'load_sheets'" :=
  (ExcelProcessor.load_sheets ExcelFile DataFrame pandas_exn parse_sheet).
Local Notation "'load_file'" :=
  (ExcelProcessor.load_file ExcelFile DataFrame pandas_exn
     isfile open_workbook sheet_names parse_sheet).
Local Notation "'load_files'" :=
  (ExcelProcessor.load_files ExcelFile DataFrame pandas_exn
     isfile open_workbook sheet_names parse_sheet).
Local Notation "'get_full_data'" :=
  (ExcelProcessor.get_full_data ExcelFile DataFrame pandas_exn).
Local Notation "'full_data'" :=
  (ExcelProcessor.full_data ExcelFile DataFrame).

Lemma dict_get_set_same {V} (k : string) (v : V) (d : dict V) :
  dict_get k (dict_set k v d) = Some v.
Proof.
  induction d as [|[k' v'] d IH]; cbn [dict_set dict_get].
  - rewrite String.eqb_refl. reflexivity.
  - destruct (String.eqb k' k) eqn:E; cbn [dict_get]; rewrite E; auto.
Qed.

Lemma dict_get_set_other {V} (k q : string) (v : V) (d : dict V) :
  q <> k -> dict_get q (dict_set k v d) = dict_get q d.
Proof.
  intros Hq. induction d as [|[k' v'] d IH]; cbn [dict_set dict_get].
  - replace (String.eqb k q) with false; [reflexivity|].
    symmetry. apply String.eqb_neq. congruence.
  - destruct (String.eqb k' k) eqn:E; cbn [dict_get].
    + apply String.eqb_eq in E. subst k'.
      replace (String.eqb k q) with false; [reflexivity|].
      symmetry. apply String.eqb_neq. congruence.
    + rewrite IH. reflexivity.
Qed.

(** The sheets of one workbook: what the loop leaves under the path once it
    has run to its end. *)
Lemma load_sheets_done (xls : ExcelFile) (path : string) (names : list string) :
  forall (sheets : dict DataFrame) (self self' : processor),
    load_sheets xls path names sheets self = (self', None) ->
    dict_get path (full_data self) = Some sheets ->
    exists sheets',
      dict_get path (full_data self') = Some sheets'
      /\ (forall s, In s names ->
            exists df, parse_sheet xls s = inr df
                       /\ dict_get s sheets' = Some df)
      /\ (forall s, ~ In s names -> dict_get s sheets' = dict_get s sheets).
Proof.
  induction names as [|sheet rest IH]; intros sheets self self' Hload Hget.
  - injection Hload as <-. exists sheets. split; [exact Hget|].
    split; [intros s []|reflexivity].
  - cbn [ExcelProcessor.load_sheets] in Hload.
    destruct (parse_sheet xls sheet) as [e|df] eqn:Ep; [discriminate|].
    apply IH in Hload; [|apply dict_get_set_same].
    destruct Hload as [sheets' [Hget' [Hin Hout]]].
    exists sheets'. split; [exact Hget'|]. split.
    + intros s [<-|Hs]; [|apply Hin; exact Hs].
      destruct (in_dec string_dec sheet rest) as [Hr|Hr]; [apply Hin; exact Hr|].
      exists df. split; [exact Ep|].
      rewrite (Hout sheet Hr). apply dict_get_set_same.
    + intros s Hs. rewrite Hout by (intros H; apply Hs; now right).
      apply dict_get_set_other. intros ->. apply Hs. now left.
Qed.

(** The loop touches the sheets of no other path, however it ends. *)
Lemma load_sheets_frame (xls : ExcelFile) (path q : string)
    (names : list string) :
  q <> path ->
  forall (sheets : dict DataFrame) (self : processor),
    dict_get q (full_data (fst (load_sheets xls path names sheets self)))
    = dict_get q (full_data self).
Proof.
  intros Hq. induction names as [|sheet rest IH]; intros sheets self;
    cbn [ExcelProcessor.load_sheets]; [reflexivity|].
  destruct (parse_sheet xls sheet) as [e|df]; [reflexivity|].
  rewrite IH. cbn [ExcelProcessor.full_data]. apply dict_get_set_other. exact Hq.
Qed.

Lemma load_file_frame (path q : string) (self : processor) :
  q <> path ->
  dict_get q (full_data (fst (load_file path self)))
  = dict_get q (full_data self).
Proof.
  intros Hq. unfold ExcelProcessor.load_file.
  destruct (negb (isfile path)); [reflexivity|].
  destruct (open_workbook path) as [e|xls]; [reflexivity|].
  rewrite load_sheets_frame by exact Hq.
  cbn [ExcelProcessor.full_data]. apply dict_get_set_other. exact Hq.
Qed.

Lemma load_file_done (path : string) (self self' : processor) :
  load_file path self = (self', None) ->
  exists xls sheets,
    isfile path = true /\ open_workbook path = inr xls
    /\ dict_get path (full_data self') = Some sheets
    /\ forall s, In s (sheet_names xls) ->
         exists df, parse_sheet xls s = inr df /\ dict_get s sheets = Some df.
Proof.
  unfold ExcelProcessor.load_file. intros H.
  destruct (isfile path); [|discriminate]. cbn [negb] in H.
  destruct (open_workbook path) as [e|xls]; [discriminate|].
  apply load_sheets_done in H; [|apply dict_get_set_same].
  destruct H as [sheets [Hget [Hin _]]].
  exists xls, sheets. auto.
Qed.

Lemma load_files_frame (paths : list string) (q : string) (self : processor) :
  ~ In q paths ->
  dict_get q (full_data (fst (load_files paths self)))
  = dict_get q (full_data self).
Proof.
  revert self. induction paths as [|path rest IH]; intros self Hq;
    [reflexivity|].
  cbn [ExcelProcessor.load_files].
  assert (Hframe := load_file_frame path q self
                      ltac:(intros ->; apply Hq; now left)).
  destruct (load_file path self) as [self1 [e|]]; cbn [fst] in *.
  - exact Hframe.
  - rewrite IH by (intros H; apply Hq; now right). exact Hframe.
Qed.

(** X14.  Loading leaves the sheets of the other files as they are: whether
    [load_files] returns or raises half way, [get_full_data] answers for a
    file that is not in the list as it did before. *)
Theorem load_files_keeps_other_files (paths : list string) (q sheet : string)
    (self : processor) :
  ~ In q paths ->
  get_full_data (fst (load_files paths self)) q sheet
  = get_full_data self q sheet.
Proof.
  intros Hq. unfold ExcelProcessor.get_full_data.
  rewrite load_files_frame by exact Hq. reflexivity.
Qed.

(** X15.  What is loaded can be read back.  When [load_files] returns, every
    file of the list is a file that pandas opened, and for each of its
    sheets [get_full_data] returns the frame that [xls.parse] made of it;
    a file named twice is no exception. *)
Theorem load_then_get (paths : list string) (self self' : processor) :
  load_files paths self = (self', None) ->
  forall path, In path paths ->
    exists xls,
      isfile path = true /\ open_workbook path = inr xls
      /\ forall sheet, In sheet (sheet_names xls) ->
           exists df, parse_sheet xls sheet = inr df
                      /\ get_full_data self' path sheet = inr df.
Proof.
  revert self. induction paths as [|p rest IH]; intros self Hload path Hin;
    [destruct Hin|].
  cbn [ExcelProcessor.load_files] in Hload.
  destruct (load_file p self) as [self1 [e|]] eqn:E1; [discriminate|].
  destruct (in_dec string_dec path rest) as [Hr|Hr].
  - exact (IH self1 Hload path Hr).
  - destruct Hin as [->|Hin]; [|contradiction].
    apply load_file_done in E1 as [xls [sheets [Hf [Ho [Hget Hall]]]]].
    exists xls. split; [exact Hf|]. split; [exact Ho|].
    intros sheet Hs. destruct (Hall sheet Hs) as [df [Hp Hd]].
    exists df. split; [exact Hp|].
    pose proof (load_files_frame rest path self1 Hr) as Hk.
    rewrite Hload in Hk. cbn [fst] in Hk.
    unfold ExcelProcessor.get_full_data. rewrite Hk, Hget, Hd. reflexivity.
Qed.

(** X16.  [load_files] is not all or nothing.  At the first path that is no
    file it raises [FileNotFoundError] with that path, and the files before
    it stay loaded: the processor is the one that loading them alone
    leaves. *)
Theorem load_files_stops_at_missing_file (loaded : list string) (path : string)
    (rest : list string) (self self' : processor) :
  load_files loaded self = (self', None) ->
  isfile path = false ->
  load_files (loaded ++ path :: rest) self
  = (self', Some (FileNotFoundError pandas_exn path)).
Proof.
  revert self. induction loaded as [|p ps IH]; intros self Hload Hfile.
  - injection Hload as <-. cbn [app ExcelProcessor.load_files].
    unfold ExcelProcessor.load_file. rewrite Hfile. reflexivity.
  - cbn [app ExcelProcessor.load_files] in *.
    destruct (load_file p self) as [self1 [e|]]; [discriminate|].
    apply IH; assumption.
Qed.

End Workbooks.

Lemma load_files_keeps_other_files_witness :
  ExcelProcessor.get_full_data (list string) nat unit
    (fst (ExcelProcessor.load_files (list string) nat unit (fun _ => true)
            (fun _ : string => inr ["Sheet1"; "Sheet2"]%string)
            (fun xls : list string => xls)
            (fun (_ : list string) (s : string) => @inr unit nat (String.length s))
            ["a.xlsx"; "b.xlsx"]%string
            (ExcelProcessor.init (list string) nat)))
    "c.xlsx" "Sheet1"
  = inl (ExcelProcessor.ValueError_file_not_loaded unit "c.xlsx").
Proof.
  rewrite load_files_keeps_other_files; [reflexivity|].
  cbv. intuition discriminate.
Defined.

Lemma load_then_get_witness :
  ExcelProcessor.get_full_data (list string) nat unit
    (fst (ExcelProcessor.load_files (list string) nat unit (fun _ => true)
            (fun _ : string => inr ["Sheet1"; "Sheet2"]%string)
            (fun xls : list string => xls)
            (fun (_ : list string) (s : string) => @inr unit nat (String.length s))
            ["a.xlsx"; "b.xlsx"; "a.xlsx"]%string
            (ExcelProcessor.init (list string) nat)))
    "a.xlsx" "Sheet2"
  = inr 6%nat.
Proof.
  destruct (load_then_get (list string) nat unit (fun _ => true)
              (fun _ : string => inr ["Sheet1"; "Sheet2"]%string)
              (fun xls : list string => xls)
              (fun (_ : list string) (s : string) =>
                 @inr unit nat (String.length s))
              ["a.xlsx"; "b.xlsx"; "a.xlsx"]%string
              (ExcelProcessor.init (list string) nat)
              (fst (ExcelProcessor.load_files (list string) nat unit
                      (fun _ => true)
                      (fun _ : string => inr ["Sheet1"; "Sheet2"]%string)
                      (fun xls : list string => xls)
                      (fun (_ : list string) (s : string) =>
                         @inr unit nat (String.length s))
                      ["a.xlsx"; "b.xlsx"; "a.xlsx"]%string
                      (ExcelProcessor.init (list string) nat)))
              eq_refl "a.xlsx"%string (or_introl eq_refl))
    as [xls [_ [Ho Hall]]].
  injection Ho as <-.
  destruct (Hall "Sheet2"%string (or_intror (or_introl eq_refl)))
    as [df [Hp Hd]].
  injection Hp as <-. exact Hd.
Defined.

Lemma load_files_stops_at_missing_file_witness :
  ExcelProcessor.load_files (list string) nat unit
    (fun p => String.eqb p "a.xlsx")
    (fun _ : string => inr ["Sheet1"]%string)
    (fun xls : list string => xls)
    (fun (_ : list string) (s : string) => @inr unit nat (String.length s))
    ["a.xlsx"; "gone.xlsx"; "a.xlsx"]%string
    (ExcelProcessor.init (list string) nat)
  = (ExcelProcessor.mk (list string) nat [("a.xlsx", ["Sheet1"])]%string
       [("a.xlsx", [("Sheet1", 6%nat)])]%string,
     Some (ExcelProcessor.FileNotFoundError unit "gone.xlsx")).
Proof.
  apply (load_files_stops_at_missing_file (list string) nat unit
           (fun p => String.eqb p "a.xlsx")
           (fun _ : string => inr ["Sheet1"]%string)
           (fun xls : list string => xls)
           (fun (_ : list string) (s : string) => @inr unit nat (String.length s))
           ["a.xlsx"]%string "gone.xlsx" ["a.xlsx"]%string).
  - reflexivity.
  - reflexivity.
Defined.

(** ** Dates with the name of the month *)

(** The alternatives of [%b] and of [%B] on a name of a month that a
    hyphen follows. *)
Lemma month_name_alternatives (w : string) (m : Z) :
  In (w, m) (short_names ++ long_names) ->
  (forall r, alt_name abbreviated_months (lit w ++ ch "-" :: r)
             = [(m, skipn 3 (lit w) ++ ch "-" :: r)])
  /\ (forall r, alt_name full_months (lit w ++ ch "-" :: r)
                = if (3 <? String.length w)%nat || String.eqb w "May"
                  then [(m, ch "-" :: r)] else [])
  /\ match skipn 3 (lit w) with
     | [] => (String.length w =? 3)%nat = true
     | c :: _ => (String.length w =? 3)%nat = false
                 /\ eqc c (ch "-") = false
                 /\ (3 <? String.length w)%nat = true
     end.
Proof.
  intros Hin. cbn [short_names long_names app] in Hin.
  repeat (destruct Hin as [E|Hin];
          [injection E as <- <-;
           split; [intros r; vm_compute; reflexivity|];
           split; [intros r; vm_compute; reflexivity|];
           vm_compute; auto|]).
  contradiction.
Qed.

(** A name of a month and the hyphen after it, under [%b] and under [%B]:
    the short names are read by the one, the long names by the other, and
    one of the two reads the name. *)
Lemma month_name_steps (w : string) (m : Z) :
  In (w, m) (short_names ++ long_names) ->
  (forall fmt f r,
      regex_match (Db :: Dlit (ch "-") :: fmt) f (lit w ++ ch "-" :: r)
      = if (String.length w =? 3)%nat
        then regex_match fmt (set_month m f) r else None)
  /\ (forall fmt f r,
         regex_match (DB :: Dlit (ch "-") :: fmt) f (lit w ++ ch "-" :: r)
         = if (3 <? String.length w)%nat || String.eqb w "May"
           then regex_match fmt (set_month m f) r else None)
  /\ (String.length w =? 3)%nat
     || ((3 <? String.length w)%nat || String.eqb w "May") = true.
Proof.
  intros Hin.
  destruct (month_name_alternatives w m Hin) as [Hb [HB Hrest]].
  split; [|split].
  - intros fmt f r. cbn [regex_match alternatives]. rewrite Hb.
    cbn [map first_some regex_match alternatives].
    destruct (skipn 3 (lit w)) as [|c rest].
    + rewrite Hrest. cbn [app]. rewrite eqc_refl. cbn [first_some].
      destruct (regex_match fmt (set_month m f) r) as [[? ?]|]; reflexivity.
    + destruct Hrest as [-> [Hc _]]. cbn [app]. rewrite Hc. reflexivity.
  - intros fmt f r. cbn [regex_match alternatives]. rewrite HB.
    destruct ((3 <? String.length w)%nat || String.eqb w "May");
      [|reflexivity].
    cbn [map first_some regex_match alternatives]. rewrite eqc_refl.
    cbn [first_some].
    destruct (regex_match fmt (set_month m f) r) as [[? ?]|]; reflexivity.
  - destruct (skipn 3 (lit w)) as [|c rest].
    + rewrite Hrest. reflexivity.
    + destruct Hrest as [_ [_ ->]]. apply orb_true_r.
Qed.

Lemma alt_Y_short (a : Z) : 0 <= a < 100 -> alt_Y (two_digits a) = [].
Proof.
  intros Ha. unfold alt_Y.
  rewrite <- (app_nil_r (two_digits a)), two_any_digits by exact Ha.
  reflexivity.
Qed.

Lemma alt_y_two (a : Z) (r : str) :
  0 <= a < 100 -> alt_y (two_digits a ++ r) = [(pivot_year a, r)].
Proof.
  intros Ha. unfold alt_y. rewrite two_any_digits by exact Ha. reflexivity.
Qed.

Section MonthNames.

Variable pd_to_datetime : str -> result date.

(** The part the two theorems share: the text is "dd-Month-" and digits of
    a year that end the text, [year] is what the format with [%Y] makes of
    them and [year'] what the format with [%y] makes of them. *)
Lemma day_month_year_date (d : Z) (w : string) (m : Z) (yr : str)
    (last : Z) (front : str) (year year' : option Z) :
  In (w, m) (short_names ++ long_names) -> 0 <= d < 100 ->
  0 <= last < 10 -> yr = front ++ [digit_char last] ->
  (forall f, regex_match [DY] f yr
             = match year with
               | Some y => Some (set_year y f, [])
               | None => None
               end) ->
  (forall f, match regex_match [Dy] f yr with
             | Some (f', []) => year' <> None /\ forall y, year' = Some y -> f' = set_year y f
             | _ => year' = None
             end) ->
  (year = None \/ year' = None) ->
  parse_date pd_to_datetime (CText (day_month_year d w yr))
  = match (match year with Some y => Some y | None => year' end) with
    | Some y =>
        if valid_date y m d then Ok (mkdate y m d)
        else fallback pd_to_datetime (day_month_year d w yr)
    | None => fallback pd_to_datetime (day_month_year d w yr)
    end.
Proof.
  intros Hin Hd Hlast Eyr HY Hy Hone.
  destruct (month_name_steps w m Hin) as [Hb [HB Hsome]].
  assert (Hslash : isdigit (ch "/") = false) by reflexivity.
  assert (Hminus : isdigit (ch "-") = false) by reflexivity.
  assert (Hform : day_month_year d w yr
                  = digit_char (d / 10) :: digit_char (d mod 10) :: ch "-"
                    :: (lit w ++ ch "-" :: front) ++ [digit_char last]).
  { unfold day_month_year, two_digits. rewrite Eyr, <- app_assoc.
    reflexivity. }
  destruct (digits_first (d / 10) (d mod 10) (ch "-")
              (lit w ++ ch "-" :: front) last)
    as [Hstrip [Hserial [Hshort Hlong]]];
    [euclid|euclid|exact Hlast|reflexivity|reflexivity|].
  rewrite <- Hform in Hstrip, Hserial, Hshort, Hlong.
  unfold parse_date. cbn [isna str_of].
  rewrite Hstrip, Hserial, Hshort, Hlong.
  set (T := day_month_year d w yr).
  assert (H1 : strptime T [Dd; sep "/"; Dm; sep "/"; DY] = None).
  { unfold strptime, T, day_month_year, sep.
    rewrite step_day_other; [reflexivity|assumption|reflexivity|reflexivity]. }
  assert (H2 : strptime T [Dm; sep "/"; Dd; sep "/"; DY] = None).
  { unfold strptime, T, day_month_year, sep.
    rewrite step_month_other; [reflexivity|assumption|reflexivity|reflexivity]. }
  assert (H3 : strptime T [DY; sep "-"; Dm; sep "-"; Dd] = None).
  { unfold strptime, T, day_month_year. cbn [regex_match alternatives].
    rewrite alt_Y_two by (assumption || reflexivity). reflexivity. }
  assert (H67 : forall dir fmt, dir = Db \/ dir = DB ->
                                strptime T (dir :: fmt) = None).
  { intros dir fmt Hdir. unfold strptime, T. rewrite Hform.
    rewrite step_name_digit; [reflexivity|exact Hdir|euclid]. }
  (* the four formats with a name *)
  assert (Hfmt : forall dir (flag : bool) ydir,
             (forall fmt f r,
                 regex_match (dir :: Dlit (ch "-") :: fmt) f (lit w ++ ch "-" :: r)
                 = if flag then regex_match fmt (set_month m f) r else None) ->
             strptime T [Dd; sep "-"; dir; sep "-"; ydir]
             = match regex_match [ydir]
                       (set_month m (set_day d (mkfields 1900 1 1))) yr with
               | Some (f, []) =>
                   if flag && ((1 <=? d) && (d <=? 31))
                      && valid_date (f_year f) (f_month f) (f_day f)
                   then Some (mkdate (f_year f) (f_month f) (f_day f))
                   else None
               | _ => None
               end).
  { intros dir flag ydir Hdir. unfold strptime, T, day_month_year, sep.
    rewrite step_day by assumption.
    destruct ((1 <=? d) && (d <=? 31)).
    - rewrite Hdir. destruct flag.
      + destruct (regex_match [ydir] _ yr) as [[f [|c r]]|]; reflexivity.
      + destruct (regex_match [ydir] _ yr) as [[f [|c r]]|]; reflexivity.
    - rewrite andb_false_r.
      destruct (regex_match [ydir] _ yr) as [[f [|c r]]|]; reflexivity. }
  unfold literal_formats. cbn [first_some].
  rewrite H1, H2, H3.
  rewrite (Hfmt Db _ DY Hb), (Hfmt DB _ DY HB), (Hfmt Db _ Dy Hb),
    (Hfmt DB _ Dy HB).
  rewrite !H67 by auto. rewrite !HY.
  set (f0 := set_month m (set_day d (mkfields 1900 1 1))) in *.
  pose proof (Hy f0) as Hy0.
  destruct year as [y|].
  - (* the year has four digits *)
    destruct Hone as [Hone|Hone]; [discriminate|]. subst year'.
    assert (Hno : match regex_match [Dy] f0 yr with
                  | Some (f, []) =>
                      if (3 <? String.length w)%nat || String.eqb w "May"
                      then @None date else None
                  | _ => None
                  end = None).
    { destruct (regex_match [Dy] f0 yr) as [[f' [|c r]]|]; try reflexivity.
      destruct Hy0 as [Hy0 _]. contradiction. }
    cbn [f_year f_month f_day set_year f0 set_month set_day].
    destruct (valid_date y m d) eqn:V.
    + destruct (valid_date_ranges _ _ _ V) as [-> _].
      destruct (String.length w =? 3)%nat; [reflexivity|].
      cbn [orb] in Hsome. rewrite Hsome. reflexivity.
    + rewrite !andb_false_r.
      destruct (regex_match [Dy] f0 yr) as [[f' [|c r]]|]; try reflexivity.
      destruct Hy0 as [Hy0 _]. contradiction.
  - (* the year has two digits *)
    destruct year' as [y|].
    + destruct (regex_match [Dy] f0 yr) as [[f' [|c r]]|]; try discriminate.
      destruct Hy0 as [_ Hy0]. rewrite (Hy0 y eq_refl).
      cbn [f_year f_month f_day set_year f0 set_month set_day].
      destruct (valid_date y m d) eqn:V.
      * destruct (valid_date_ranges _ _ _ V) as [-> _].
        destruct (String.length w =? 3)%nat; [reflexivity|].
        cbn [orb] in Hsome. rewrite Hsome. reflexivity.
      * rewrite !andb_false_r. reflexivity.
    + destruct (regex_match [Dy] f0 yr) as [[f' [|c r]]|]; try reflexivity.
      destruct Hy0 as [Hy0 _]. contradiction.
Qed.

(** X17.  A date written "dd-Month-yyyy", the month by its short or its long
    name, is that day of that month and year whenever there is such a day;
    otherwise the text goes to the parser of pandas. *)
Theorem month_name_date (d : Z) (w : string) (m y : Z) :
  In (w, m) (short_names ++ long_names) ->
  0 <= d < 100 -> 0 <= y < 10000 ->
  parse_date pd_to_datetime (CText (day_month_year d w (four_digits y)))
  = if valid_date y m d then Ok (mkdate y m d)
    else fallback pd_to_datetime (day_month_year d w (four_digits y)).
Proof.
  intros Hin Hd Hy.
  apply (day_month_year_date d w m (four_digits y) (y mod 100 mod 10)
           (two_digits (y / 100) ++ [digit_char (y mod 100 / 10)])
           (Some y) None); try assumption.
  - euclid.
  - unfold four_digits, two_digits. rewrite <- app_assoc. reflexivity.
  - intros f. cbn [regex_match alternatives].
    rewrite <- (app_nil_r (four_digits y)), alt_Y_four by exact Hy.
    reflexivity.
  - intros f. cbn [regex_match alternatives]. unfold four_digits.
    rewrite alt_y_two by euclid. cbn. reflexivity.
  - now right.
Qed.

(** X18.  A date written "dd-Month-yy" has its year in 1969..2068: the years
    00 to 68 are 2000 to 2068 and the years 69 to 99 are 1969 to 1999.  The
    text is that day of that month and year whenever there is such a day;
    otherwise it goes to the parser of pandas. *)
Theorem month_name_short_year (d : Z) (w : string) (m yy : Z) :
  In (w, m) (short_names ++ long_names) ->
  0 <= d < 100 -> 0 <= yy < 100 ->
  parse_date pd_to_datetime (CText (day_month_year d w (two_digits yy)))
  = if valid_date (pivot_year yy) m d then Ok (mkdate (pivot_year yy) m d)
    else fallback pd_to_datetime (day_month_year d w (two_digits yy)).
Proof.
  intros Hin Hd Hy.
  apply (day_month_year_date d w m (two_digits yy) (yy mod 10)
           [digit_char (yy / 10)] None (Some (pivot_year yy)));
    try assumption.
  - euclid.
  - reflexivity.
  - intros f. cbn [regex_match alternatives].
    rewrite alt_Y_short by exact Hy. reflexivity.
  - intros f. cbn [regex_match alternatives].
    rewrite <- (app_nil_r (two_digits yy)), alt_y_two by exact Hy.
    cbn. split; [discriminate|]. intros y [= <-]. reflexivity.
  - now left.
Qed.

End MonthNames.

Lemma month_name_date_witness :
  parse_date (fun _ => Raise ValueError_InvalidDate) (CText (lit "29-Feb-2024"))
  = Ok (mkdate 2024 2 29)
  /\ parse_date (fun _ => Raise ValueError_InvalidDate)
       (CText (lit "01-September-1999"))
     = Ok (mkdate 1999 9 1).
Proof.
  split.
  - apply (month_name_date (fun _ => Raise ValueError_InvalidDate)
             29 "Feb" 2 2024); [cbv; tauto|lia|lia].
  - apply (month_name_date (fun _ => Raise ValueError_InvalidDate)
             1 "September" 9 1999); [cbv; tauto|lia|lia].
Defined.

Lemma month_name_short_year_witness :
  parse_date (fun _ => Raise ValueError_InvalidDate) (CText (lit "15-Mar-68"))
  = Ok (mkdate 2068 3 15)
  /\ parse_date (fun _ => Raise ValueError_InvalidDate)
       (CText (lit "15-March-69"))
     = Ok (mkdate 1969 3 15).
Proof.
  split.
  - apply (month_name_short_year (fun _ => Raise ValueError_InvalidDate)
             15 "Mar" 3 68); [cbv; tauto|lia|lia].
  - apply (month_name_short_year (fun _ => Raise ValueError_InvalidDate)
             15 "March" 3 69); [cbv; tauto|lia|lia].
Defined.

(** ** A month and a year *)

Lemma space_facts (c : char) :
  isspace c = true ->
  ascii_lower c = c /\ isdigit c = false.
Proof.
  intros H. apply isspace_enum in H. simpl in H.
  repeat (destruct H as [<-|H]; [vm_compute; auto|]). contradiction.
Qed.

Lemma lower_not_space (a c : char) :
  isspace c = true -> isspace (ascii_lower a) = false ->
  eqc (ascii_lower a) (ascii_lower c) = false.
Proof.
  intros Hc Ha. destruct (space_facts c Hc) as [-> _].
  destruct (eqc (ascii_lower a) c) eqn:E; [|reflexivity].
  apply eqc_eq in E. rewrite E, Hc in Ha. discriminate.
Qed.

(** [\s+] takes the whole run of whitespace first. *)
Lemma alt_ws_run (sp r : str) :
  sp <> [] -> Forall is_space sp ->
  match r with [] => True | c :: _ => isspace c = false end ->
  exists more, alt_ws (sp ++ r) = r :: more.
Proof.
  intros Hne Hsp Hr. induction Hsp as [|c sp Hc Hsp IH]; [contradiction|].
  cbn [app alt_ws]. unfold is_space in Hc. rewrite Hc.
  destruct sp as [|c' sp'].
  - cbn [app]. exists [].
    destruct r as [|x r']; [reflexivity|]. cbn [alt_ws]. rewrite Hr.
    reflexivity.
  - destruct (IH ltac:(discriminate)) as [more E]. rewrite E.
    eexists. reflexivity.
Qed.

(** The patterns that come before [%b %Y] refuse a text that starts with
    the name of a month, and the two patterns with a name read it when
    whitespace follows. *)
Lemma month_name_first (w : string) (m : Z) :
  In (w, m) (short_names ++ long_names) ->
  forall (c : char) (r : str),
    isspace c = true ->
    (exists h t, lit w ++ c :: r = h :: t /\ isspace h = false
                 /\ isdigit h = false)
    /\ match_quarter_short (lit w ++ c :: r) = None
    /\ match_quarter_long (lit w ++ c :: r) = None
    /\ alt_d (lit w ++ c :: r) = [] /\ alt_m (lit w ++ c :: r) = []
    /\ alt_Y (lit w ++ c :: r) = []
    /\ alt_name abbreviated_months (lit w ++ c :: r)
       = [(m, skipn 3 (lit w) ++ c :: r)]
    /\ alt_name full_months (lit w ++ c :: r)
       = (if (3 <? String.length w)%nat || String.eqb w "May"
          then [(m, c :: r)] else [])
    /\ match skipn 3 (lit w) with
       | [] => (String.length w =? 3)%nat = true
       | x :: _ => (String.length w =? 3)%nat = false
                   /\ isspace x = false
                   /\ (3 <? String.length w)%nat = true
       end.
Proof.
  intros Hin c r Hc. cbn [short_names long_names app] in Hin.
  repeat (destruct Hin as [E|Hin];
          [injection E as <- <-;
           split; [eexists; eexists; split; [reflexivity|split; reflexivity]|];
           split; [reflexivity|]; split; [reflexivity|];
           split; [reflexivity|]; split; [reflexivity|];
           split; [reflexivity|]; split; [reflexivity|];
           split;
           [clear - Hc; apply isspace_enum in Hc; simpl in Hc;
            repeat (destruct Hc as [<-|Hc]; [vm_compute; reflexivity|]);
            contradiction
           |vm_compute; auto]|]).
  contradiction.
Qed.

Lemma regex_match_cons (d : directive) (fmt : list directive) (f : fields)
    (s : str) :
  regex_match (d :: fmt) f s
  = first_some (fun '(f', r) => regex_match fmt f' r) (alternatives d f s).
Proof. reflexivity. Qed.

Section MonthAndYear.

Variable pd_to_datetime : str -> result date.

(** X19.  A text that is the name of a month, short or long, whitespace and a
    year of four digits is the first day of that month, for the years 1 to
    9999; the year 0000 goes to the parser of pandas. *)
Theorem month_and_year (w : string) (m : Z) (sp : str) (y : Z) :
  In (w, m) (short_names ++ long_names) ->
  sp <> [] -> Forall is_space sp -> 0 <= y < 10000 ->
  parse_date pd_to_datetime (CText (month_year w sp y))
  = if valid_date y m 1 then Ok (mkdate y m 1)
    else fallback pd_to_datetime (month_year w sp y).
Proof.
  intros Hin Hne Hsp Hy.
  destruct sp as [|c sp']; [contradiction|].
  assert (Hc : isspace c = true) by (inversion Hsp; assumption).
  set (rest := sp' ++ four_digits y).
  assert (ET : month_year w (c :: sp') y = lit w ++ c :: rest) by reflexivity.
  destruct (month_name_first w m Hin c rest Hc)
    as [[h [t [Eh [Hh1 Hh2]]]] [Hqs [Hql [Hd [Hm [HY [Hb [HB Hskip]]]]]]]].
  destruct (digit_char_facts (y / 100 / 10)) as [_ [_ [Sy _]]]; [euclid|].
  destruct (digit_char_facts (y mod 100 mod 10)) as [_ [_ [Sl _]]]; [euclid|].
  destruct (alt_ws_run (c :: sp') (four_digits y) Hne Hsp Sy) as [more Hws].
  assert (Hstrip : strip (month_year w (c :: sp') y) = month_year w (c :: sp') y).
  { apply strip_id.
    - rewrite ET, Eh. exact Hh1.
    - unfold month_year, four_digits, two_digits.
      replace (lit w ++ (c :: sp')
               ++ [digit_char (y / 100 / 10); digit_char (y / 100 mod 10)]
               ++ [digit_char (y mod 100 / 10); digit_char (y mod 100 mod 10)])
        with ((lit w ++ (c :: sp')
               ++ [digit_char (y / 100 / 10); digit_char (y / 100 mod 10);
                   digit_char (y mod 100 / 10)])
              ++ [digit_char (y mod 100 mod 10)])
        by (rewrite <- !app_assoc; reflexivity).
      rewrite rev_app_distr. exact Sl. }
  unfold parse_date. cbn [isna str_of]. rewrite Hstrip, ET.
  assert (Hserial : match_serial (lit w ++ c :: rest) = None).
  { unfold match_serial. rewrite Eh. cbn [takewhile]. rewrite Hh2.
    reflexivity. }
  rewrite Hserial, Hqs, Hql.
  assert (Hday : forall fmt, strptime (lit w ++ c :: rest) (Dd :: fmt) = None).
  { intros fmt. unfold strptime. cbn [regex_match alternatives].
    rewrite Hd. reflexivity. }
  assert (Hmonth : forall fmt, strptime (lit w ++ c :: rest) (Dm :: fmt) = None).
  { intros fmt. unfold strptime. cbn [regex_match alternatives].
    rewrite Hm. reflexivity. }
  assert (Hyear : forall fmt, strptime (lit w ++ c :: rest) (DY :: fmt) = None).
  { intros fmt. unfold strptime. cbn [regex_match alternatives].
    rewrite HY. reflexivity. }
  assert (Hrun : forall f, regex_match [Dws; DY] f (c :: rest)
                           = Some (set_year y f, [])).
  { intros f. cbn [regex_match alternatives]. fold rest in Hws.
    change (c :: rest) with ((c :: sp') ++ four_digits y). rewrite Hws.
    cbn [map first_some regex_match alternatives].
    rewrite <- (app_nil_r (four_digits y)), alt_Y_four by exact Hy.
    reflexivity. }
  assert (Hshort : strptime (lit w ++ c :: rest) [Db; Dws; DY]
                   = if (String.length w =? 3)%nat && valid_date y m 1
                     then Some (mkdate y m 1) else None).
  { unfold strptime. rewrite regex_match_cons. cbn [alternatives].
    rewrite Hb. cbn [map first_some].
    destruct (skipn 3 (lit w)) as [|x rest'].
    - rewrite Hskip. cbn [app]. rewrite Hrun. cbn.
      destruct (valid_date y m 1); reflexivity.
    - destruct Hskip as [-> [Hx _]]. rewrite regex_match_cons.
      cbn [app alternatives alt_ws]. rewrite Hx. reflexivity. }
  assert (Hfull : strptime (lit w ++ c :: rest) [DB; Dws; DY]
                  = if ((3 <? String.length w)%nat || String.eqb w "May")
                       && valid_date y m 1
                    then Some (mkdate y m 1) else None).
  { unfold strptime. rewrite regex_match_cons. cbn [alternatives].
    rewrite HB.
    destruct ((3 <? String.length w)%nat || String.eqb w "May");
      [|reflexivity].
    cbn [map first_some]. rewrite Hrun. cbn.
    destruct (valid_date y m 1); reflexivity. }
  assert (Hsome : (String.length w =? 3)%nat
                  || ((3 <? String.length w)%nat || String.eqb w "May") = true).
  { destruct (skipn 3 (lit w)) as [|x rest'].
    - rewrite Hskip. reflexivity.
    - destruct Hskip as [_ [_ ->]]. apply orb_true_r. }
  unfold literal_formats, sep. cbn [first_some].
  rewrite !Hday, !Hmonth, !Hyear, Hshort, Hfull.
  destruct (valid_date y m 1).
  - destruct (String.length w =? 3)%nat; [reflexivity|].
    cbn [orb] in Hsome. rewrite Hsome. reflexivity.
  - rewrite !andb_false_r. reflexivity.
Qed.

End MonthAndYear.

Lemma month_and_year_witness :
  parse_date (fun _ => Raise ValueError_InvalidDate) (CText (lit "March  2024"))
  = Ok (mkdate 2024 3 1).
Proof.
  apply (month_and_year (fun _ => Raise ValueError_InvalidDate)
           "March" 3 (lit "  ") 2024).
  - cbv. tauto.
  - discriminate.
  - repeat constructor.
  - lia.
Defined.
